(** * utilities.py: CoNLL corpus I/O, epoch statistics, report rendering

    A shallow embedding of [src/utilities.py] and the properties of its
    functions.

    Conventions of the embedding.
    - Python [str] is [string]; a character is a code point below 256.
    - Python [int] is [Z]; Python [float] is idealised as an exact
      rational [Q] (rounding, infinities and stored NaNs are outside the
      model); the NaN that [np.mean] returns on an empty list is [NaN].
    - A Python [dict] is an association list in insertion order.
    - A raised exception is [Raise e]; a method that mutates [self] before
      it raises is a state transformer that returns the mutated state next
      to the outcome.
    - A file is the text it holds; the encoding is assumed to carry
      every character and a line terminator to be written as it is.
      [read_conll] is given the text of its file.  [write_conll] runs on
      a [file_system] that answers for [os.makedirs] and [open], and
      returns the text it writes.  [read_conll_corpus], which opens
      several files, runs on a map from paths to texts, where a path
      without file ends the call with [NotFound].
    - A score tensor is given by its nested lists together with the
      size of its class dimension.
    - The csv module is that of CPython 3.11 and later.
    - Library functions whose result depends on the platform, on the
      state of the file system or on parsing rules ([os.path.dirname],
      [os.path.splitext], [os.path.join], [os.makedirs], [open] for
      writing, [float] on a string) are left open as parameters;
      seqeval, tabulate's layout, argparse, [json.loads] and the rest of
      torch are outside the model. *)

From Stdlib Require Import List String Ascii ZArith NArith QArith Qminmax.
From Stdlib Require Import Bool Lia Permutation Sorted.
Import ListNotations.

Local Open Scope string_scope.
Local Open Scope list_scope.
Local Open Scope nat_scope.

(** ** Exceptions *)

Inductive exn : Type :=
| IndexError
| KeyError
| TypeError
| ValueError
| CsvError
| FileNotFoundError.

Inductive result (A : Type) : Type :=
| Ok (a : A)
| Raise (e : exn).

Arguments Ok {A} a.
Arguments Raise {A} e.

Definition bind {A B : Type} (m : result A) (k : A -> result B) : result B :=
  match m with
  | Ok a => k a
  | Raise e => Raise e
  end.

Notation "x <- m ;; k" := (bind m (fun x => k))
  (at level 61, m at next level, right associativity).

(** A comprehension or [for] loop whose body may raise: the first
    exception aborts the loop. *)
Fixpoint mapM {A B : Type} (f : A -> result B) (l : list A) : result (list B) :=
  match l with
  | [] => Ok []
  | a :: r => b <- f a ;; bs <- mapM f r ;; Ok (b :: bs)
  end.

(** ** Python sequences and dicts *)

(** [l[i]] on a list: negative indices count from the end. *)
Definition getitem {A : Type} (l : list A) (i : Z) : result A :=
  let n := Z.of_nat (List.length l) in
  let j := if (i <? 0)%Z then (i + n)%Z else i in
  if ((0 <=? j) && (j <? n))%Z then
    match nth_error l (Z.to_nat j) with
    | Some a => Ok a
    | None => Raise IndexError
    end
  else Raise IndexError.

(** [d[k]] on a dict with [str] keys. *)
Fixpoint lookup {V : Type} (d : list (string * V)) (k : string) : result V :=
  match d with
  | [] => Raise KeyError
  | (k', v) :: r => if String.eqb k' k then Ok v else lookup r k
  end.

(** [k in d]. *)
Definition contains {V : Type} (d : list (string * V)) (k : string) : bool :=
  existsb (fun kv => String.eqb (fst kv) k) d.

(** [zip( *xss)]: the transposition, cut at the shortest argument;
    [zip()] is empty. *)
Fixpoint zip_with {A B C : Type} (f : A -> B -> C) (l : list A) (l' : list B) : list C :=
  match l, l' with
  | a :: r, b :: r' => f a b :: zip_with f r r'
  | _, _ => []
  end.

Fixpoint zip_star {A : Type} (xss : list (list A)) : list (list A) :=
  match xss with
  | [] => []
  | xs :: rest =>
      match rest with
      | [] => map (fun x => [x]) xs
      | _ :: _ => zip_with cons xs (zip_star rest)
      end
  end.

(** [itertools.groupby] with a boolean key: maximal runs of consecutive
    items with the same key. *)
Fixpoint groupby {A : Type} (key : A -> bool) (l : list A) : list (bool * list A) :=
  match l with
  | [] => []
  | x :: r =>
      match groupby key r with
      | (k, g) :: gs =>
          if Bool.eqb (key x) k then (k, x :: g) :: gs
          else (key x, [x]) :: (k, g) :: gs
      | [] => [(key x, [x])]
      end
  end.

(** ** Text *)

Definition LF : ascii := "010"%char.
Definition CR : ascii := "013"%char.

(** [str.isspace] on one code point below 256. *)
Definition isspace (c : ascii) : bool :=
  let n := N_of_ascii c in
  (((9 <=? n) && (n <=? 13)) || ((28 <=? n) && (n <=? 32))
   || (n =? 133) || (n =? 160))%N.

Fixpoint lstrip (s : string) : string :=
  match s with
  | EmptyString => EmptyString
  | String c r => if isspace c then lstrip r else s
  end.

Fixpoint rstrip (s : string) : string :=
  match s with
  | EmptyString => EmptyString
  | String c r =>
      match rstrip r with
      | EmptyString => if isspace c then EmptyString else String c EmptyString
      | String c' r' => String c (String c' r')
      end
  end.

(** [s.strip()]. *)
Definition strip (s : string) : string := rstrip (lstrip s).

(** [c in s]. *)
Fixpoint mem_char (c : ascii) (s : string) : bool :=
  match s with
  | EmptyString => false
  | String c' r => Ascii.eqb c' c || mem_char c r
  end.

(** The pieces of [s] between occurrences of [d] (always at least one). *)
Fixpoint split_on (d : ascii) (s : string) : list string :=
  match s with
  | EmptyString => [EmptyString]
  | String c r =>
      if Ascii.eqb c d then EmptyString :: split_on d r
      else match split_on d r with
           | f :: fs => String c f :: fs
           | [] => [String c EmptyString]
           end
  end.

(** Text-mode decoding of [open(filename)] (newline=None): every
    ["\r\n"] and every lone ["\r"] reads as ["\n"]. *)
Fixpoint universal_newlines (s : string) : string :=
  match s with
  | EmptyString => EmptyString
  | String c r =>
      if Ascii.eqb c CR then
        match r with
        | String c' r' =>
            if Ascii.eqb c' LF then String LF (universal_newlines r')
            else String LF (universal_newlines r)
        | EmptyString => String LF EmptyString
        end
      else String c (universal_newlines r)
  end.

(** Iterating a text file: its lines, here without their terminator; a
    last line without terminator counts when it is not empty. *)
Fixpoint lines (s : string) : list string :=
  match s with
  | EmptyString => []
  | String c r =>
      if Ascii.eqb c LF then EmptyString :: lines r
      else match lines r with
           | l :: ls => String c l :: ls
           | [] => [String c EmptyString]
           end
  end.

(** ** csv.reader(fp, delimiter=d, quoting=csv.QUOTE_NONE)

    With QUOTE_NONE and no escape character the reader yields one row per
    line: no field for an empty line, otherwise the pieces between
    delimiters.  It raises [csv.Error] on a field longer than
    [csv.field_size_limit()].  A NUL is a character like any other, as
    in CPython 3.11 and later (earlier versions raise [csv.Error] on a
    line that holds one). *)

Definition field_size_limit : N := 131072.

Definition csv_row (d : ascii) (line : string) : result (list string) :=
  let fields :=
    match line with
    | EmptyString => []
    | String _ _ => split_on d line
    end in
  if forallb (fun f => (N.of_nat (String.length f) <=? field_size_limit)%N) fields
  then Ok fields
  else Raise CsvError.

Definition csv_reader (d : ascii) (ls : list string) : result (list (list string)) :=
  mapM (csv_row d) ls.

(** ** read_conll, write_conll *)

Definition Dataset : Type := list (string * list (list string)).

Definition is_empty_line (line_pack : list string) : bool :=
  forallb (fun field => String.eqb (strip field) EmptyString) line_pack.

(** The list [data] of [read_conll] after its loop: one transposed block
    per run of non-empty rows. *)
Definition read_blocks (rows : list (list string)) : list (list (list string)) :=
  flat_map (fun g : bool * list (list string) =>
              if fst g then [] else [zip_star (snd g)])
           (groupby is_empty_line rows).

(** [text] is the content of [filename]. *)
Definition read_conll (text : string) (columns : list (string * Z))
    (delimiter : string) : result Dataset :=
  match delimiter with
  | String d EmptyString =>
      rows <- csv_reader d (lines (universal_newlines text)) ;;
      let data := zip_star (read_blocks rows) in
      mapM (fun c : string * Z =>
              col <- getitem data (snd c) ;; Ok (fst c, col))
           columns
  | _ => Raise TypeError
  end.

Definition NL : string := String LF EmptyString.

(** What the platform and the state of the file system decide for
    [write_conll]: [os.path.dirname], [os.makedirs(name, exist_ok=True)]
    and [open(filename, 'w')]. *)
Record file_system : Type := {
  dirname : string -> string;
  makedirs : string -> result unit;
  open_w : string -> result unit
}.

(** The body of the [with] block: the text that the loops write to
    [fp]. *)
Definition write_rows (data : Dataset) (colnames : list string) (any_key : string)
    (delimiter : string) : result string :=
  first <- lookup data any_key ;;
  samples <-
    mapM (fun sample_i : nat =>
            sample <- getitem first (Z.of_nat sample_i) ;;
            rows <-
              mapM (fun token_i : nat =>
                      row <-
                        mapM (fun col : string =>
                                column <- lookup data col ;;
                                smp <- getitem column (Z.of_nat sample_i) ;;
                                getitem smp (Z.of_nat token_i))
                             colnames ;;
                      Ok (String.concat delimiter row ++ NL)%string)
                   (seq 0 (List.length sample)) ;;
            Ok (String.concat EmptyString rows ++ NL)%string)
         (seq 0 (List.length first)) ;;
  Ok (String.concat EmptyString samples).

(** The result is the text written to [filename]; the content of a file
    left behind by a raised exception is not modelled. *)
Definition write_conll (fs : file_system) (filename : string) (data : Dataset)
    (colnames : option (list string)) (delimiter : string) : result string :=
  made <- makedirs fs (dirname fs filename) ;;
  let colnames :=
    match colnames with
    | None => map fst data
    | Some cs => cs
    end in
  any_key <- getitem colnames 0%Z ;;
  fp <- open_w fs filename ;;
  write_rows data colnames any_key delimiter.

(** ** EpochStats *)

(** A value stored in [self.preds] or [self.golds], or produced by the
    label mapping: an id, a label, or a list of such. *)
#[warnings="-register-all"]
Inductive pyval : Type :=
| PInt (z : Z)
| PStr (s : string)
| PList (l : list pyval).

(** What [np.mean] returns. *)
Inductive npfloat : Type :=
| Num (q : Q)
| NaN.

Record EpochStats : Type := {
  sizes : list Z;
  losses : list Q;
  ner_losses : list Q;
  dep_losses : list Q;
  probs : list (list Q);
  preds : list pyval;
  golds : list pyval
}.

Definition __init__ : EpochStats :=
  {| sizes := []; losses := []; ner_losses := []; dep_losses := [];
     probs := []; preds := []; golds := [] |}.

Definition loss_step (loss ner_loss dep_loss : Q) (batch_size : Z)
    (self : EpochStats) : EpochStats :=
  {| sizes := sizes self ++ [batch_size];
     losses := losses self ++ [loss];
     ner_losses := ner_losses self ++ [ner_loss];
     dep_losses := dep_losses self ++ [dep_loss];
     probs := probs self;
     preds := preds self;
     golds := golds self |}.

(** [row.max()] of one class vector: the largest score and the first
    index that holds it. *)
Fixpoint row_max_from (best : Q) (besti i : Z) (row : list Q) : Q * Z :=
  match row with
  | [] => (best, besti)
  | x :: r =>
      if Qle_bool x best then row_max_from best besti (i + 1)%Z r
      else row_max_from x i (i + 1)%Z r
  end.

Definition row_max (row : list Q) : result (Q * Z) :=
  match row with
  | [] => Raise IndexError
  | x :: r => Ok (row_max_from x 0%Z 1%Z r)
  end.

(** A batch x token x class tensor of scores: the size of its class
    dimension and its entries as nested lists ([scores.tolist()]).  The lists of a tensor
    without tokens do not show how many classes it has; [size2] does. *)
Record tensor3 : Type := tensor {
  size2 : nat;
  tolist : list (list (list Q))
}.

(** [scores.max(dim=2)]: [(values, indices)].  A class dimension of size
    0 cannot be reduced, whether the tensor has tokens or not. *)
Definition max_dim2 (scores : tensor3)
    : result (list (list Q) * list (list Z)) :=
  if (size2 scores =? 0)%nat then Raise IndexError
  else
    r <- mapM (mapM row_max) (tolist scores) ;;
    Ok (map (map fst) r, map (map snd) r).

(** [t[m]] with a boolean mask of the same shape. *)
Fixpoint masked_select {A : Type} (t : list A) (m : list bool) : result (list A) :=
  match t, m with
  | [], [] => Ok []
  | x :: t', b :: m' =>
      r <- masked_select t' m' ;; Ok (if b then x :: r else r)
  | _, _ => Raise IndexError
  end.

(** [t[i][mask[i] == 1].cpu().tolist()]. *)
Definition select_sample {A : Type} (t : list (list A)) (mask : list (list Z))
    (i : nat) : result (list A) :=
  row <- getitem t (Z.of_nat i) ;;
  m <- getitem mask (Z.of_nat i) ;;
  masked_select row (map (fun x => (x =? 1)%Z) m).

Definition append_sample (prob_i : list Q) (pred_i gold_i : list Z)
    (self : EpochStats) : EpochStats :=
  {| sizes := sizes self;
     losses := losses self;
     ner_losses := ner_losses self;
     dep_losses := dep_losses self;
     probs := probs self ++ [prob_i];
     preds := preds self ++ [PList (map PInt pred_i)];
     golds := golds self ++ [PList (map PInt gold_i)] |}.

(** The [for i in range(len(scores))] loop of [step]. *)
Fixpoint step_loop (probs : list (list Q)) (classes target mask : list (list Z))
    (range : list nat) (self : EpochStats) : EpochStats * result unit :=
  match range with
  | [] => (self, Ok tt)
  | i :: range' =>
      match (prob_i <- select_sample probs mask i ;;
             pred_i <- select_sample classes mask i ;;
             gold_i <- select_sample target mask i ;;
             Ok (prob_i, pred_i, gold_i)) with
      | Ok (prob_i, pred_i, gold_i) =>
          step_loop probs classes target mask range'
            (append_sample prob_i pred_i gold_i self)
      | Raise e => (self, Raise e)
      end
  end.

Definition step (scores : tensor3) (target mask : list (list Z))
    (loss ner_loss dep_loss : Q) (self : EpochStats) : EpochStats * result unit :=
  let self :=
    loss_step loss ner_loss dep_loss (Z.of_nat (List.length (tolist scores))) self in
  match max_dim2 scores with
  | Ok (probs, classes) =>
      step_loop probs classes target mask (seq 0 (List.length (tolist scores))) self
  | Raise e => (self, Raise e)
  end.

Definition Qsum (l : list Q) : Q := fold_right Qplus 0%Q l.

Definition np_mean (l : list Q) : npfloat :=
  match l with
  | [] => NaN
  | _ :: _ => Num (Qsum l / inject_Z (Z.of_nat (List.length l)))%Q
  end.

Definition np_min (l : list Q) : result Q :=
  match l with
  | [] => Raise ValueError
  | x :: r => Ok (fold_left (fun a b => if Qle_bool a b then a else b) r x)
  end.

Definition np_max (l : list Q) : result Q :=
  match l with
  | [] => Raise ValueError
  | x :: r => Ok (fold_left (fun a b => if Qle_bool b a then a else b) r x)
  end.

(** [[l for l, s in zip(losses, sizes) for _ in range(s)]]. *)
Definition repeat_by_size (losses : list Q) (sizes : list Z) : list Q :=
  flat_map (fun ls : Q * Z => repeat (fst ls) (Z.to_nat (snd ls)))
           (combine losses sizes).

Definition loss (self : EpochStats) (loss_type : string)
    : result (npfloat * Q * Q) :=
  let losses :=
    if String.eqb loss_type "ner" then ner_losses self
    else if String.eqb loss_type "dep" then dep_losses self
    else losses self in
  let mean := np_mean (repeat_by_size losses (sizes self)) in
  lo <- np_min losses ;;
  hi <- np_max losses ;;
  Ok (mean, lo, hi).

(** [index2label]: a list of labels or a dict from id to label. *)
Inductive label_map : Type :=
| LabelList (l : list string)
| LabelDict (d : list (Z * string)).

Fixpoint zlookup (d : list (Z * string)) (k : Z) : result string :=
  match d with
  | [] => Raise KeyError
  | (k', v) :: r => if (k' =? k)%Z then Ok v else zlookup r k
  end.

(** [index2label[k]]: a list takes only an int, a dict cannot hash a
    list and holds no [str] key. *)
Definition label_of (index2label : label_map) (k : pyval) : result pyval :=
  match index2label, k with
  | LabelList l, PInt z => s <- getitem l z ;; Ok (PStr s)
  | LabelList _, _ => Raise TypeError
  | LabelDict d, PInt z => s <- zlookup d z ;; Ok (PStr s)
  | LabelDict _, PStr _ => Raise KeyError
  | LabelDict _, PList _ => Raise TypeError
  end.

Fixpoint chars (s : string) : list pyval :=
  match s with
  | EmptyString => []
  | String c r => PStr (String c EmptyString) :: chars r
  end.

(** [for j in i]. *)
Definition iterate (i : pyval) : result (list pyval) :=
  match i with
  | PList l => Ok l
  | PStr s => Ok (chars s)
  | PInt _ => Raise TypeError
  end.

(** [[[index2label[j] for j in i] for i in xs]]. *)
Definition map_nested (index2label : label_map) (xs : list pyval)
    : result (list pyval) :=
  mapM (fun i => js <- iterate i ;;
                 ls <- mapM (label_of index2label) js ;;
                 Ok (PList ls))
       xs.

(** [[index2label[i] for i in xs]]. *)
Definition map_flat (index2label : label_map) (xs : list pyval)
    : result (list pyval) :=
  mapM (label_of index2label) xs.

(** The body of the [try] and of the [except] of [_map_to_labels]:
    [mapping] over the golds, then over the predictions. *)
Definition map_both (mapping : label_map -> list pyval -> result (list pyval))
    (self : EpochStats) (index2label : label_map)
    : result (list pyval * list pyval) :=
  g <- mapping index2label (golds self) ;;
  p <- mapping index2label (preds self) ;;
  Ok (g, p).

Definition _map_to_labels (self : EpochStats) (index2label : label_map)
    : result (list pyval * list pyval) :=
  match map_both map_nested self index2label with
  | Raise TypeError => map_both map_flat self index2label
  | r => r
  end.

(** ** printcr *)

Inductive cell : Type :=
| CStr (s : string)
| CNum (q : Q).

(** The report: its items, and whether it is a [defaultdict(dict)] (as
    [report2dict] builds it) or a plain dict. *)
Record Report : Type := {
  items : list (string * list (string * Q));
  default_factory : bool
}.

(** [report[c]]. *)
Definition report_getitem (report : Report) (c : string)
    : result (list (string * Q)) :=
  match lookup (items report) c with
  | Ok r => Ok r
  | Raise e => if default_factory report then Ok [] else Raise e
  end.

Definition headers : list string :=
  ["classes"; "precision"; "recall"; "f1-score"; "support"].

Definition is_aggregate (k : string) : bool :=
  String.eqb k "macro avg" || String.eqb k "micro avg".

Definition is_percent (h : string) : bool :=
  String.eqb h "precision" || String.eqb h "recall" || String.eqb h "f1-score".

(** [sorted]: a stable sort; [le x y] says that [x] may stand before [y]. *)
Fixpoint insert_by {A : Type} (le : A -> A -> bool) (x : A) (l : list A) : list A :=
  match l with
  | [] => [x]
  | y :: r => if le x y then x :: y :: r else y :: insert_by le x r
  end.

Definition sorted {A : Type} (le : A -> A -> bool) (l : list A) : list A :=
  fold_right (insert_by le) [] l.

(** The row of class [c]. *)
Definition row_of (report : Report) (c : string) : result (list cell) :=
  cells <-
    mapM (fun h : string =>
            r <- report_getitem report c ;;
            if contains r h then
              v <- lookup r h ;;
              Ok [CNum (if is_percent h then v * 100 else v)%Q]
            else Ok [])
         headers ;;
  Ok (CStr c :: List.concat cells).

(** The result is the [table] handed to [tabulate]. *)
Definition printcr (report : Report) (classes : option (list string))
    (sort_by_support : bool) : result (list (list cell)) :=
  classes <-
    match classes with
    | None =>
        let classes :=
          filter (fun k => negb (is_aggregate k)) (map fst (items report)) in
        if sort_by_support then
          keyed <-
            mapM (fun c : string =>
                    r <- report_getitem report c ;;
                    s <- lookup r "support" ;;
                    Ok (c, s))
                 classes ;;
          Ok (map fst (sorted (fun x y : string * Q => Qle_bool (snd y) (snd x)) keyed))
        else Ok (sorted String.leb classes)
    | Some cs => Ok cs
    end ;;
  let classes :=
    if existsb (String.eqb "macro avg") classes then classes
    else classes ++ ["macro avg"] in
  let classes :=
    if existsb (String.eqb "micro avg") classes then classes
    else classes ++ ["micro avg"] in
  table <-
    mapM (fun c : string =>
            row <- row_of report c ;;
            Ok (if String.eqb c "macro avg" then [[]; row] else [row]))
         classes ;;
  Ok (List.concat table).

(** ** Histories of the accumulator

    What the training loop does with one accumulator: a sequence of
    [loss_step] and [step] calls on a fresh [EpochStats()].  A [step] that
    raises has still recorded its batch. *)

Inductive call : Type :=
| LossStep (loss ner_loss dep_loss : Q) (batch_size : Z)
| Step (scores : tensor3) (target mask : list (list Z))
       (loss ner_loss dep_loss : Q).

Definition run_call (self : EpochStats) (c : call) : EpochStats :=
  match c with
  | LossStep l n d s => loss_step l n d s self
  | Step scores target mask l n d => fst (step scores target mask l n d self)
  end.

Definition run (h : list call) : EpochStats := fold_left run_call h __init__.

Definition call_loss (c : call) : Q :=
  match c with LossStep l _ _ _ => l | Step _ _ _ l _ _ => l end.

Definition call_ner_loss (c : call) : Q :=
  match c with LossStep _ n _ _ => n | Step _ _ _ _ n _ => n end.

Definition call_dep_loss (c : call) : Q :=
  match c with LossStep _ _ d _ => d | Step _ _ _ _ _ d => d end.

Definition call_size (c : call) : Z :=
  match c with
  | LossStep _ _ _ s => s
  | Step scores _ _ _ _ _ => Z.of_nat (List.length (tolist scores))
  end.

(** The mean of [ls] weighted by [ss]. *)
Definition weighted_mean (ls : list Q) (ss : list Z) : Q :=
  (Qsum (map (fun p : Q * Z => fst p * inject_Z (snd p)) (combine ls ss))
   / inject_Z (fold_right Z.add 0%Z ss))%Q.

Definition is_minimum (lo : Q) (l : list Q) : Prop :=
  In lo l /\ Forall (fun x => (lo <= x)%Q) l.

Definition is_maximum (hi : Q) (l : list Q) : Prop :=
  In hi l /\ Forall (fun x => (x <= hi)%Q) l.

(** [r] is the triple (weighted mean, minimum, maximum) of the losses
    [ls] recorded with the batch sizes [ss]: the first component is the
    mean of the list that repeats every loss as often as its batch size
    says, which is the mean weighted by the sizes whenever these are
    weights (none negative, not all zero); the other two are the least and
    the largest of the losses themselves. *)
Definition summarises (r : result (npfloat * Q * Q)) (ls : list Q) (ss : list Z) : Prop :=
  exists m lo hi,
    r = Ok (m, lo, hi)
    /\ m = np_mean (List.concat (map (fun p : Q * Z => repeat (fst p) (Z.to_nat (snd p)))
                                     (combine ls ss)))
    /\ (Forall (fun s => (0 <= s)%Z) ss ->
        (0 < fold_right Z.add 0%Z ss)%Z ->
        exists q, m = Num q /\ (q == weighted_mean ls ss)%Q)
    /\ is_minimum lo ls /\ is_maximum hi ls.

(** ** Blocks of a corpus file *)

(** The maximal runs of non-empty rows. *)
Definition blocks (rows : list (list string)) : list (list (list string)) :=
  flat_map (fun g : bool * list (list string) =>
              if fst g then [] else [snd g])
           (groupby is_empty_line rows).

(** The number of rows that open a block: non-empty rows at the start of
    the file or right after an empty row. *)
Fixpoint count_blocks (after_empty : bool) (rows : list (list string)) : nat :=
  match rows with
  | [] => 0
  | r :: rows' =>
      (if after_empty && negb (is_empty_line r) then 1 else 0)
      + count_blocks (is_empty_line r) rows'
  end.

(** Every character of [s] is white space. *)
Fixpoint all_space (s : string) : bool :=
  match s with
  | EmptyString => true
  | String c r => isspace c && all_space r
  end.

(** The length of the shortest list of [xss] (0 when there is none). *)
Fixpoint minlen {A : Type} (xss : list (list A)) : nat :=
  match xss with
  | [] => 0
  | xs :: rest =>
      match rest with
      | [] => List.length xs
      | _ :: _ => Nat.min (List.length xs) (minlen rest)
      end
  end.

(** [i] is an index into a sequence of length [n]. *)
Definition valid_index (n : nat) (i : Z) : Prop :=
  (- Z.of_nat n <= i < Z.of_nat n)%Z.

(** There is a non-empty row, and [i] is an index into every such row. *)
Definition covers (rows : list (list string)) (i : Z) : Prop :=
  (exists r, In r rows /\ is_empty_line r = false)
  /\ forall r, In r rows -> is_empty_line r = false ->
       valid_index (List.length r) i.

(** [col] is the column of [blocks] read at the position [i]: sample by
    sample, one field of every row (the field [i] when [i] is not
    negative). *)
Definition column_at (blocks : list (list (list string))) (i : Z)
    (col : list (list string)) : Prop :=
  exists j, ((0 <= i)%Z -> j = Z.to_nat i)
            /\ col = map (map (fun r => nth j r EmptyString)) blocks.

(** The length of the shortest non-empty row of the file: the width of
    the table that [read_conll] indexes. *)
Definition width (rows : list (list string)) : nat :=
  minlen (filter (fun r => negb (is_empty_line r)) rows).

(** The place in a row that the index [i] reads: a negative index counts
    back from [width]. *)
Definition position (rows : list (list string)) (i : Z) : nat :=
  Z.to_nat (if (i <? 0)%Z then i + Z.of_nat (width rows) else i)%Z.

(** The column read at the index [i]: sample by sample, the field at
    that place of every row. *)
Definition column_read (rows : list (list string)) (i : Z) : list (list string) :=
  map (map (fun r => nth (position rows i) r EmptyString)) (blocks rows).

(** ** Datasets that survive a round trip *)

(** The column spec that reads back what [write_conll] wrote:
    [{colnames[k]: k for k in range(len(colnames))}]. *)
Definition column_spec (colnames : list string) : list (string * Z) :=
  map (fun k => (nth k colnames EmptyString, Z.of_nat k)) (seq 0 (List.length colnames)).

(** A token that the format can carry: no delimiter, no line break,
    within the field size limit. *)
Definition plain_token (d : ascii) (t : string) : bool :=
  negb (mem_char d t) && negb (mem_char LF t) && negb (mem_char CR t)
  && (N.of_nat (String.length t) <=? field_size_limit)%N.

(** The tokens of all columns at sample [i], token [j]. *)
Definition token_row (data : Dataset) (i j : nat) : list string :=
  map (fun c : string * list (list string) => nth j (nth i (snd c) []) EmptyString) data.

(** What [write_conll] writes for a list of blocks of rows. *)
Definition render (d : ascii) (bl : list (list (list string))) : string :=
  String.concat EmptyString
    (map (fun b => (String.concat EmptyString
                      (map (fun row => String.concat (String d EmptyString) row ++ NL) b)
                    ++ NL)%string)
         bl).

(** A row that can be written and read back: plain tokens, not all of
    them white space. *)
Definition good_row (d : ascii) (row : list string) : Prop :=
  Forall (fun f => plain_token d f = true) row /\ is_empty_line row = false.

(** The rows of a file as [write_conll] lays them out: every block
    followed by one empty row. *)
Definition rows_of_blocks (bl : list (list (list string))) : list (list string) :=
  List.concat (map (fun b => b ++ [[]]) bl).

(** The blocks of rows of a dataset whose samples have the token counts
    [shape]. *)
Definition blocks_of (data : Dataset) (shape : list nat) : list (list (list string)) :=
  map (fun i => map (token_row data i) (seq 0 (nth i shape 0)))
      (seq 0 (List.length shape)).

(** ** What [step] stores *)

(** The nested lists are those of a tensor with [size2] classes: every
    token has that many scores. *)
Definition is_tensor (scores : tensor3) : Prop :=
  Forall (Forall (fun row : list Q => List.length row = size2 scores))
         (tolist scores).

(** The token positions that a mask row selects, in order. *)
Definition masked_positions (m : list Z) : list nat :=
  filter (fun j => (nth j m 0 =? 1)%Z) (seq 0 (List.length m)).

(** [v] is the largest score of [row] and [k] the first index that holds
    it. *)
Definition is_argmax (row : list Q) (k : Z) (v : Q) : Prop :=
  (0 <= k)%Z
  /\ nth_error row (Z.to_nat k) = Some v
  /\ Forall (fun x => (x <= v)%Q) row
  /\ forall k' x, k' < Z.to_nat k -> nth_error row k' = Some x -> (x < v)%Q.

(** The value and index that [max_dim2] yields for one class vector. *)
Definition max_of (row : list Q) : Q * Z :=
  match row with
  | [] => (0%Q, 0%Z)
  | x :: r => row_max_from x 0%Z 1%Z r
  end.

(** ** Reports *)

(** The support of class [c] in the report (0 when it has none). *)
Definition support_of (report : Report) (c : string) : Q :=
  match (r <- lookup (items report) c ;; lookup r "support") with
  | Ok s => s
  | Raise _ => 0%Q
  end.

(** The classes of the report that are not aggregate rows, in the order
    of the report. *)
Definition class_keys (report : Report) : list string :=
  filter (fun k => negb (is_aggregate k)) (map fst (items report)).

(** ** flatten *)

(** [[elem for elems in nested_elems for elem in elems]]. *)
Definition flatten (nested_elems : list pyval) : result (list pyval) :=
  elems <- mapM iterate nested_elems ;;
  Ok (List.concat elems).

(** ** What the accumulator holds *)

(** The current storage shape of ids: one list per sample. *)
Definition nested_ids (zss : list (list Z)) : list pyval :=
  map (fun s => PList (map PInt s)) zss.

(** One recorded sample: confidences, predicted ids, gold ids. *)
Definition sample_entry : Type := list Q * list Z * list Z.

(** The three per-sample collections hold the samples [entries], in
    order, and the three sequences of every sample are equally long. *)
Definition holds_samples (self : EpochStats) (entries : list sample_entry) : Prop :=
  probs self = map (fun e : sample_entry => fst (fst e)) entries
  /\ preds self = nested_ids (map (fun e : sample_entry => snd (fst e)) entries)
  /\ golds self = nested_ids (map (fun e : sample_entry => snd e) entries)
  /\ Forall (fun e : sample_entry =>
               List.length (fst (fst e)) = List.length (snd (fst e))
               /\ List.length (snd (fst e)) = List.length (snd e))
            entries.

(** What [step] appends for sample [i]: at the positions that the mask
    selects, the largest score, the first index that holds it, and the
    gold id. *)
Definition masked_sample (scores : tensor3) (target mask : list (list Z)) (i : nat)
    : sample_entry :=
  let positions := masked_positions (nth i mask []) in
  (map (fun j => fst (max_of (nth j (nth i (tolist scores) []) []))) positions,
   map (fun j => snd (max_of (nth j (nth i (tolist scores) []) []))) positions,
   map (fun j => nth j (nth i target []) 0%Z) positions).

(** The exception that [index2label[k]] raises on an int [k] without
    label. *)
Definition label_error (index2label : label_map) : exn :=
  match index2label with
  | LabelList _ => IndexError
  | LabelDict _ => KeyError
  end.

(** A token of [n] times the character [c]; one character more than
    the field size limit of the csv module allows. *)
Fixpoint repeat_char (c : ascii) (n : nat) : string :=
  match n with
  | 0 => EmptyString
  | S n' => String c (repeat_char c n')
  end.

Definition long_token : string := repeat_char "a" (N.to_nat (field_size_limit + 1)).

(** ** What write_conll lays out *)

(** The text of a call that the file system lets through: what
    [write_conll] does apart from [os.makedirs] and [open]. *)
Definition conll_text (data : Dataset) (colnames : option (list string))
    (delimiter : string) : result string :=
  let colnames :=
    match colnames with
    | None => map fst data
    | Some cs => cs
    end in
  any_key <- getitem colnames 0%Z ;;
  write_rows data colnames any_key delimiter.

(** The file system lets a file of this name be written: its directory
    can be made and the file opened. *)
Definition writable (fs : file_system) (filename : string) : Prop :=
  makedirs fs (dirname fs filename) = Ok tt /\ open_w fs filename = Ok tt.

(** [posixpath.dirname]: what precedes the last slash, without the
    slashes at its end unless it holds nothing else. *)
Fixpoint path_head (p : string) : string :=
  match p with
  | EmptyString => EmptyString
  | String c r => if mem_char "/" p then String c (path_head r) else EmptyString
  end.

Fixpoint rstrip_sep (s : string) : string :=
  match s with
  | EmptyString => EmptyString
  | String c r =>
      match rstrip_sep r with
      | EmptyString => if Ascii.eqb c "/" then EmptyString else String c EmptyString
      | String _ _ as r' => String c r'
      end
  end.

Definition posix_dirname (p : string) : string :=
  let head := path_head p in
  match rstrip_sep head with
  | EmptyString => head
  | String _ _ as stripped => stripped
  end.

(** A POSIX file system for running [write_conll] on examples: every
    directory can be made and every file opened, and [os.makedirs] of
    the empty name raises [FileNotFoundError] as it does everywhere. *)
Definition posix : file_system :=
  {| dirname := posix_dirname;
     makedirs := fun name =>
       if String.eqb name EmptyString then Raise FileNotFoundError else Ok tt;
     open_w := fun _ => Ok tt |}.


(** The token counts of the samples of the first column,
    [len(data[any_key][sample_i])] for every [sample_i]: the two loops
    of [write_conll] run over them. *)
Definition first_shape (data : Dataset) : list nat :=
  match data with
  | [] => []
  | c :: _ => map (@List.length string) (snd c)
  end.

(** A column that has every sample and every token position of
    [shape]. *)
Definition covers_shape (shape : list nat) (col : list (list string)) : Prop :=
  forall i j, i < List.length shape -> j < nth i shape 0 ->
    i < List.length col /\ j < List.length (nth i col []).

(** The body of the outer loop of [write_conll] for one sample, when
    [colnames] are the keys of [data]. *)
Definition write_sample (data : Dataset) (delimiter : string)
    (first : list (list string)) (sample_i : nat) : result string :=
  sample <- getitem first (Z.of_nat sample_i) ;;
  rows <-
    mapM (fun token_i : nat =>
            row <-
              mapM (fun col : string =>
                      column <- lookup data col ;;
                      smp <- getitem column (Z.of_nat sample_i) ;;
                      getitem smp (Z.of_nat token_i))
                   (map fst data) ;;
            Ok (String.concat delimiter row ++ NL)%string)
         (seq 0 (List.length sample)) ;;
  Ok (String.concat EmptyString rows ++ NL)%string.

(** The text with one line per token position of the first column. *)
Definition written (delimiter : string) (data : Dataset) : string :=
  String.concat EmptyString
    (map (fun i =>
            (String.concat EmptyString
               (map (fun j => (String.concat delimiter (token_row data i j) ++ NL)%string)
                    (seq 0 (nth i (first_shape data) 0)))
             ++ NL)%string)
         (seq 0 (List.length (first_shape data)))).

(** A column without the samples and tokens beyond [shape]. *)
Definition cut_to (shape : list nat) (col : list (list string)) : list (list string) :=
  map (fun i => firstn (nth i shape 0) (nth i col [])) (seq 0 (List.length shape)).

Definition cut (data : Dataset) : Dataset :=
  map (fun c : string * list (list string) =>
         (fst c, cut_to (first_shape data) (snd c)))
      data.

(** ** read_conll_corpus *)

(** What a call that opens files ends with: a value, an exception of the
    code that reads them, or the [FileNotFoundError] that [open] raises
    for a path that names no file. *)
Inductive outcome (A : Type) : Type :=
  | Returns (a : A)
  | Raises (e : exn)
  | NotFound (path : string).

Arguments Returns {A} a.
Arguments Raises {A} e.
Arguments NotFound {A} path.

(** [d[k] = v] on a dict: the value of a key that is present is replaced
    in place, a new key goes last. *)
Fixpoint assign {V : Type} (d : list (string * V)) (k : string) (v : V)
    : list (string * V) :=
  match d with
  | [] => [(k, v)]
  | (k', v') :: r =>
      if String.eqb k' k then (k', v) :: r else (k', v') :: assign r k v
  end.

Section OsPath.

(** [os.path.splitext] and [os.path.join] depend on the platform and are
    left open; [fs] gives the text of the file at a path, if there is
    one. *)
Variable splitext : string -> string * string.
Variable join : string -> string -> string.
Variable fs : string -> option string.

(** The loop of [read_conll_corpus], from the dict built so far. *)
Fixpoint read_conll_files (corpus : list (string * Dataset)) (corpus_dir : string)
    (filenames : list string) (columns : list (string * Z)) (delimiter : string)
    : outcome (list (string * Dataset)) :=
  match filenames with
  | [] => Returns corpus
  | datafile :: rest =>
      let dataset := fst (splitext datafile) in
      let datafile := join corpus_dir datafile in
      match fs datafile with
      | None => NotFound datafile
      | Some text =>
          match read_conll text columns delimiter with
          | Ok ds =>
              read_conll_files (assign corpus dataset ds) corpus_dir rest
                columns delimiter
          | Raise e => Raises e
          end
      end
  end.

Definition read_conll_corpus (corpus_dir : string) (filenames : list string)
    (columns : list (string * Z)) (delimiter : string)
    : outcome (list (string * Dataset)) :=
  read_conll_files [] corpus_dir filenames columns delimiter.

(** The file exists and [read_conll] returns on it. *)
Definition readable (corpus_dir : string) (columns : list (string * Z))
    (delimiter : string) (datafile : string) : Prop :=
  exists text ds,
    fs (join corpus_dir datafile) = Some text
    /\ read_conll text columns delimiter = Ok ds.

End OsPath.

(** [posixpath.splitext] and [posixpath.join], for running
    [read_conll_corpus] on examples.  The extension starts at the last
    dot of the last path component, unless only dots come before it
    there. *)
Fixpoint split_last_dot (rev_p ext : list ascii) : option (list ascii * list ascii) :=
  match rev_p with
  | [] => None
  | c :: r =>
      if Ascii.eqb c "." then Some (r, c :: ext)
      else if Ascii.eqb c "/" then None
      else split_last_dot r (c :: ext)
  end.

Fixpoint has_name (rev_root : list ascii) : bool :=
  match rev_root with
  | [] => false
  | c :: r =>
      if Ascii.eqb c "/" then false
      else if Ascii.eqb c "." then has_name r
      else true
  end.

Definition posix_splitext (p : string) : string * string :=
  match split_last_dot (rev (list_ascii_of_string p)) [] with
  | Some (rev_root, ext) =>
      if has_name rev_root
      then (string_of_list_ascii (rev rev_root), string_of_list_ascii ext)
      else (p, EmptyString)
  | None => (p, EmptyString)
  end.

Definition posix_join (a b : string) : string :=
  if String.prefix "/" b then b
  else
    match rev (list_ascii_of_string a) with
    | [] => b
    | c :: _ => if Ascii.eqb c "/" then (a ++ b)%string else (a ++ "/" ++ b)%string
    end.

(** ** Arguments *)

(** A value that [json.loads] builds or [from_nested_dict] returns.
    [JDict true] is an [Arguments], [JDict false] a plain dict; the keys
    of a dict are strings, each at most once. *)
#[warnings="-register-all"]
Inductive jvalue : Type :=
  | JNull
  | JBool (b : bool)
  | JInt (z : Z)
  | JFloat (q : Q)
  | JStr (s : string)
  | JList (l : list jvalue)
  | JDict (arguments : bool) (items : list (string * jvalue)).

(** [Arguments({key: Arguments.from_nested_dict(data[key]) for key in data})]
    for a dict, [data] itself for anything else. *)
Fixpoint from_nested_dict (data : jvalue) : jvalue :=
  match data with
  | JDict _ items =>
      JDict true (map (fun kv : string * jvalue =>
                         let (key, v) := kv in (key, from_nested_dict v))
                      items)
  | _ => data
  end.

(** One subscript: [v[k]] with a string or [v[i]] with an int. *)
Inductive jstep : Type :=
  | Key (k : string)
  | Index (i : Z).

(** [v[s]]: a dict is looked up (an int is no key of it), a list and a
    string take int positions, nothing else can be subscripted. *)
Definition subscript (v : jvalue) (s : jstep) : result jvalue :=
  match v, s with
  | JDict _ items, Key k => lookup items k
  | JDict _ _, Index _ => Raise KeyError
  | JList l, Index i => getitem l i
  | JStr t, Index i =>
      c <- getitem (list_ascii_of_string t) i ;;
      Ok (JStr (String c EmptyString))
  | _, _ => Raise TypeError
  end.

(** [v[s1][s2]...]. *)
Fixpoint get_path (v : jvalue) (path : list jstep) : result jvalue :=
  match path with
  | [] => Ok v
  | s :: rest => x <- subscript v s ;; get_path x rest
  end.

(** The value without the distinction between [Arguments] and plain
    dicts, which [==] does not see. *)
Fixpoint plain (v : jvalue) : jvalue :=
  match v with
  | JList l => JList (map plain l)
  | JDict _ items =>
      JDict false (map (fun kv : string * jvalue =>
                          let (key, x) := kv in (key, plain x))
                       items)
  | _ => v
  end.

(** Every dict that is reached from [v] through dict values is an
    [Arguments]. *)
Fixpoint attribute_tree (v : jvalue) : bool :=
  match v with
  | JDict a items =>
      a && forallb (fun kv : string * jvalue => let (_, x) := kv in attribute_tree x)
                   items
  | _ => true
  end.

(** ** The comments of a config file (load_args) *)

(** Iterating a text file: its lines, each with its line feed; a last
    line without line feed counts when it is not empty. *)
Fixpoint file_lines (s : string) : list string :=
  match s with
  | EmptyString => []
  | String c r =>
      if Ascii.eqb c LF then String c EmptyString :: file_lines r
      else match file_lines r with
           | l :: ls => String c l :: ls
           | [] => [String c EmptyString]
           end
  end.

(** [re.sub(r"//.*$", "", s, flags=re.M)]: a match starts at two
    slashes and, as [.] matches anything but a line feed and [$] holds
    before a line feed and at the end, runs to the end of the line;
    [skipping] says that the scan is inside a match. *)
Fixpoint re_sub_comment (skipping : bool) (s : string) : string :=
  match s with
  | EmptyString => EmptyString
  | String c r =>
      if skipping then
        if Ascii.eqb c LF then String c (re_sub_comment false r)
        else re_sub_comment true r
      else
        match r with
        | String c' r' =>
            if Ascii.eqb c "/" && Ascii.eqb c' "/" then re_sub_comment true r'
            else String c (re_sub_comment false r)
        | EmptyString => String c EmptyString
        end
  end.

(** [''.join([re.sub(r"//.*$", "", line, flags=re.M) for line in f])]
    for the file with content [text]. *)
Definition strip_comments (text : string) : string :=
  String.concat EmptyString
    (map (re_sub_comment false) (file_lines (universal_newlines text))).

(** Two slashes in a row occur in [s]. *)
Fixpoint has_comment (s : string) : bool :=
  match s with
  | EmptyString => false
  | String c r =>
      match r with
      | String c' _ => (Ascii.eqb c "/" && Ascii.eqb c' "/") || has_comment r
      | EmptyString => false
      end
  end.

Fixpoint count_char (c : ascii) (s : string) : nat :=
  match s with
  | EmptyString => 0
  | String c' r => (if Ascii.eqb c' c then 1 else 0) + count_char c r
  end.

(** ** report2dict *)

(** [row.split("  ")]: the pieces between occurrences of two spaces,
    found from left to right without overlap. *)
Fixpoint split_two_spaces (s : string) : list string :=
  match s with
  | EmptyString => [EmptyString]
  | String c r =>
      match r with
      | String c' r' =>
          if Ascii.eqb c " " && Ascii.eqb c' " "
          then EmptyString :: split_two_spaces r'
          else match split_two_spaces r with
               | f :: fs => String c f :: fs
               | [] => [String c EmptyString]
               end
      | EmptyString => [String c EmptyString]
      end
  end.

(** [[x.strip() for x in row.split("  ") if len(x) > 0]]. *)
Definition parse_row (row : string) : list string :=
  map strip
      (filter (fun x => negb (String.length x =? 0)) (split_two_spaces row)).

(** [tmp]: the parsed rows of [cr] that hold a cell. *)
Definition parsed_rows (cr : string) : list (list string) :=
  filter (fun parsed_row => negb (List.length parsed_row =? 0))
         (map parse_row (split_on LF cr)).

(** [D[class_label][m] = v] on a [defaultdict(dict)]. *)
Definition set_measure (D : list (string * list (string * Q)))
    (class_label m : string) (v : Q) : list (string * list (string * Q)) :=
  let entry :=
    match lookup D class_label with
    | Ok e => e
    | Raise _ => []
    end in
  assign D class_label (assign entry m v).

Section Float.

(** [float] on a string; what it parses is left open, and its values
    are taken as rationals like the other floats. *)
Variable float : string -> result Q.

(** The loop over [enumerate(measures)], from position [j]. *)
Fixpoint measures_loop (row : list string) (class_label : string) (j : nat)
    (measures : list string) (D : list (string * list (string * Q)))
    : result (list (string * list (string * Q))) :=
  match measures with
  | [] => Ok D
  | m :: rest =>
      cell <- getitem row (Z.of_nat (j + 1)) ;;
      v <- float (strip cell) ;;
      measures_loop row class_label (S j) rest
        (set_measure D class_label (strip m) v)
  end.

(** The loop over [tmp[1:]]. *)
Fixpoint rows_loop (rows : list (list string)) (measures : list string)
    (D : list (string * list (string * Q)))
    : result (list (string * list (string * Q))) :=
  match rows with
  | [] => Ok D
  | row :: rest =>
      class_label <- getitem row 0%Z ;;
      D' <- measures_loop row class_label 0 measures D ;;
      rows_loop rest measures D'
  end.

Definition report2dict (cr : string) : result Report :=
  let tmp := parsed_rows cr in
  measures <- getitem tmp 0%Z ;;
  D_class_data <- rows_loop (tl tmp) measures [] ;;
  Ok {| items := D_class_data; default_factory := true |}.

(** The cell that position [j] of the header reads in [row] is there
    and [float] takes it. *)
Definition cell_parses (row : list string) (j : nat) : Prop :=
  S j < List.length row
  /\ exists v, float (strip (nth (S j) row EmptyString)) = Ok v.

End Float.

(** ** Sanity checks of the embedding on small inputs *)

Definition TAB : string := String "009"%char EmptyString.

Definition demo_text : string :=
  String.concat EmptyString ["a"; TAB; "O"; NL; "b"; TAB; "B"; NL; NL; "c"; TAB; "O"; NL; NL].

Definition demo_data : Dataset :=
  [("tok", [["a"; "b"]; ["c"]]); ("tag", [["O"; "B"]; ["O"]])].

(** A corpus directory with two files of the same stem. *)
Definition demo_fs (path : string) : option string :=
  if String.eqb path "corpus/train.txt" then Some demo_text
  else if String.eqb path "corpus/train.conll"
       then Some ("x" ++ TAB ++ "O" ++ NL)%string
  else if String.eqb path "corpus/dev.txt"
       then Some ("y" ++ TAB ++ "B" ++ NL)%string
  else None.

(** A config line whose string value holds two slashes. *)
Definition QUOTE : string := String "034"%char EmptyString.

Definition demo_config_line : string :=
  String.concat EmptyString
    ["{"; QUOTE; "url"; QUOTE; ": "; QUOTE; "http://x.org"; QUOTE; "}"].

(** A printed report, and a [float] for the numbers in it. *)
Definition demo_report : string :=
  String.concat NL
    ["           precision    recall  f1-score   support";
     EmptyString;
     "      PER       0.50      1.00      0.67         2";
     EmptyString;
     "micro avg       0.50      1.00      0.67         2";
     EmptyString].

Definition demo_float (s : string) : result Q :=
  if String.eqb s "0.50" then Ok (1 # 2)
  else if String.eqb s "1.00" then Ok 1%Q
  else if String.eqb s "0.67" then Ok (67 # 100)
  else if String.eqb s "2" then Ok 2%Q
  else Raise ValueError.

Example write_conll_demo :
  write_conll posix "corpus/demo.conll" demo_data None TAB = Ok demo_text.
Proof. reflexivity. Qed.

Example read_conll_demo :
  read_conll demo_text [("tok", 0%Z); ("tag", 1%Z)] TAB = Ok demo_data.
Proof. reflexivity. Qed.

(** * Properties *)

(** ** The accumulator's loss summary *)

Section LossSummary.

Local Open Scope Q_scope.

Lemma run_snoc h c : run (h ++ [c]) = run_call (run h) c.
Proof. unfold run. now rewrite fold_left_app. Qed.

Lemma step_records_batch scores target mask l n d self :
  let self' := fst (step scores target mask l n d self) in
  sizes self' = sizes self ++ [Z.of_nat (List.length (tolist scores))]
  /\ losses self' = losses self ++ [l]
  /\ ner_losses self' = ner_losses self ++ [n]
  /\ dep_losses self' = dep_losses self ++ [d].
Proof.
  unfold step.
  set (s0 := loss_step l n d (Z.of_nat (List.length (tolist scores))) self).
  assert (Hloop : forall probs classes range s,
             let s' := fst (step_loop probs classes target mask range s) in
             sizes s' = sizes s /\ losses s' = losses s
             /\ ner_losses s' = ner_losses s /\ dep_losses s' = dep_losses s).
  { intros probs classes range. induction range as [|i range IH]; intros s; simpl.
    - auto.
    - destruct (select_sample probs mask i) as [prob_i|]; simpl; auto.
      destruct (select_sample classes mask i) as [pred_i|]; simpl; auto.
      destruct (select_sample target mask i) as [gold_i|]; simpl; auto.
      apply (IH (append_sample prob_i pred_i gold_i s)). }
  destruct (max_dim2 scores) as [[probs classes]|e]; simpl.
  - destruct (Hloop probs classes (seq 0 (List.length (tolist scores))) s0)
      as (-> & -> & -> & ->).
    subst s0; simpl; auto.
  - subst s0; simpl; auto.
Qed.

Lemma run_lists h :
  sizes (run h) = map call_size h
  /\ losses (run h) = map call_loss h
  /\ ner_losses (run h) = map call_ner_loss h
  /\ dep_losses (run h) = map call_dep_loss h.
Proof.
  induction h as [|c h IH] using rev_ind.
  - repeat split.
  - rewrite run_snoc, !map_app. destruct IH as (Hs & Hl & Hn & Hd).
    destruct c as [l n d s|scores target mask l n d]; simpl.
    + now rewrite Hs, Hl, Hn, Hd.
    + destruct (step_records_batch scores target mask l n d (run h)) as (-> & -> & -> & ->).
      now rewrite Hs, Hl, Hn, Hd.
Qed.

Lemma np_min_fold r : forall x,
  let m := fold_left (fun a b => if Qle_bool a b then a else b) r x in
  (m = x \/ In m r) /\ m <= x /\ Forall (fun y => m <= y) r.
Proof.
  induction r as [|y r IH]; intros x; cbn zeta; simpl.
  - repeat split; auto. apply Qle_refl.
  - destruct (Qle_bool x y) eqn:E.
    + apply Qle_bool_iff in E. destruct (IH x) as (Hin & Hle & Hall).
      split; [tauto|]. split; [assumption|].
      constructor; auto. eapply Qle_trans; eauto.
    + assert (Hyx : y <= x).
      { destruct (Qlt_le_dec y x) as [H|H]; [now apply Qlt_le_weak|].
        apply Qle_bool_iff in H. congruence. }
      destruct (IH y) as (Hin & Hle & Hall).
      split; [intuition auto|]. split; [eapply Qle_trans; eauto|].
      constructor; auto.
Qed.

Lemma np_max_fold r : forall x,
  let m := fold_left (fun a b => if Qle_bool b a then a else b) r x in
  (m = x \/ In m r) /\ x <= m /\ Forall (fun y => y <= m) r.
Proof.
  induction r as [|y r IH]; intros x; cbn zeta; simpl.
  - repeat split; auto. apply Qle_refl.
  - destruct (Qle_bool y x) eqn:E.
    + apply Qle_bool_iff in E. destruct (IH x) as (Hin & Hle & Hall).
      split; [tauto|]. split; [assumption|].
      constructor; auto. eapply Qle_trans; eauto.
    + assert (Hyx : x <= y).
      { destruct (Qlt_le_dec x y) as [H|H]; [now apply Qlt_le_weak|].
        apply Qle_bool_iff in H. congruence. }
      destruct (IH y) as (Hin & Hle & Hall).
      split; [intuition auto|]. split; [eapply Qle_trans; eauto|].
      constructor; auto.
Qed.

Lemma np_min_spec l : l <> [] -> exists lo, np_min l = Ok lo /\ is_minimum lo l.
Proof.
  destruct l as [|x r]; [congruence|intros _].
  destruct (np_min_fold r x) as (Hin & Hle & Hall).
  eexists; split; [reflexivity|]. split.
  - simpl. destruct Hin; auto.
  - constructor; auto.
Qed.

Lemma np_max_spec l : l <> [] -> exists hi, np_max l = Ok hi /\ is_maximum hi l.
Proof.
  destruct l as [|x r]; [congruence|intros _].
  destruct (np_max_fold r x) as (Hin & Hle & Hall).
  eexists; split; [reflexivity|]. split.
  - simpl. destruct Hin; auto.
  - constructor; auto.
Qed.

Lemma Qsum_app l l' : Qsum (l ++ l') == Qsum l + Qsum l'.
Proof.
  induction l as [|x l IH]; simpl.
  - now rewrite Qplus_0_l.
  - rewrite IH. apply Qplus_assoc.
Qed.

Lemma Qsum_repeat x n : Qsum (repeat x n) == x * inject_Z (Z.of_nat n).
Proof.
  induction n as [|n IH].
  - simpl. now rewrite Qmult_0_r.
  - cbn [repeat Qsum fold_right]. fold (Qsum (repeat x n)). rewrite IH.
    rewrite Nat2Z.inj_succ. unfold Z.succ. rewrite inject_Z_plus. ring.
Qed.

(** Repeating every loss by its batch size: the sum is the weighted sum
    and the length is the total size, for sizes that are not negative. *)
Lemma repeat_by_size_sum ls : forall ss,
  List.length ls = List.length ss ->
  Forall (fun s => (0 <= s)%Z) ss ->
  Qsum (repeat_by_size ls ss)
    == Qsum (map (fun p : Q * Z => fst p * inject_Z (snd p)) (combine ls ss))
  /\ Z.of_nat (List.length (repeat_by_size ls ss)) = fold_right Z.add 0%Z ss.
Proof.
  unfold repeat_by_size.
  induction ls as [|l ls IH]; intros [|s ss] Hlen Hpos; simpl in *; try discriminate.
  - split; reflexivity.
  - inversion Hpos as [|? ? Hs Hss]; subst.
    destruct (IH ss) as [IH1 IH2]; [lia|assumption|].
    split.
    + rewrite Qsum_app, Qsum_repeat, IH1, Z2Nat.id by assumption. reflexivity.
    + rewrite length_app, repeat_length, Nat2Z.inj_add, IH2, Z2Nat.id by assumption.
      reflexivity.
Qed.

Lemma mean_weighted ls ss :
  List.length ls = List.length ss ->
  Forall (fun s => (0 <= s)%Z) ss ->
  (0 < fold_right Z.add 0 ss)%Z ->
  exists q, np_mean (repeat_by_size ls ss) = Num q /\ q == weighted_mean ls ss.
Proof.
  intros Hlen Hpos Htotal.
  destruct (repeat_by_size_sum ls ss Hlen Hpos) as [Hsum Htot].
  destruct (repeat_by_size ls ss) as [|x r] eqn:E.
  - simpl in Htot. lia.
  - eexists. split; [reflexivity|].
    unfold weighted_mean. rewrite Hsum, Htot. reflexivity.
Qed.

Lemma loss_summarises st kind ls :
  ls = (if String.eqb kind "ner" then ner_losses st
        else if String.eqb kind "dep" then dep_losses st
        else losses st) ->
  ls <> [] ->
  List.length ls = List.length (sizes st) ->
  summarises (loss st kind) ls (sizes st).
Proof.
  intros Hsel Hne Hlen.
  destruct (np_min_spec ls Hne) as (lo & Hlo & Hmin).
  destruct (np_max_spec ls Hne) as (hi & Hhi & Hmax).
  exists (np_mean (repeat_by_size ls (sizes st))), lo, hi.
  split; [|split; [|split; [|split]]]; try assumption.
  - unfold loss. rewrite <- Hsel, Hlo, Hhi. reflexivity.
  - unfold repeat_by_size. now rewrite flat_map_concat_map.
  - intros Hpos Htotal. now apply mean_weighted.
Qed.

(** The summary of a history, for the list of losses that the kind
    selects. *)
Lemma loss_run_summarises (h : list call) (kind : string) (f : call -> Q) :
  h <> [] ->
  (if String.eqb kind "ner" then ner_losses (run h)
   else if String.eqb kind "dep" then dep_losses (run h)
   else losses (run h)) = map f h ->
  summarises (loss (run h) kind) (map f h) (map call_size h).
Proof.
  intros Hne Hsel.
  destruct (run_lists h) as (Hs & _).
  rewrite <- Hs. apply loss_summarises.
  - now rewrite Hsel.
  - intros E. apply map_eq_nil in E. contradiction.
  - now rewrite Hs, !length_map.
Qed.




(** C4 (amended).  On every history with at least one recorded batch,
    none of whose recorded sizes is negative and at least one of which is
    positive, [loss] returns the mean of the combined losses weighted by
    the batch sizes, which is the mean of the list that repeats each loss
    batch-size times, with the minimum and the maximum of the per-batch
    losses themselves; batches of sizes 2 and 3 with losses 1.0 and 2.0
    give (1.6, 1.0, 2.0). *)
Theorem loss_weighted_mean_plain_extrema :
  (forall h : list call,
     h <> [] ->
     Forall (fun c => (0 <= call_size c)%Z) h ->
     (0 < fold_right Z.add 0%Z (map call_size h))%Z ->
     exists m lo hi,
       loss (run h) EmptyString = Ok (Num m, lo, hi)
       /\ m == weighted_mean (map call_loss h) (map call_size h)
       /\ np_mean (List.concat
                     (map (fun p : Q * Z => repeat (fst p) (Z.to_nat (snd p)))
                          (combine (map call_loss h) (map call_size h))))
          = Num m
       /\ is_minimum lo (map call_loss h)
       /\ is_maximum hi (map call_loss h))
  /\ (forall n1 d1 n2 d2 : Q,
        exists m,
          loss (run [LossStep 1.0 n1 d1 2; LossStep 2.0 n2 d2 3]) EmptyString = Ok (Num m, 1.0, 2.0)
          /\ m == 1.6).
Proof.
  split.
  - intros h Hne Hpos Htotal.
    destruct (loss_run_summarises h EmptyString call_loss Hne)
      as (m & lo & hi & Hr & Hm & Hw & Hmin & Hmax).
    { now destruct (run_lists h) as (_ & Hl & _). }
    destruct Hw as (q & -> & Hq); [now apply Forall_map|assumption|].
    exists q, lo, hi.
    split; [assumption|]. split; [assumption|]. split; [now symmetry|].
    now split.
  - intros n1 d1 n2 d2. eexists. split; reflexivity.
Qed.

Lemma loss_weighted_mean_plain_extrema_witness :
  let h := [LossStep 1.0 0.5 0.5 2; LossStep 2.0 1.5 0.5 3] in
  exists m lo hi,
    loss (run h) EmptyString = Ok (Num m, lo, hi)
    /\ m == weighted_mean (map call_loss h) (map call_size h)
    /\ np_mean (List.concat
                  (map (fun p : Q * Z => repeat (fst p) (Z.to_nat (snd p)))
                       (combine (map call_loss h) (map call_size h))))
       = Num m
    /\ is_minimum lo (map call_loss h)
    /\ is_maximum hi (map call_loss h).
Proof.
  intros h.
  apply (proj1 loss_weighted_mean_plain_extrema h).
  - discriminate.
  - repeat constructor; discriminate.
  - reflexivity.
Defined.

(** C4, as stated, fails on histories whose sizes are no weights.  With
    a single batch of size 0, recorded by [loss_step] or by a [step] on
    an empty batch, the first component is NaN, not a mean; with the
    sizes 3 and -1 and the losses 1 and 2 it is 1, the mean of the list
    that repeats the first loss three times, while the mean weighted by
    the sizes is 1/2. *)
Lemma loss_zero_weight_counterexample :
  loss (run [LossStep 1 1 1 0]) EmptyString = Ok (NaN, 1, 1)
  /\ loss (run [Step (tensor 2 []) [] [] 1 1 1]) EmptyString = Ok (NaN, 1, 1)
  /\ (let h := [LossStep 1 1 1 3; LossStep 2 2 2 (-1)] in
      exists m,
        loss (run h) EmptyString = Ok (Num m, 1, 2)
        /\ m == 1
        /\ weighted_mean (map call_loss h) (map call_size h) == 1 # 2
        /\ ~ m == weighted_mean (map call_loss h) (map call_size h)).
Proof.
  split; [reflexivity|]. split; [reflexivity|].
  cbv zeta. eexists. split; [reflexivity|].
  split; [reflexivity|]. split; [reflexivity|]. discriminate.
Qed.

(** C5.  Without any recorded batch, [loss] raises (the [ValueError] of
    [np.min] on an empty list), whatever the kind: no value is returned. *)
Theorem loss_without_batches_raises (kind : string) :
  loss (run []) kind = Raise ValueError.
Proof.
  unfold loss, run. simpl.
  destruct (String.eqb kind "ner"); [reflexivity|].
  destruct (String.eqb kind "dep"); reflexivity.
Qed.

End LossSummary.

(** ** Empty lines and blocks *)

Section Blocks.

Lemma lstrip_empty s : lstrip s = EmptyString <-> all_space s = true.
Proof.
  induction s as [|c s IH]; simpl.
  - split; reflexivity.
  - destruct (isspace c); simpl; [exact IH|]. split; discriminate.
Qed.

Lemma rstrip_empty s : rstrip s = EmptyString <-> all_space s = true.
Proof.
  induction s as [|c s IH]; simpl.
  - split; reflexivity.
  - destruct (rstrip s) as [|c' r'].
    + destruct (isspace c); simpl; [|split; discriminate].
      split; intros _; [now apply IH|reflexivity].
    + split; [discriminate|]. intros H. apply andb_true_iff in H as [_ H].
      apply IH in H. discriminate.
Qed.

Lemma lstrip_head s c r : lstrip s = String c r -> isspace c = false.
Proof.
  induction s as [|c0 s IH]; simpl; [discriminate|].
  destruct (isspace c0) eqn:E; [exact IH|].
  intros H. injection H as -> _. exact E.
Qed.

(** [s.strip() == ''] says that [s] holds white space only. *)
Lemma strip_empty s : strip s = EmptyString <-> all_space s = true.
Proof.
  unfold strip. split; intros H.
  - apply lstrip_empty. destruct (lstrip s) as [|c r] eqn:E; [reflexivity|].
    apply rstrip_empty in H. simpl in H.
    rewrite (lstrip_head s c r E) in H. discriminate.
  - apply lstrip_empty in H. rewrite H. reflexivity.
Qed.

Lemma is_empty_line_Forall row :
  is_empty_line row = true <-> Forall (fun f => strip f = EmptyString) row.
Proof.
  unfold is_empty_line. rewrite forallb_forall, Forall_forall.
  split; intros H f Hf.
  - now apply String.eqb_eq, H.
  - now apply String.eqb_eq, H.
Qed.

Lemma csv_row_fields d line row :
  csv_row d line = Ok row ->
  row = match line with
           | EmptyString => []
           | String _ _ => split_on d line
           end
  /\ Forall (fun f => (N.of_nat (String.length f) <= field_size_limit)%N) row.
Proof.
  unfold csv_row.
  match goal with |- context [forallb ?f ?l] => destruct (forallb f l) eqn:E end;
    [|discriminate].
  intros H. injection H as <-. split; [reflexivity|].
  rewrite forallb_forall in E. apply Forall_forall. intros f Hf.
  now apply N.leb_le, E.
Qed.

Lemma split_on_chars d s : forall f c,
  In f (split_on d s) -> mem_char c f = true -> mem_char c s = true /\ c <> d.
Proof.
  induction s as [|c0 s IH]; intros f c Hf Hc; simpl in *.
  - destruct Hf as [<-|[]]. discriminate.
  - destruct (Ascii.eqb c0 d) eqn:E.
    + destruct Hf as [<-|Hf]; [discriminate|].
      destruct (IH f c Hf Hc) as [H1 H2]. rewrite H1. now rewrite orb_true_r.
    + destruct (split_on d s) as [|f0 fs] eqn:Es.
      * destruct Hf as [<-|[]]. simpl in Hc. rewrite orb_false_r in Hc.
        rewrite Hc. split; [reflexivity|].
        apply Ascii.eqb_eq in Hc. subst c0. now apply Ascii.eqb_neq.
      * destruct Hf as [<-|Hf].
        -- simpl in Hc. apply orb_true_iff in Hc as [Hc|Hc].
           ++ rewrite Hc. split; [reflexivity|].
              apply Ascii.eqb_eq in Hc. subst c0. now apply Ascii.eqb_neq.
           ++ destruct (IH f0 c (or_introl eq_refl) Hc) as [H1 H2].
              rewrite H1. now rewrite orb_true_r.
        -- destruct (IH f c (or_intror Hf) Hc) as [H1 H2].
           rewrite H1. now rewrite orb_true_r.
Qed.

Lemma all_space_chars s :
  (forall c, mem_char c s = true -> isspace c = true) -> all_space s = true.
Proof.
  induction s as [|c0 s IH]; intros H; simpl; [reflexivity|].
  rewrite (H c0), IH; [reflexivity| |].
  - intros c Hc. apply H. simpl. now rewrite Hc, orb_true_r.
  - simpl. now rewrite Ascii.eqb_refl.
Qed.

(** *** itertools.groupby *)

Lemma groupby_head {A} (key : A -> bool) x r :
  exists g gs, groupby key (x :: r) = (key x, x :: g) :: gs.
Proof.
  simpl. destruct (groupby key r) as [|[k g] gs].
  - now exists [], [].
  - destruct (Bool.eqb (key x) k) eqn:E.
    + apply Bool.eqb_prop in E. subst k. now exists g, gs.
    + now exists [], ((k, g) :: gs).
Qed.

(** A run of items with the key [k], followed by nothing or by an item
    with the other key, is one group. *)
Lemma groupby_run {A} (key : A -> bool) k b r :
  b <> [] ->
  Forall (fun x => key x = k) b ->
  match r with [] => True | y :: _ => key y = negb k end ->
  groupby key (b ++ r) = (k, b) :: groupby key r.
Proof.
  intros Hne Hb Hr. induction b as [|x b IH]; [congruence|].
  inversion Hb as [|? ? Hx Hb']; subst.
  destruct b as [|x' b].
  - cbn [app]. destruct r as [|y r']; [reflexivity|].
    destruct (groupby_head key y r') as (g & gs & E).
    cbn [groupby]. cbn [groupby] in E. rewrite E.
    rewrite Hr. now destruct (key x).
  - specialize (IH ltac:(discriminate) Hb').
    change ((x :: x' :: b) ++ r) with (x :: ((x' :: b) ++ r)).
    cbn [groupby]. cbn [groupby] in IH. rewrite IH.
    now rewrite Bool.eqb_reflx.
Qed.

Lemma blocks_empty_row e rows :
  is_empty_line e = true -> blocks (e :: rows) = blocks rows.
Proof.
  intros He. unfold blocks. cbn [groupby].
  destruct (groupby is_empty_line rows) as [|[k g] gs]; rewrite He.
  - reflexivity.
  - destruct k; reflexivity.
Qed.

Lemma blocks_run b rows :
  b <> [] ->
  Forall (fun r => is_empty_line r = false) b ->
  match rows with [] => True | y :: _ => is_empty_line y = true end ->
  blocks (b ++ rows) = b :: blocks rows.
Proof.
  intros Hne Hb Hr. unfold blocks.
  rewrite (groupby_run is_empty_line false b rows Hne Hb Hr). reflexivity.
Qed.

Lemma read_blocks_blocks rows : read_blocks rows = map zip_star (blocks rows).
Proof.
  unfold read_blocks, blocks.
  induction (groupby is_empty_line rows) as [|[k g] gs IH]; [reflexivity|].
  cbn [flat_map]. rewrite map_app, IH. now destruct k.
Qed.

(** C7.  A row that [csv.reader] yields for a line is empty exactly when
    every piece of the line between delimiters strips to the empty string;
    so a line of delimiters and white space only is empty, and inside a
    block it ends the sample: the rows before it form one sample, the rows
    after it are read on their own. *)
Theorem is_empty_line_ends_sample (d : ascii) (line : string) (row : list string) :
  csv_row d line = Ok row ->
  (is_empty_line row = true <-> Forall (fun f => strip f = EmptyString) (split_on d line))
  /\ ((forall c, mem_char c line = true -> c = d \/ isspace c = true) ->
      is_empty_line row = true
      /\ forall before after : list (list string),
           before <> [] ->
           Forall (fun r => is_empty_line r = false) before ->
           read_blocks (before ++ row :: after)
           = zip_star before :: read_blocks after).
Proof.
  intros Hrow. destruct (csv_row_fields d line row Hrow) as (Hfields & _).
  assert (Hiff : is_empty_line row = true
                 <-> Forall (fun f => strip f = EmptyString) (split_on d line)).
  { rewrite is_empty_line_Forall. subst row. destruct line as [|c r]; [|tauto].
    simpl. split; intros _; repeat constructor. }
  split; [exact Hiff|]. intros Hchars.
  assert (He : is_empty_line row = true).
  { apply Hiff, Forall_forall. intros f Hf. apply strip_empty, all_space_chars.
    intros c Hc. destruct (split_on_chars d line f c Hf Hc) as [Hin Hnd].
    destruct (Hchars c Hin); [contradiction|assumption]. }
  split; [exact He|]. intros before after Hne Hb.
  rewrite !read_blocks_blocks, blocks_run, blocks_empty_row; auto.
Qed.

Lemma is_empty_line_ends_sample_witness :
  let line := (" " ++ TAB ++ " ")%string in
  csv_row "009" line = Ok [" "; " "]
  /\ (is_empty_line [" "; " "] = true
      <-> Forall (fun f => strip f = EmptyString) (split_on "009" line))
  /\ read_blocks ([["a"; "O"]] ++ [" "; " "] :: [["b"; "O"]])
     = zip_star [["a"; "O"]] :: read_blocks [["b"; "O"]].
Proof.
  intros line.
  destruct (is_empty_line_ends_sample "009" line [" "; " "] eq_refl) as [Hiff Hend].
  split; [reflexivity|]. split; [exact Hiff|].
  destruct Hend as [_ Hblocks].
  - intros c Hc. unfold line, TAB in Hc. cbn [mem_char append] in Hc.
    repeat (apply orb_true_iff in Hc as [Hc|Hc]); try discriminate Hc;
      apply Ascii.eqb_eq in Hc; subst c; [right|left|right]; reflexivity.
  - apply Hblocks; [discriminate|repeat constructor].
Defined.

End Blocks.

(** ** Transposition *)

Section Transposition.

Context {A : Type} (d : A).

Lemma length_zip_with {B C} (f : A -> B -> C) l : forall l',
  List.length (zip_with f l l') = Nat.min (List.length l) (List.length l').
Proof.
  induction l as [|a l IH]; intros [|b l']; simpl; auto.
Qed.

Lemma nth_zip_with_cons (xs : list A) : forall (yss : list (list A)) k,
  k < List.length xs -> k < List.length yss ->
  nth k (zip_with cons xs yss) [] = nth k xs d :: nth k yss [].
Proof.
  induction xs as [|x xs IH]; intros [|ys yss] k Hx Hy; simpl in *; try lia.
  destruct k as [|k]; [reflexivity|]. apply IH; lia.
Qed.

Lemma length_zip_star (M : list (list A)) : List.length (zip_star M) = minlen M.
Proof.
  induction M as [|xs rest IH]; [reflexivity|].
  destruct rest as [|ys rest].
  - simpl. apply length_map.
  - change (zip_star (xs :: ys :: rest)) with (zip_with cons xs (zip_star (ys :: rest))).
    rewrite length_zip_with, IH. reflexivity.
Qed.

Lemma minlen_le (M : list (list A)) row : In row M -> minlen M <= List.length row.
Proof.
  induction M as [|xs rest IH]; [intros []|].
  intros Hin. destruct rest as [|ys rest].
  - destruct Hin as [<-|[]]. reflexivity.
  - change (minlen (xs :: ys :: rest))
      with (Nat.min (List.length xs) (minlen (ys :: rest))).
    destruct Hin as [<-|Hin]; [lia|]. specialize (IH Hin). lia.
Qed.

Lemma minlen_attained (M : list (list A)) :
  M <> [] -> exists row, In row M /\ minlen M = List.length row.
Proof.
  induction M as [|xs rest IH]; [congruence|intros _].
  destruct rest as [|ys rest].
  - exists xs. split; [now left|reflexivity].
  - change (minlen (xs :: ys :: rest))
      with (Nat.min (List.length xs) (minlen (ys :: rest))).
    destruct IH as (row & Hin & E); [discriminate|].
    destruct (Nat.le_ge_cases (List.length xs) (minlen (ys :: rest))).
    + exists xs. split; [now left|lia].
    + exists row. split; [now right|lia].
Qed.

Lemma minlen_same (M : list (list A)) n :
  M <> [] -> Forall (fun row => List.length row = n) M -> minlen M = n.
Proof.
  intros Hne Hall. destruct (minlen_attained M Hne) as (row & Hin & ->).
  rewrite Forall_forall in Hall. now apply Hall.
Qed.

Lemma nth_zip_star (M : list (list A)) : forall k,
  k < minlen M ->
  nth k (zip_star M) [] = map (fun row => nth k row d) M.
Proof.
  induction M as [|xs rest IH]; intros k Hk; [simpl in Hk; lia|].
  destruct rest as [|ys rest].
  - simpl in *. rewrite (nth_indep _ [] [d]) by now rewrite length_map.
    now rewrite (map_nth (fun x => [x])).
  - change (minlen (xs :: ys :: rest))
      with (Nat.min (List.length xs) (minlen (ys :: rest))) in Hk.
    change (zip_star (xs :: ys :: rest)) with (zip_with cons xs (zip_star (ys :: rest))).
    rewrite nth_zip_with_cons by (rewrite ?length_zip_star; lia).
    rewrite IH by lia. reflexivity.
Qed.

(** [zip( *M)] column by column. *)
Lemma zip_star_columns (M : list (list A)) :
  zip_star M = map (fun k => map (fun row => nth k row d) M) (seq 0 (minlen M)).
Proof.
  apply (nth_ext _ _ [] []).
  - now rewrite length_zip_star, length_map, length_seq.
  - intros k Hk. rewrite length_zip_star in Hk.
    rewrite nth_zip_star by assumption.
    rewrite (nth_indep _ [] ((fun k => map (fun row => nth k row d) M) 0))
      by now rewrite length_map, length_seq.
    rewrite (map_nth (fun k => map (fun row => nth k row d) M)).
    now rewrite seq_nth.
Qed.

Lemma zip_star_inner_length (M : list (list A)) :
  Forall (fun col => List.length col = List.length M) (zip_star M).
Proof.
  destruct M as [|xs rest]; [constructor|].
  rewrite zip_star_columns. apply Forall_forall. intros col Hin.
  apply in_map_iff in Hin as (k & <- & _). apply length_map.
Qed.

Lemma map_nth_seq (l : list A) :
  map (fun k => nth k l d) (seq 0 (List.length l)) = l.
Proof.
  apply (nth_ext _ _ d d).
  - now rewrite length_map, length_seq.
  - intros k Hk. rewrite length_map, length_seq in Hk.
    rewrite (nth_indep _ d ((fun k => nth k l d) 0))
      by now rewrite length_map, length_seq.
    rewrite (map_nth (fun k => nth k l d)). now rewrite seq_nth.
Qed.

(** Transposing twice gives back a rectangular table that has a row and a
    column. *)
Lemma zip_star_involutive (M : list (list A)) n :
  M <> [] -> n <> 0 ->
  Forall (fun row => List.length row = n) M ->
  zip_star (zip_star M) = M.
Proof.
  intros Hne Hn Hall.
  assert (Hw : minlen M = n) by now apply minlen_same.
  assert (HT : zip_star M = map (fun k => map (fun row => nth k row d) M) (seq 0 n)).
  { now rewrite zip_star_columns, Hw. }
  assert (HwT : minlen (zip_star M) = List.length M).
  { apply minlen_same.
    - rewrite HT. destruct n; [congruence|discriminate].
    - apply zip_star_inner_length. }
  rewrite (zip_star_columns (zip_star M)), HwT.
  apply (nth_ext _ _ [] []).
  - now rewrite length_map, length_seq.
  - intros i Hi. rewrite length_map, length_seq in Hi.
    rewrite (nth_indep _ [] ((fun k => map (fun row => nth k row d) (zip_star M)) 0))
      by now rewrite length_map, length_seq.
    rewrite (map_nth (fun k => map (fun row => nth k row d) (zip_star M))).
    rewrite seq_nth by assumption. cbn [Nat.add].
    rewrite HT, map_map.
    assert (Hrow : List.length (nth i M []) = n).
    { rewrite Forall_forall in Hall. apply Hall, nth_In, Hi. }
    transitivity (map (fun k => nth k (nth i M []) d) (seq 0 n));
      [|rewrite <- Hrow; apply map_nth_seq].
    apply map_ext. intros k.
    rewrite (nth_indep _ d ((fun row => nth k row d) [])) by now rewrite length_map.
    now rewrite (map_nth (fun row => nth k row d)).
Qed.

End Transposition.

(** ** Reading a corpus file *)

Section Reading.

Lemma getitem_valid {A} (d : A) (l : list A) (i : Z) :
  valid_index (List.length l) i ->
  exists j, j < List.length l
            /\ ((0 <= i)%Z -> j = Z.to_nat i)
            /\ getitem l i = Ok (nth j l d).
Proof.
  unfold valid_index, getitem. intros Hi.
  set (n := Z.of_nat (List.length l)) in *.
  set (j := if (i <? 0)%Z then (i + n)%Z else i).
  assert (Hj : (0 <= j < n)%Z).
  { subst j. destruct (Z.ltb_spec i 0); lia. }
  exists (Z.to_nat j). split; [lia|]. split.
  - intros H0. subst j. destruct (Z.ltb_spec i 0); [lia|reflexivity].
  - replace ((0 <=? j)%Z && (j <? n)%Z) with true
      by (symmetry; apply andb_true_iff; split; [apply Z.leb_le|apply Z.ltb_lt]; lia).
    rewrite (nth_error_nth' l d) by lia. reflexivity.
Qed.

Lemma getitem_invalid {A} (l : list A) (i : Z) :
  ~ valid_index (List.length l) i -> getitem l i = Raise IndexError.
Proof.
  unfold valid_index, getitem. intros Hi.
  set (n := Z.of_nat (List.length l)) in *.
  destruct (Z.ltb_spec i 0);
    destruct (Z.leb_spec 0 (i + n)); destruct (Z.leb_spec 0 i);
    destruct (Z.ltb_spec (i + n) n); destruct (Z.ltb_spec i n);
    simpl; try reflexivity; lia.
Qed.

Lemma getitem_nat {A} (d : A) (l : list A) (j : nat) :
  j < List.length l -> getitem l (Z.of_nat j) = Ok (nth j l d).
Proof.
  intros Hj. destruct (getitem_valid d l (Z.of_nat j)) as (j' & _ & Hj' & ->).
  - unfold valid_index. lia.
  - rewrite Hj' by lia. now rewrite Nat2Z.id.
Qed.

Lemma mapM_ok {A B} (f : A -> result B) (g : A -> B) l :
  (forall a, In a l -> f a = Ok (g a)) -> mapM f l = Ok (map g l).
Proof.
  induction l as [|a l IH]; intros H; simpl; [reflexivity|].
  rewrite (H a) by now left. simpl. rewrite IH; [reflexivity|].
  intros a' Ha'. apply H. now right.
Qed.

Lemma mapM_Forall2 {A B} (f : A -> result B) l : forall ys,
  mapM f l = Ok ys -> Forall2 (fun a y => f a = Ok y) l ys.
Proof.
  induction l as [|a l IH]; intros ys; simpl.
  - intros H. injection H as <-. constructor.
  - destruct (f a) as [b|] eqn:E; simpl; [|discriminate].
    destruct (mapM f l) as [bs|]; simpl; [|discriminate].
    intros H. injection H as <-. constructor; auto.
Qed.

Lemma mapM_raise {A B} (f : A -> result B) l e :
  mapM f l = Raise e -> exists a, In a l /\ f a = Raise e.
Proof.
  induction l as [|a l IH]; simpl; [discriminate|].
  destruct (f a) as [b|e'] eqn:E; simpl.
  - destruct (mapM f l) as [bs|e'']; simpl; [discriminate|].
    intros H. injection H as ->. destruct IH as (a' & Hin & Ha'); [reflexivity|].
    exists a'. split; [now right|assumption].
  - intros H. injection H as ->. exists a. split; [now left|assumption].
Qed.

Lemma mapM_total {A B} (f : A -> result B) l :
  (forall a, In a l -> exists b, f a = Ok b) -> exists bs, mapM f l = Ok bs.
Proof.
  induction l as [|a l IH]; intros H; simpl; [now eexists|].
  destruct (H a) as (b & ->); [now left|]. simpl.
  destruct IH as (bs & ->); [intros a' Ha'; apply H; now right|].
  simpl. now eexists.
Qed.

(** *** Groups and blocks *)

Lemma groupby_concat {A} (key : A -> bool) l :
  List.concat (map snd (groupby key l)) = l.
Proof.
  induction l as [|x l IH]; [reflexivity|]. simpl.
  destruct (groupby key l) as [|[k g] gs].
  - simpl in *. now rewrite <- IH.
  - destruct (Bool.eqb (key x) k); simpl in *; now rewrite <- IH.
Qed.

Lemma groupby_groups {A} (key : A -> bool) l :
  Forall (fun kg => snd kg <> [] /\ Forall (fun x => key x = fst kg) (snd kg))
         (groupby key l).
Proof.
  induction l as [|x l IH]; [constructor|]. simpl.
  destruct (groupby key l) as [|[k g] gs].
  - repeat constructor. discriminate.
  - inversion IH as [|? ? [Hg Hk] Hgs]; subst. simpl in *.
    destruct (Bool.eqb (key x) k) eqn:E.
    + apply Bool.eqb_prop in E. constructor; [|assumption]. simpl.
      split; [discriminate|]. now constructor.
    + constructor; [|now constructor]. simpl.
      split; [discriminate|]. now repeat constructor.
Qed.

Lemma blocks_rows rows b :
  In b (blocks rows) ->
  b <> [] /\ forall r, In r b -> In r rows /\ is_empty_line r = false.
Proof.
  unfold blocks. intros Hb. apply in_flat_map in Hb as ([k g] & Hg & Hb).
  simpl in Hb. destruct k; [destruct Hb|]. destruct Hb as [<-|[]].
  pose proof (groupby_groups is_empty_line rows) as Hall.
  rewrite Forall_forall in Hall. destruct (Hall _ Hg) as [Hne Hkey]. simpl in *.
  split; [assumption|]. intros r Hr. split.
  - rewrite <- (groupby_concat is_empty_line rows). apply in_concat.
    exists g. split; [|assumption]. apply in_map_iff. now exists (false, g).
  - rewrite Forall_forall in Hkey. now apply Hkey.
Qed.

Lemma rows_blocks rows r :
  In r rows -> is_empty_line r = false -> exists b, In b (blocks rows) /\ In r b.
Proof.
  intros Hr He. rewrite <- (groupby_concat is_empty_line rows) in Hr.
  apply in_concat in Hr as (g & Hg & Hr).
  apply in_map_iff in Hg as ([k g'] & <- & Hg). simpl in Hr.
  pose proof (groupby_groups is_empty_line rows) as Hall.
  rewrite Forall_forall in Hall. destruct (Hall _ Hg) as [_ Hkey]. simpl in Hkey.
  rewrite Forall_forall in Hkey. specialize (Hkey r Hr).
  exists g'. split; [|assumption].
  unfold blocks. apply in_flat_map. exists (k, g'). split; [assumption|].
  simpl. rewrite <- Hkey, He. now left.
Qed.

(** The blocks are as many as the rows that open one. *)
Lemma length_blocks rows : List.length (blocks rows) = count_blocks true rows.
Proof.
  induction rows as [|r rows IH]; [reflexivity|].
  cbn [count_blocks andb]. destruct (is_empty_line r) eqn:Er.
  - rewrite blocks_empty_row by assumption. exact IH.
  - cbn [negb]. destruct rows as [|y rows'].
    + unfold blocks. simpl. rewrite Er. reflexivity.
    + destruct (is_empty_line y) eqn:Ey.
      * change (r :: y :: rows') with ([r] ++ y :: rows').
        rewrite (blocks_run [r] (y :: rows')); try discriminate.
        -- cbn [List.length]. rewrite IH. cbn [count_blocks andb]. rewrite Ey.
           reflexivity.
        -- now repeat constructor.
        -- exact Ey.
      * cbn [count_blocks andb] in *. rewrite Ey in *. cbn [negb Nat.add] in *.
        rewrite <- IH. unfold blocks.
        destruct (groupby_head is_empty_line y rows') as (g & gs & E).
        change (groupby is_empty_line (r :: y :: rows'))
          with (match groupby is_empty_line (y :: rows') with
                | (k, g) :: gs =>
                    if Bool.eqb (is_empty_line r) k then (k, r :: g) :: gs
                    else (is_empty_line r, [r]) :: (k, g) :: gs
                | [] => [(is_empty_line r, [r])]
                end).
        rewrite E, Er, Ey. reflexivity.
Qed.

Lemma valid_index_le n m i : valid_index n i -> n <= m -> valid_index m i.
Proof. unfold valid_index. lia. Qed.

(** The table that [read_conll] indexes is as wide as the shortest
    non-empty row of the file. *)
Lemma table_width rows idx :
  valid_index (minlen (read_blocks rows)) idx <-> covers rows idx.
Proof.
  rewrite read_blocks_blocks. split.
  - intros Hv. split.
    + destruct (blocks rows) as [|b bs] eqn:E.
      * unfold valid_index in Hv. simpl in Hv. lia.
      * destruct (blocks_rows rows b) as [Hne Hb]; [rewrite E; now left|].
        destruct b as [|r b]; [congruence|].
        exists r. apply Hb. now left.
    + intros r Hr He. destruct (rows_blocks rows r Hr He) as (b & Hb & Hrb).
      apply (valid_index_le _ _ _ Hv).
      transitivity (List.length (zip_star b)).
      * apply minlen_le, in_map, Hb.
      * rewrite length_zip_star. now apply minlen_le.
  - intros [(r0 & Hr0 & He0) Hall].
    destruct (rows_blocks rows r0 Hr0 He0) as (b0 & Hb0 & _).
    destruct (minlen_attained (map zip_star (blocks rows))) as (t & Ht & ->).
    { destruct (blocks rows); [destruct Hb0|discriminate]. }
    apply in_map_iff in Ht as (b & <- & Hb).
    destruct (blocks_rows rows b Hb) as [Hne Hrows].
    rewrite length_zip_star.
    destruct (minlen_attained b Hne) as (r & Hr & ->).
    destruct (Hrows r Hr). now apply Hall.
Qed.

Lemma column_of rows idx :
  covers rows idx ->
  exists col, getitem (zip_star (read_blocks rows)) idx = Ok col
              /\ column_at (blocks rows) idx col.
Proof.
  intros Hc. apply table_width in Hc.
  rewrite <- length_zip_star in Hc.
  destruct (getitem_valid [] _ _ Hc) as (j & Hj & Hidx & ->).
  rewrite length_zip_star in Hj.
  eexists. split; [reflexivity|]. exists j. split; [exact Hidx|].
  rewrite (nth_zip_star []) by assumption.
  rewrite read_blocks_blocks in *. rewrite map_map.
  apply map_ext_in. intros b Hb. apply nth_zip_star.
  eapply Nat.lt_le_trans; [exact Hj|].
  transitivity (List.length (zip_star b));
    [apply minlen_le, in_map, Hb|now rewrite length_zip_star].
Qed.

Lemma getitem_raise {A} (l : list A) i e : getitem l i = Raise e -> e = IndexError.
Proof.
  unfold getitem.
  destruct (_ && _); [|congruence].
  destruct (nth_error _ _); congruence.
Qed.

Lemma read_conll_unfold text columns d rows :
  csv_reader d (lines (universal_newlines text)) = Ok rows ->
  read_conll text columns (String d EmptyString)
  = mapM (fun c : string * Z =>
            col <- getitem (zip_star (read_blocks rows)) (snd c) ;; Ok (fst c, col))
         columns.
Proof. intros H. unfold read_conll. now rewrite H. Qed.

Lemma read_conll_covered text columns d rows :
  csv_reader d (lines (universal_newlines text)) = Ok rows ->
  (forall c, In c columns -> covers rows (snd c)) ->
  exists ds,
    read_conll text columns (String d EmptyString) = Ok ds
    /\ Forall2 (fun c y => fst y = fst c /\ column_at (blocks rows) (snd c) (snd y))
               columns ds.
Proof.
  intros Hrows Hcov. rewrite (read_conll_unfold _ _ _ _ Hrows).
  destruct (mapM_total
              (fun c : string * Z =>
                 col <- getitem (zip_star (read_blocks rows)) (snd c) ;; Ok (fst c, col))
              columns) as (ds & Hds).
  { intros c Hc. destruct (column_of rows (snd c) (Hcov c Hc)) as (col & -> & _).
    simpl. now eexists. }
  exists ds. split; [assumption|].
  apply mapM_Forall2 in Hds.
  assert (Hin : Forall (fun c => covers rows (snd c)) columns)
    by now apply Forall_forall.
  clear Hcov. induction Hds as [|c y cs ys Hy Hys IH]; [constructor|].
  inversion Hin as [|? ? Hc Hcs]; subst. constructor; [|now apply IH].
  destruct (column_of rows (snd c) Hc) as (col & Hcol & Hat).
  rewrite Hcol in Hy. simpl in Hy. injection Hy as <-. now split.
Qed.

Lemma column_at_lengths bl i col :
  column_at bl i col -> map (@List.length string) col = map (@List.length _) bl.
Proof.
  intros (j & _ & ->). rewrite map_map. apply map_ext. intros b. apply length_map.
Qed.

(** C8 (amended).  For a file whose lines parse into rows with N >= 1
    blocks of non-empty rows, all of them wide enough for the requested
    positions, [read_conll] returns a dataset with the requested column
    names in which every column has exactly N samples and, at every sample
    index, the same token count as every other column. *)
Theorem read_conll_one_sample_per_block
    (text : string) (columns : list (string * Z)) (d : ascii)
    (rows : list (list string)) :
  csv_reader d (lines (universal_newlines text)) = Ok rows ->
  count_blocks true rows <> 0 ->
  (forall r, In r rows -> is_empty_line r = false ->
     Forall (fun c => valid_index (List.length r) (snd c)) columns) ->
  exists ds,
    read_conll text columns (String d EmptyString) = Ok ds
    /\ map fst ds = map fst columns
    /\ Forall (fun c => List.length (snd c) = count_blocks true rows) ds
    /\ (forall c c', In c ds -> In c' ds ->
          map (@List.length _) (snd c) = map (@List.length _) (snd c')).
Proof.
  intros Hrows HN Hwide.
  assert (Hcov : forall c, In c columns -> covers rows (snd c)).
  { intros c Hc. split.
    - rewrite <- length_blocks in HN.
      destruct (blocks rows) as [|b bs] eqn:E; [now simpl in HN|].
      destruct (blocks_rows rows b) as [Hne Hb]; [rewrite E; now left|].
      destruct b as [|r b]; [congruence|].
      exists r. apply Hb. now left.
    - intros r Hr He. specialize (Hwide r Hr He).
      rewrite Forall_forall in Hwide. now apply Hwide. }
  destruct (read_conll_covered text columns d rows Hrows Hcov) as (ds & Hds & Hall).
  exists ds. split; [assumption|].
  assert (Hlen : Forall (fun y => map (@List.length _) (snd y)
                                  = map (@List.length _) (blocks rows)) ds).
  { clear -Hall. induction Hall as [|c y cs ys [_ Hy] _ IH]; constructor; auto.
    eapply column_at_lengths, Hy. }
  rewrite Forall_forall in Hlen.
  split; [|split].
  - clear -Hall. induction Hall as [|c y cs ys [Hy _] _ IH]; [reflexivity|].
    simpl. now rewrite Hy, IH.
  - apply Forall_forall. intros y Hy.
    rewrite <- length_blocks, <- (length_map (@List.length _) (blocks rows)).
    rewrite <- (Hlen y Hy). now rewrite length_map.
  - intros c c' Hc Hc'. now rewrite (Hlen c Hc), (Hlen c' Hc').
Qed.

Lemma read_conll_one_sample_per_block_witness :
  let rows := [["a"; "O"]; ["b"; "B"]; []; ["c"; "O"]; []] in
  csv_reader "009" (lines (universal_newlines demo_text)) = Ok rows
  /\ count_blocks true rows = 2
  /\ exists ds,
       read_conll demo_text [("tok", 0%Z); ("tag", (-1)%Z)] TAB = Ok ds
       /\ map fst ds = ["tok"; "tag"]
       /\ Forall (fun c => List.length (snd c) = 2) ds
       /\ (forall c c', In c ds -> In c' ds ->
             map (@List.length _) (snd c) = map (@List.length _) (snd c')).
Proof.
  intros rows. split; [reflexivity|]. split; [reflexivity|].
  apply (read_conll_one_sample_per_block demo_text
           [("tok", 0%Z); ("tag", (-1)%Z)] "009" rows eq_refl).
  - discriminate.
  - intros r Hr He. unfold valid_index.
    repeat (destruct Hr as [<-|Hr]; [try discriminate He; repeat constructor; simpl; lia|]).
    destruct Hr.
Defined.

(** C8, as stated, fails for N = 0: on the empty file a requested column
    raises an index error instead of being returned with no sample. *)
Lemma read_conll_empty_file_counterexample :
  csv_reader "009" (lines (universal_newlines EmptyString)) = Ok []
  /\ count_blocks true [] = 0
  /\ read_conll EmptyString [("tok", 0%Z)] TAB = Raise IndexError.
Proof. repeat split. Qed.

Lemma getitem_exact {A} (d : A) (l : list A) (i : Z) :
  valid_index (List.length l) i ->
  getitem l i
  = Ok (nth (Z.to_nat (if (i <? 0)%Z then i + Z.of_nat (List.length l) else i)%Z)
            l d).
Proof.
  unfold valid_index, getitem. intros Hi.
  set (n := Z.of_nat (List.length l)) in *.
  set (j := (if (i <? 0)%Z then i + n else i)%Z).
  assert (Hj : (0 <= j < n)%Z) by (subst j; destruct (Z.ltb_spec i 0); lia).
  replace ((0 <=? j)%Z && (j <? n)%Z) with true
    by (symmetry; apply andb_true_iff; split; [apply Z.leb_le|apply Z.ltb_lt]; lia).
  rewrite (nth_error_nth' l d) by (subst n; lia). reflexivity.
Qed.

(** The table is as wide as the shortest non-empty row. *)
Lemma table_width_eq rows : minlen (read_blocks rows) = width rows.
Proof.
  rewrite read_blocks_blocks. unfold width.
  set (keep := fun r : list string => negb (is_empty_line r)).
  assert (Hkeep : forall r, In r (filter keep rows)
                            <-> In r rows /\ is_empty_line r = false).
  { intros r. rewrite filter_In. unfold keep. now rewrite negb_true_iff. }
  destruct (filter keep rows) as [|r0 rs] eqn:Ef.
  - destruct (blocks rows) as [|b bs] eqn:Eb; [reflexivity|].
    destruct (blocks_rows rows b) as [Hne Hb]; [rewrite Eb; now left|].
    destruct b as [|r b]; [congruence|].
    destruct (proj2 (Hkeep r) (Hb r (or_introl eq_refl))).
  - rewrite <- Ef in *.
    assert (Hr0 : In r0 (filter keep rows)) by (rewrite Ef; now left).
    apply Hkeep in Hr0 as [Hr0 He0].
    destruct (rows_blocks rows r0 Hr0 He0) as (b0 & Hb0 & _).
    apply Nat.le_antisymm.
    + destruct (minlen_attained (filter keep rows)) as (r & Hr & ->);
        [rewrite Ef; discriminate|].
      apply Hkeep in Hr as [Hr He].
      destruct (rows_blocks rows r Hr He) as (b & Hb & Hrb).
      transitivity (List.length (zip_star b)).
      * apply minlen_le, in_map, Hb.
      * rewrite length_zip_star. now apply minlen_le.
    + destruct (minlen_attained (map zip_star (blocks rows))) as (t & Ht & ->).
      { destruct (blocks rows); [destruct Hb0|discriminate]. }
      apply in_map_iff in Ht as (b & <- & Hb).
      destruct (blocks_rows rows b Hb) as [Hne Hrows].
      rewrite length_zip_star.
      destruct (minlen_attained b Hne) as (r & Hr & ->).
      apply minlen_le, Hkeep. now apply Hrows.
Qed.

(** The column that an index into the table reads. *)
Lemma column_of_exact rows idx :
  covers rows idx ->
  getitem (zip_star (read_blocks rows)) idx = Ok (column_read rows idx).
Proof.
  intros Hc. apply table_width in Hc.
  assert (Hpos : position rows idx < minlen (read_blocks rows)).
  { rewrite table_width_eq in *. unfold position, valid_index in *.
    destruct (Z.ltb_spec idx 0); lia. }
  rewrite (getitem_exact []) by now rewrite length_zip_star.
  rewrite length_zip_star, table_width_eq. fold (position rows idx).
  rewrite (nth_zip_star []) by assumption.
  unfold column_read. rewrite read_blocks_blocks in *. rewrite map_map.
  f_equal. apply map_ext_in. intros b Hb. apply nth_zip_star.
  eapply Nat.lt_le_trans; [exact Hpos|].
  transitivity (List.length (zip_star b));
    [apply minlen_le, in_map, Hb|now rewrite length_zip_star].
Qed.

(** C6 (amended).  For a file whose lines parse, ragged or not,
    [read_conll] raises an index error exactly when some requested
    position is not an index into every non-empty row (or there is no
    such row); otherwise it returns the dataset whose columns hold, sample
    by sample, for every row the field at the requested position, a
    negative position counting back from the length of the shortest
    non-empty row of the file.  The further fields of longer rows are
    dropped. *)
Theorem read_conll_index_error_iff
    (text : string) (columns : list (string * Z)) (d : ascii)
    (rows : list (list string)) :
  csv_reader d (lines (universal_newlines text)) = Ok rows ->
  (read_conll text columns (String d EmptyString) = Raise IndexError
   <-> exists c, In c columns /\ ~ covers rows (snd c))
  /\ ((forall c, In c columns -> covers rows (snd c)) ->
      read_conll text columns (String d EmptyString)
      = Ok (map (fun c : string * Z => (fst c, column_read rows (snd c))) columns)).
Proof.
  intros Hrows. split.
  2:{ intros Hcov. rewrite (read_conll_unfold _ _ _ _ Hrows).
      apply mapM_ok. intros c Hc.
      now rewrite (column_of_exact rows (snd c) (Hcov c Hc)). }
  rewrite (read_conll_unfold _ _ _ _ Hrows).
  set (f := fun c : string * Z =>
              col <- getitem (zip_star (read_blocks rows)) (snd c) ;; Ok (fst c, col)).
  split.
  - intros H. apply mapM_raise in H as (c & Hc & Hf).
    exists c. split; [assumption|]. intros Hcov.
    destruct (column_of rows (snd c) Hcov) as (col & Hcol & _).
    unfold f in Hf. rewrite Hcol in Hf. discriminate.
  - intros (c & Hc & Hcov).
    assert (Hf : f c = Raise IndexError).
    { unfold f. rewrite getitem_invalid; [reflexivity|].
      rewrite length_zip_star. now rewrite table_width. }
    destruct (mapM f columns) as [ys|e] eqn:E.
    + apply mapM_Forall2 in E. exfalso. clear -E Hc Hf.
      induction E as [|c0 y cs ys Hy _ IH]; [destruct Hc|].
      destruct Hc as [->|Hc]; [cbv beta in Hy; rewrite Hf in Hy; discriminate|auto].
    + apply mapM_raise in E as (c' & _ & Hf'). unfold f in Hf'.
      destruct (getitem (zip_star (read_blocks rows)) (snd c')) eqn:G;
        [discriminate|].
      apply getitem_raise in G. simpl in Hf'. injection Hf' as <-. now subst e0.
Qed.

Lemma read_conll_index_error_iff_witness :
  let text := ("a" ++ TAB ++ "b" ++ TAB ++ "c" ++ NL ++ "d" ++ TAB ++ "e" ++ NL)%string in
  let rows := [["a"; "b"; "c"]; ["d"; "e"]] in
  csv_reader "009" (lines (universal_newlines text)) = Ok rows
  /\ (read_conll text [("tok", 0%Z); ("tag", 2%Z)] TAB = Raise IndexError
      <-> exists c, In c [("tok", 0%Z); ("tag", 2%Z)] /\ ~ covers rows (snd c))
  /\ read_conll text [("tok", 0%Z); ("last", (-1)%Z)] TAB
     = Ok [("tok", [["a"; "d"]]); ("last", [["b"; "e"]])].
Proof.
  intros text rows. split; [reflexivity|]. split.
  - exact (proj1 (read_conll_index_error_iff text [("tok", 0%Z); ("tag", 2%Z)]
                    "009" rows eq_refl)).
  - apply (proj2 (read_conll_index_error_iff text [("tok", 0%Z); ("last", (-1)%Z)]
                    "009" rows eq_refl)).
    intros c Hc. split.
    + exists ["a"; "b"; "c"]. split; [now left|reflexivity].
    + intros r [<-|[<-|[]]] _; destruct Hc as [<-|[<-|[]]];
        unfold valid_index; simpl; lia.
Defined.

(** C6, as stated, fails: a block with rows of two and of one field is
    read without error when only the first position is requested. *)
Lemma read_conll_ragged_counterexample :
  let text := ("a" ++ TAB ++ "b" ++ NL ++ "c" ++ NL)%string in
  csv_reader "009" (lines (universal_newlines text)) = Ok [["a"; "b"]; ["c"]]
  /\ blocks [["a"; "b"]; ["c"]] = [[["a"; "b"]; ["c"]]]
  /\ read_conll text [("tok", 0%Z)] TAB = Ok [("tok", [["a"; "c"]])].
Proof. repeat split. Qed.

End Reading.

(** ** Writing, then reading *)

Section RoundTrip.

Local Open Scope string_scope.

Lemma append_nil_r s : s ++ EmptyString = s.
Proof. induction s as [|c s IH]; simpl; [reflexivity|now rewrite IH]. Qed.

Lemma append_assoc s1 s2 s3 : (s1 ++ s2) ++ s3 = s1 ++ (s2 ++ s3).
Proof. induction s1 as [|c s1 IH]; simpl; [reflexivity|now rewrite IH]. Qed.

Lemma concat_nil_cons x xs : String.concat EmptyString (x :: xs) = x ++ String.concat EmptyString xs.
Proof. destruct xs; simpl; [now rewrite append_nil_r|reflexivity]. Qed.

Lemma mem_char_app c s1 s2 : mem_char c (s1 ++ s2) = mem_char c s1 || mem_char c s2.
Proof.
  induction s1 as [|c1 s1 IH]; simpl; [reflexivity|].
  now rewrite IH, orb_assoc.
Qed.

Lemma mem_char_join c d row :
  c <> d ->
  Forall (fun f => mem_char c f = false) row ->
  mem_char c (String.concat (String d EmptyString) row) = false.
Proof.
  intros Hcd Hrow. induction Hrow as [|f row Hf Hrow IH]; [reflexivity|].
  destruct row as [|f' row]; [exact Hf|].
  change (String.concat (String d EmptyString) (f :: f' :: row))
    with (f ++ String d EmptyString ++ String.concat (String d EmptyString) (f' :: row)).
  rewrite !mem_char_app, Hf, IH. simpl.
  rewrite ?orb_false_r. apply Ascii.eqb_neq. congruence.
Qed.

Lemma universal_newlines_id s : mem_char CR s = false -> universal_newlines s = s.
Proof.
  induction s as [|c s IH]; simpl; [reflexivity|]. intros H.
  apply orb_false_iff in H as [Hc Hs]. rewrite Hc, IH; auto.
Qed.

Lemma lines_line l rest :
  mem_char LF l = false -> lines ((l ++ NL) ++ rest) = l :: lines rest.
Proof.
  induction l as [|c l IH]; intros H; simpl in *.
  - reflexivity.
  - apply orb_false_iff in H as [Hc Hl]. rewrite Hc, IH; auto.
Qed.

Lemma split_on_plain d f : mem_char d f = false -> split_on d f = [f].
Proof.
  induction f as [|c f IH]; intros H; simpl in *; [reflexivity|].
  apply orb_false_iff in H as [Hc Hf]. rewrite Hc, IH; auto.
Qed.

Lemma split_on_field d f rest :
  mem_char d f = false ->
  split_on d (f ++ String d rest) = f :: split_on d rest.
Proof.
  induction f as [|c f IH]; intros H; simpl in *.
  - now rewrite Ascii.eqb_refl.
  - apply orb_false_iff in H as [Hc Hf]. rewrite Hc, IH; auto.
Qed.

(** Splitting a joined row gives the row back. *)
Lemma split_on_join d row :
  row <> [] ->
  Forall (fun f => mem_char d f = false) row ->
  split_on d (String.concat (String d EmptyString) row) = row.
Proof.
  intros Hne Hrow. induction Hrow as [|f row Hf Hrow IH]; [congruence|].
  destruct row as [|f' row]; [now apply split_on_plain|].
  change (String.concat (String d EmptyString) (f :: f' :: row))
    with (f ++ String d (String.concat (String d EmptyString) (f' :: row))).
  rewrite split_on_field by assumption. rewrite IH; [reflexivity|discriminate].
Qed.

Lemma plain_token_spec d t :
  plain_token d t = true ->
  mem_char d t = false /\ mem_char LF t = false /\ mem_char CR t = false
  /\ (N.of_nat (String.length t) <= field_size_limit)%N.
Proof.
  unfold plain_token. rewrite !andb_true_iff, !negb_true_iff, N.leb_le. tauto.
Qed.

Lemma join_not_empty d row :
  is_empty_line row = false -> String.concat (String d EmptyString) row <> EmptyString.
Proof.
  destruct row as [|f [|f' row]]; simpl.
  - discriminate.
  - rewrite andb_true_r. intros H E. subst f. discriminate.
  - intros _. destruct f; discriminate.
Qed.

Lemma csv_row_join d row :
  Forall (fun f => plain_token d f = true) row ->
  is_empty_line row = false ->
  csv_row d (String.concat (String d EmptyString) row) = Ok row.
Proof.
  intros Hplain Hne. unfold csv_row.
  assert (Hrow : row <> []) by (intros ->; discriminate).
  pose proof (join_not_empty d row Hne) as Hj.
  destruct (String.concat (String d EmptyString) row) as [|c r] eqn:E; [congruence|].
  rewrite <- E, split_on_join; auto.
  2:{ eapply Forall_impl; [|exact Hplain]. intros f Hf.
      now apply plain_token_spec in Hf. }
  replace (forallb _ row) with true; [reflexivity|].
  symmetry. apply forallb_forall. intros f Hf.
  rewrite Forall_forall in Hplain. apply Hplain in Hf.
  apply plain_token_spec in Hf. now apply N.leb_le.
Qed.

Lemma mem_char_concat c l :
  Forall (fun s => mem_char c s = false) l -> mem_char c (String.concat EmptyString l) = false.
Proof.
  intros H. induction H as [|s l Hs Hl IH]; [reflexivity|].
  now rewrite concat_nil_cons, mem_char_app, Hs, IH.
Qed.

Lemma mem_char_NL c : c <> LF -> mem_char c NL = false.
Proof.
  intros H. unfold NL. cbn [mem_char]. rewrite orb_false_r.
  apply Ascii.eqb_neq. congruence.
Qed.

Lemma mem_char_line c d row :
  c <> d -> c <> LF ->
  Forall (fun f => mem_char c f = false) row ->
  mem_char c (String.concat (String d EmptyString) row ++ NL) = false.
Proof.
  intros Hd Hlf Hrow.
  now rewrite mem_char_app, mem_char_join, mem_char_NL.
Qed.

Lemma mem_char_render c d bl :
  c <> d -> c <> LF ->
  Forall (Forall (Forall (fun f => mem_char c f = false))) bl ->
  mem_char c (render d bl) = false.
Proof.
  intros Hd Hlf Hbl. unfold render. apply mem_char_concat, Forall_map.
  eapply Forall_impl; [|exact Hbl]. intros b Hb.
  rewrite mem_char_app, mem_char_NL, orb_false_r by assumption.
  apply mem_char_concat, Forall_map.
  eapply Forall_impl; [|exact Hb]. intros row Hrow. now apply mem_char_line.
Qed.

Lemma lines_block d b rest :
  Forall (fun row => mem_char LF (String.concat (String d EmptyString) row) = false) b ->
  lines ((String.concat EmptyString
            (map (fun row => String.concat (String d EmptyString) row ++ NL) b) ++ NL) ++ rest)
  = (map (String.concat (String d EmptyString)) b ++ EmptyString :: lines rest)%list.
Proof.
  intros Hb. induction Hb as [|row b Hrow Hb IH].
  - reflexivity.
  - cbn [map]. rewrite concat_nil_cons, !append_assoc.
    rewrite <- (append_assoc (String.concat (String d EmptyString) row) NL).
    rewrite lines_line by assumption.
    rewrite <- append_assoc, IH. reflexivity.
Qed.

Lemma lines_render d bl :
  Forall (Forall (fun row => mem_char LF (String.concat (String d EmptyString) row) = false)) bl ->
  lines (render d bl) = map (String.concat (String d EmptyString)) (rows_of_blocks bl).
Proof.
  unfold render, rows_of_blocks. intros Hbl.
  induction Hbl as [|b bl Hb Hbl IH]; [reflexivity|].
  cbn [map List.concat]. rewrite concat_nil_cons, lines_block by assumption.
  rewrite IH, !map_app. cbn [map]. rewrite <- app_assoc. reflexivity.
Qed.

Lemma blocks_rows_of_blocks bl :
  Forall (fun b => b <> [] /\ Forall (fun r => is_empty_line r = false) b) bl ->
  blocks (rows_of_blocks bl) = bl.
Proof.
  unfold rows_of_blocks. intros Hbl.
  induction Hbl as [|b bl [Hne Hb] Hbl IH]; [reflexivity|].
  cbn [map List.concat]. rewrite <- app_assoc. cbn [app].
  rewrite blocks_run, blocks_empty_row, IH; auto.
Qed.

Lemma mapM_ok_map {A B} (f : A -> result B) (h : B -> A) l :
  (forall x, In x l -> f (h x) = Ok x) -> mapM f (map h l) = Ok l.
Proof.
  induction l as [|x l IH]; intros H; simpl; [reflexivity|].
  rewrite (H x) by now left. simpl. rewrite IH; [reflexivity|].
  intros x' Hx'. apply H. now right.
Qed.

(** Reading what was written for a list of blocks of good rows: the
    blocks come back. *)
Lemma read_render d bl :
  d <> LF -> d <> CR ->
  Forall (fun b => b <> [] /\ Forall (good_row d) b) bl ->
  exists rows,
    csv_reader d (lines (universal_newlines (render d bl))) = Ok rows
    /\ blocks rows = bl.
Proof.
  intros Hlf Hcr Hbl.
  assert (Hno : forall c,
             (forall f, plain_token d f = true -> mem_char c f = false) ->
             Forall (Forall (Forall (fun f => mem_char c f = false))) bl).
  { intros c Hc. eapply Forall_impl; [|exact Hbl]. intros b [_ Hb].
    eapply Forall_impl; [|exact Hb]. intros row [Hrow _].
    eapply Forall_impl; [|exact Hrow]. intros f Hf. now apply Hc. }
  exists (rows_of_blocks bl). split.
  - rewrite universal_newlines_id.
    2:{ apply mem_char_render; [congruence|unfold CR, LF; congruence|].
        apply Hno. intros f Hf. now apply plain_token_spec in Hf. }
    rewrite lines_render.
    2:{ specialize (Hno LF ltac:(intros f Hf; now apply plain_token_spec in Hf)).
        eapply Forall_impl; [|exact Hno]. intros b Hb.
        eapply Forall_impl; [|exact Hb]. intros row Hrow.
        apply mem_char_join; [congruence|assumption]. }
    apply mapM_ok_map. intros row Hrow.
    unfold rows_of_blocks in Hrow. apply in_concat in Hrow as (l & Hl & Hrow).
    apply in_map_iff in Hl as (b & <- & Hb).
    rewrite Forall_forall in Hbl. destruct (Hbl b Hb) as [_ Hgood].
    apply in_app_or in Hrow as [Hrow|[<-|[]]]; [|reflexivity].
    rewrite Forall_forall in Hgood. destruct (Hgood row Hrow) as [Hplain Hne].
    now apply csv_row_join.
  - apply blocks_rows_of_blocks.
    eapply Forall_impl; [|exact Hbl]. intros b [Hne Hb]. split; [assumption|].
    eapply Forall_impl; [|exact Hb]. now intros row [_ Hrow].
Qed.

Lemma mapM_map {A B C} (f : B -> result C) (h : A -> B) l :
  mapM f (map h l) = mapM (fun x => f (h x)) l.
Proof.
  induction l as [|x l IH]; simpl; [reflexivity|]. now rewrite IH.
Qed.

Lemma lookup_NoDup {V} (data : list (string * V)) c :
  NoDup (map fst data) -> In c data -> lookup data (fst c) = Ok (snd c).
Proof.
  induction data as [|[k v] data IH]; intros Hnd Hin; [destruct Hin|].
  simpl in *. inversion Hnd as [|? ? Hk Hnd']; subst.
  destruct Hin as [<-|Hin].
  - simpl. now rewrite String.eqb_refl.
  - destruct (String.eqb_spec k (fst c)) as [->|_].
    + exfalso. apply Hk. now apply in_map.
    + now apply IH.
Qed.

(** What the file system adds to the text of a call. *)
Lemma write_conll_prelude fs filename data colnames delimiter :
  write_conll fs filename data colnames delimiter
  = (made <- makedirs fs (dirname fs filename) ;;
     any_key <- getitem (match colnames with
                         | None => map fst data
                         | Some cs => cs
                         end) 0%Z ;;
     fp <- open_w fs filename ;;
     conll_text data colnames delimiter).
Proof.
  unfold write_conll, conll_text.
  destruct (makedirs fs (dirname fs filename)); cbn [bind]; [|reflexivity].
  destruct (getitem _ 0%Z) as [any_key|] eqn:E; cbn [bind]; [|reflexivity].
  destruct (open_w fs filename); reflexivity.
Qed.

Lemma write_conll_writable fs filename data colnames delimiter :
  writable fs filename ->
  write_conll fs filename data colnames delimiter = conll_text data colnames delimiter.
Proof.
  intros [Hm Ho]. rewrite write_conll_prelude, Hm, Ho. cbn [bind].
  unfold conll_text. now destruct (getitem _ 0%Z).
Qed.

Section Shaped.

Variables (data : Dataset) (d : ascii) (shape : list nat).

Hypothesis keys_distinct : NoDup (map fst data).
Hypothesis has_column : data <> [].
Hypothesis same_shape : Forall (fun c => map (@List.length _) (snd c) = shape) data.

Lemma column_length c : In c data -> List.length (snd c) = List.length shape.
Proof.
  intros Hc. rewrite Forall_forall in same_shape.
  rewrite <- (same_shape c Hc). now rewrite length_map.
Qed.

Lemma sample_length c i :
  In c data -> List.length (nth i (snd c) []) = nth i shape 0.
Proof.
  intros Hc. rewrite Forall_forall in same_shape.
  rewrite <- (same_shape c Hc).
  now rewrite (map_nth (@List.length string) (snd c) []).
Qed.

(** What [write_conll] writes for a dataset of one shape. *)
Lemma write_conll_render :
  conll_text data None (String d EmptyString) = Ok (render d (blocks_of data shape)).
Proof.
  unfold conll_text, write_rows.
  assert (Edata : exists k0 col0 rest, data = (k0, col0) :: rest).
  { clear -has_column. destruct data as [|[k0 col0] rest]; [congruence|].
    now exists k0, col0, rest. }
  destruct Edata as (k0 & col0 & rest & Edata).
  assert (Hc0 : In (k0, col0) data) by (rewrite Edata; now left).
  replace (getitem (map fst data) 0%Z) with (Ok k0 : result string)
    by (rewrite Edata; reflexivity).
  cbn [bind].
  replace (lookup data k0) with (Ok col0 : result (list (list string)))
    by (rewrite Edata; simpl; now rewrite String.eqb_refl).
  cbn [bind].
  pose proof (column_length _ Hc0) as Hn. cbn [snd] in Hn.
  rewrite Hn.
  rewrite (mapM_ok _
             (fun i => String.concat EmptyString
                         (map (fun j => String.concat (String d EmptyString) (token_row data i j) ++ NL)
                              (seq 0 (nth i shape 0))) ++ NL)).
  - cbn [bind]. unfold render, blocks_of. rewrite map_map. f_equal. f_equal.
    apply map_ext. intros i. now rewrite map_map.
  - intros i Hi. apply in_seq in Hi.
    rewrite (getitem_nat []) by lia. cbn [bind].
    pose proof (sample_length _ i Hc0) as Hm. cbn [snd] in Hm. rewrite Hm.
    rewrite (mapM_ok _
               (fun j => String.concat (String d EmptyString) (token_row data i j) ++ NL));
      [reflexivity|].
    intros j Hj. apply in_seq in Hj.
    rewrite mapM_map.
    rewrite (mapM_ok _ (fun c : string * list (list string) =>
                          nth j (nth i (snd c) []) EmptyString));
      [reflexivity|].
    intros c Hc. rewrite lookup_NoDup by assumption. cbn [bind].
    rewrite (getitem_nat []) by (rewrite column_length by assumption; lia).
    cbn [bind]. apply getitem_nat. rewrite sample_length by assumption. lia.
Qed.

Hypothesis has_sample : shape <> [].
Hypothesis no_empty_sample : Forall (fun m => m <> 0) shape.

Lemma token_count_pos i : i < List.length shape -> nth i shape 0 <> 0.
Proof.
  intros Hi. rewrite Forall_forall in no_empty_sample.
  apply no_empty_sample, nth_In, Hi.
Qed.

(** Transposing the blocks, then the list of transposed blocks, gives the
    columns. *)
Lemma zip_star_blocks_of :
  zip_star (map zip_star (blocks_of data shape)) = map snd data.
Proof.
  set (cols := map snd data).
  set (S := fun i => map (fun col : list (list string) => nth i col []) cols).
  assert (Hcols : cols <> []).
  { subst cols. clear -has_column. destruct data; [congruence|discriminate]. }
  assert (HS : forall i, Forall (fun row => List.length row = nth i shape 0) (S i)).
  { intros i. apply Forall_forall. intros row Hrow.
    apply in_map_iff in Hrow as (col & <- & Hcol).
    apply in_map_iff in Hcol as (c & <- & Hc). now apply sample_length. }
  assert (HSne : forall i, S i <> []).
  { intros i. subst S. cbv beta. destruct cols; [congruence|discriminate]. }
  assert (Hblock : forall i, i < List.length shape ->
             zip_star (map (token_row data i) (seq 0 (nth i shape 0))) = S i).
  { intros i Hi.
    replace (map (token_row data i) (seq 0 (nth i shape 0))) with (zip_star (S i)).
    - apply (zip_star_involutive EmptyString (S i) (nth i shape 0)); auto.
      now apply token_count_pos.
    - rewrite (zip_star_columns EmptyString (S i)).
      rewrite (minlen_same (S i) (nth i shape 0)) by auto.
      apply map_ext. intros j. unfold S, cols, token_row. now rewrite !map_map. }
  assert (Hlen : Forall (fun col => List.length col = List.length shape) cols).
  { apply Forall_forall. intros col Hcol.
    apply in_map_iff in Hcol as (c & <- & Hc). now apply column_length. }
  unfold blocks_of. rewrite map_map.
  rewrite (map_ext_in _ S).
  2:{ intros i Hi. apply in_seq in Hi. apply Hblock. lia. }
  replace (map S (seq 0 (List.length shape))) with (zip_star cols).
  - apply (zip_star_involutive [] cols (List.length shape)); auto.
    clear -has_sample. destruct shape; [congruence|discriminate].
  - rewrite (zip_star_columns [] cols).
    now rewrite (minlen_same cols (List.length shape)).
Qed.

End Shaped.

(** C1 (amended).  Take a dataset with at least one column and one
    sample, whose columns all have the same token count at every sample
    index, none of them zero; whose tokens hold no delimiter and no line
    break and fit the field size limit; and where no row of tokens is
    white space only.  Writing it with a one-character delimiter that is
    not a line break, to a file that the file system lets be written,
    and reading the file back, with every column name mapped to its
    position, returns the dataset itself. *)
Theorem write_read_roundtrip (fs : file_system) (filename : string)
    (data : Dataset) (d : ascii) (shape : list nat) :
  writable fs filename ->
  d <> LF -> d <> CR ->
  NoDup (map fst data) ->
  data <> [] ->
  Forall (fun c => map (@List.length _) (snd c) = shape) data ->
  shape <> [] ->
  Forall (fun m => m <> 0) shape ->
  (forall c s t, In c data -> In s (snd c) -> In t s -> plain_token d t = true) ->
  (forall i j, i < List.length shape -> j < nth i shape 0 ->
     is_empty_line (token_row data i j) = false) ->
  exists text,
    write_conll fs filename data None (String d EmptyString) = Ok text
    /\ read_conll text (column_spec (map fst data)) (String d EmptyString) = Ok data.
Proof.
  intros Hfs Hlf Hcr Hkeys Hdata Hshape Hsample Hpos Hplain Hblank.
  exists (render d (blocks_of data shape)).
  split; [rewrite write_conll_writable by assumption; now apply write_conll_render|].
  assert (Hgood : Forall (fun b => b <> [] /\ Forall (good_row d) b)
                         (blocks_of data shape)).
  { apply Forall_forall. intros b Hb. unfold blocks_of in Hb.
    apply in_map_iff in Hb as (i & <- & Hi). apply in_seq in Hi.
    assert (Hm : nth i shape 0 <> 0) by (apply token_count_pos; [assumption|lia]).
    split.
    - destruct (nth i shape 0); [congruence|discriminate].
    - apply Forall_forall. intros row Hrow.
      apply in_map_iff in Hrow as (j & <- & Hj). apply in_seq in Hj.
      split; [|apply Hblank; lia].
      unfold token_row. apply Forall_map, Forall_forall. intros c Hc.
      apply (Hplain c (nth i (snd c) [])); [assumption| |].
      + apply nth_In. rewrite (column_length data shape) by assumption. lia.
      + apply nth_In. rewrite (sample_length data shape) by assumption. lia. }
  destruct (read_render d _ Hlf Hcr Hgood) as (rows & Hrows & Hblocks).
  rewrite (read_conll_unfold _ _ _ _ Hrows).
  rewrite read_blocks_blocks, Hblocks, zip_star_blocks_of by assumption.
  unfold column_spec. rewrite mapM_map.
  rewrite (mapM_ok _ (fun k => nth k data (EmptyString, []))).
  - rewrite length_map. now rewrite map_nth_seq.
  - intros k Hk. apply in_seq in Hk. rewrite length_map in Hk. cbn [fst snd].
    rewrite (getitem_nat []) by (rewrite length_map; lia). cbn [bind].
    rewrite (map_nth fst data (EmptyString, [])), (map_nth snd data (EmptyString, [])).
    now destruct (nth k data (EmptyString, [])).
Qed.

Lemma write_read_roundtrip_witness :
  exists text,
    write_conll posix "corpus/demo.conll" demo_data None TAB = Ok text
    /\ read_conll text (column_spec (map fst demo_data)) TAB = Ok demo_data.
Proof.
  apply (write_read_roundtrip posix "corpus/demo.conll" demo_data "009" [2; 1]).
  - split; reflexivity.
  - discriminate.
  - discriminate.
  - repeat constructor; simpl; intuition discriminate.
  - discriminate.
  - repeat constructor.
  - discriminate.
  - repeat constructor; discriminate.
  - intros c s t Hc Hs Ht.
    repeat match goal with
           | H : In _ _ |- _ => progress simpl in H
           | H : _ \/ _ |- _ => destruct H as [<-|H]
           | H : False |- _ => destruct H
           end; reflexivity.
  - intros [|[|i]] [|[|j]] Hi Hj; simpl in *; try lia; reflexivity.
Defined.

Lemma length_repeat_char c n : String.length (repeat_char c n) = n.
Proof. induction n as [|n IH]; simpl; [reflexivity|now rewrite IH]. Qed.

Lemma mem_char_repeat_char c c' n :
  Ascii.eqb c c' = false -> mem_char c' (repeat_char c n) = false.
Proof.
  intros H. induction n as [|n IH]; [reflexivity|].
  cbn [repeat_char mem_char]. now rewrite H, IH.
Qed.

(** A file with a field beyond the field size limit is refused by the
    reader. *)
Lemma long_field_refused d t columns :
  mem_char d t = false -> mem_char LF t = false -> mem_char CR t = false ->
  (field_size_limit < N.of_nat (String.length t))%N ->
  read_conll ((t ++ NL) ++ NL) columns (String d EmptyString) = Raise CsvError.
Proof.
  intros Hd Hlf Hcr Hlen. unfold read_conll.
  rewrite universal_newlines_id
    by (rewrite !mem_char_app, Hcr; reflexivity).
  rewrite lines_line by assumption.
  change (lines NL) with [EmptyString]. unfold csv_reader. cbn [mapM].
  replace (csv_row d t) with (Raise CsvError : result (list string));
    [reflexivity|].
  unfold csv_row. destruct t as [|c r] eqn:Et; [simpl in Hlen; lia|].
  rewrite <- Et in *. rewrite split_on_plain by assumption.
  cbn [forallb]. apply N.leb_gt in Hlen. now rewrite Hlen.
Qed.

Lemma one_token_text fs filename t d :
  writable fs filename ->
  write_conll fs filename [("tok", [[t]])] None (String d EmptyString)
  = Ok ((t ++ NL) ++ NL).
Proof. intros H. rewrite write_conll_writable by assumption. reflexivity. Qed.

Lemma long_token_refused :
  exists text,
    write_conll posix "corpus/out.conll" [("tok", [[long_token]])] None TAB = Ok text
    /\ read_conll text (column_spec ["tok"]) TAB = Raise CsvError.
Proof.
  exists ((long_token ++ NL) ++ NL). split.
  - apply one_token_text. split; reflexivity.
  - apply long_field_refused;
      try (apply mem_char_repeat_char; reflexivity).
    unfold long_token. rewrite length_repeat_char, N2Nat.id. reflexivity.
Qed.

(** C1, as stated, fails on datasets whose columns agree on every token
    count: an empty sample is not read back; a token that holds the
    delimiter comes back cut; a row of white-space tokens is read as a
    blank line and splits its sample; a dataset without samples cannot be
    read back at all; a file name without directory part cannot be
    written; a token with a line feed or a carriage return comes back as
    two tokens; a token longer than the field size limit of the csv
    module is refused by the reader, and so is a delimiter of two
    characters;
    a line break as delimiter does not separate the columns; a
    dataset without columns cannot be written. *)
Lemma write_read_counterexample :
  (let data := [("tok", [["a"]; []]); ("tag", [["O"]; []])] in
   exists text,
     write_conll posix "corpus/out.conll" data None TAB = Ok text
     /\ read_conll text (column_spec (map fst data)) TAB
        = Ok [("tok", [["a"]]); ("tag", [["O"]])]
     /\ read_conll text (column_spec (map fst data)) TAB <> Ok data)
  /\ (let data := [("tok", [["New York"]])] in
      exists text,
        write_conll posix "corpus/out.conll" data None " " = Ok text
        /\ read_conll text (column_spec (map fst data)) " "
           = Ok [("tok", [["New"]])]
        /\ read_conll text (column_spec (map fst data)) " " <> Ok data)
  /\ (let data := [("tok", [["a"; " "; "b"]])] in
      exists text,
        write_conll posix "corpus/out.conll" data None TAB = Ok text
        /\ read_conll text (column_spec (map fst data)) TAB
           = Ok [("tok", [["a"]; ["b"]])]
        /\ read_conll text (column_spec (map fst data)) TAB <> Ok data)
  /\ (let data := [("tok", [])] in
      exists text,
        write_conll posix "corpus/out.conll" data None TAB = Ok text
        /\ read_conll text (column_spec (map fst data)) TAB = Raise IndexError
        /\ read_conll text (column_spec (map fst data)) TAB <> Ok data)
  /\ write_conll posix "out.conll" demo_data None TAB = Raise FileNotFoundError
  /\ (let data := [("tok", [[String "a" (String LF "b")]])] in
      exists text,
        write_conll posix "corpus/out.conll" data None TAB = Ok text
        /\ read_conll text (column_spec (map fst data)) TAB
           = Ok [("tok", [["a"; "b"]])]
        /\ read_conll text (column_spec (map fst data)) TAB <> Ok data)
  /\ (let data := [("tok", [[String "a" (String CR "b")]])] in
      exists text,
        write_conll posix "corpus/out.conll" data None TAB = Ok text
        /\ read_conll text (column_spec (map fst data)) TAB
           = Ok [("tok", [["a"; "b"]])]
        /\ read_conll text (column_spec (map fst data)) TAB <> Ok data)
  /\ (exists text,
        write_conll posix "corpus/out.conll" [("tok", [[long_token]])] None TAB
        = Ok text
        /\ read_conll text (column_spec ["tok"]) TAB = Raise CsvError)
  /\ (exists text,
        write_conll posix "corpus/out.conll" demo_data None "::" = Ok text
        /\ read_conll text (column_spec (map fst demo_data)) "::" = Raise TypeError)
  /\ (exists text,
        write_conll posix "corpus/out.conll" demo_data None NL = Ok text
        /\ read_conll text (column_spec (map fst demo_data)) NL <> Ok demo_data)
  /\ (exists text,
        write_conll posix "corpus/out.conll" demo_data None (String CR EmptyString)
        = Ok text
        /\ read_conll text (column_spec (map fst demo_data)) (String CR EmptyString)
           <> Ok demo_data)
  /\ write_conll posix "corpus/out.conll" [] None TAB = Raise IndexError.
Proof.
  repeat (split;
          [first [ exact long_token_refused
                 | eexists; (split; [reflexivity|]);
                   first [ (split; [reflexivity|]); discriminate
                         | reflexivity | discriminate ]
                 | reflexivity ]|]).
  reflexivity.
Qed.

End RoundTrip.

(** ** Recording a step *)

Section Step.

Lemma row_max_from_spec r : forall best p k,
  k < List.length p ->
  nth_error p k = Some best ->
  Forall (fun x => (x <= best)%Q) p ->
  (forall k' x, k' < k -> nth_error p k' = Some x -> (x < best)%Q) ->
  let '(v, i) := row_max_from best (Z.of_nat k) (Z.of_nat (List.length p)) r in
  is_argmax (p ++ r) i v.
Proof.
  induction r as [|x r IH]; intros best p k Hk Hbest Hall Hfirst.
  - simpl. rewrite app_nil_r. unfold is_argmax. rewrite Nat2Z.id.
    repeat split; auto. lia.
  - cbn [row_max_from].
    replace (Z.of_nat (List.length p) + 1)%Z with (Z.of_nat (List.length (p ++ [x])))
      by (rewrite length_app; simpl; lia).
    replace (p ++ x :: r) with ((p ++ [x]) ++ r) by now rewrite <- app_assoc.
    destruct (Qle_bool x best) eqn:E.
    + apply Qle_bool_iff in E. apply IH.
      * rewrite length_app. lia.
      * rewrite nth_error_app1; assumption.
      * apply Forall_app. split; [assumption|now constructor].
      * intros k' y Hk' Hy. apply (Hfirst k' y Hk').
        rewrite nth_error_app1 in Hy; [assumption|lia].
    + assert (Hlt : (best < x)%Q).
      { apply Qnot_le_lt. intros H. apply Qle_bool_iff in H. congruence. }
      apply IH.
      * rewrite length_app. simpl. lia.
      * rewrite nth_error_app2 by lia. now rewrite Nat.sub_diag.
      * apply Forall_app. split.
        -- eapply Forall_impl; [|exact Hall]. intros y Hy. simpl in Hy.
           apply Qlt_le_weak. eapply Qle_lt_trans; eauto.
        -- constructor; [apply Qle_refl|constructor].
      * intros k' y Hk' Hy. rewrite nth_error_app1 in Hy by assumption.
        apply nth_error_In in Hy. rewrite Forall_forall in Hall.
        eapply Qle_lt_trans; [apply Hall, Hy|assumption].
Qed.

Lemma max_of_spec row :
  row <> [] -> is_argmax row (snd (max_of row)) (fst (max_of row)).
Proof.
  destruct row as [|x r]; [congruence|intros _].
  pose proof (row_max_from_spec r x [x] 0) as H. cbn [List.length Z.of_nat] in H.
  change (Z.pos (Pos.of_succ_nat 0)) with 1%Z in H.
  unfold max_of. destruct (row_max_from x 0 1 r) as [v i].
  apply H; simpl; auto.
  - repeat constructor. apply Qle_refl.
  - intros k' y Hk'. lia.
Qed.

Lemma max_dim2_ok scores :
  size2 scores <> 0 ->
  Forall (Forall (fun row => row <> [])) (tolist scores) ->
  max_dim2 scores
  = Ok (map (map (fun row => fst (max_of row))) (tolist scores),
        map (map (fun row => snd (max_of row))) (tolist scores)).
Proof.
  intros Hsize Hne. unfold max_dim2.
  apply Nat.eqb_neq in Hsize. rewrite Hsize.
  rewrite (mapM_ok _ (map max_of)).
  - simpl. rewrite !map_map. f_equal. f_equal.
    + apply map_ext. intros sample. now rewrite map_map.
    + apply map_ext. intros sample. now rewrite map_map.
  - intros sample Hs. rewrite Forall_forall in Hne. specialize (Hne sample Hs).
    apply mapM_ok. intros row Hrow. rewrite Forall_forall in Hne.
    specialize (Hne row Hrow). destruct row; [congruence|reflexivity].
Qed.

Lemma masked_positions_cons b m :
  masked_positions (b :: m)
  = (if (b =? 1)%Z then [0] else []) ++ map S (masked_positions m).
Proof.
  unfold masked_positions. cbn [List.length seq filter nth].
  rewrite <- seq_shift, filter_map_swap. cbn [nth].
  now destruct (b =? 1)%Z.
Qed.

Lemma masked_select_spec {A} (dflt : A) t : forall m,
  List.length t = List.length m ->
  masked_select t (map (fun x => (x =? 1)%Z) m)
  = Ok (map (fun j => nth j t dflt) (masked_positions m)).
Proof.
  induction t as [|x t IH]; intros [|b m] Hlen; simpl in Hlen; try discriminate.
  - reflexivity.
  - cbn [map masked_select]. rewrite IH by lia. cbn [bind].
    rewrite masked_positions_cons, map_app, map_map. cbn [nth].
    now destruct (b =? 1)%Z.
Qed.

Lemma select_sample_spec {A} (dflt : A) (t : list (list A)) mask i :
  i < List.length t ->
  i < List.length mask ->
  List.length (nth i t []) = List.length (nth i mask []) ->
  select_sample t mask i
  = Ok (map (fun j => nth j (nth i t []) dflt) (masked_positions (nth i mask []))).
Proof.
  intros Ht Hm Hlen. unfold select_sample.
  rewrite (getitem_nat []), (getitem_nat []) by assumption. cbn [bind].
  now apply masked_select_spec.
Qed.

Lemma step_loop_spec vals idxs target mask range : forall self,
  Forall (fun i => i < List.length mask
                   /\ i < List.length vals
                   /\ i < List.length idxs
                   /\ i < List.length target
                   /\ List.length (nth i vals []) = List.length (nth i mask [])
                   /\ List.length (nth i idxs []) = List.length (nth i mask [])
                   /\ List.length (nth i target []) = List.length (nth i mask []))
         range ->
  let sel {A} (dflt : A) (t : list (list A)) i :=
    map (fun j => nth j (nth i t []) dflt) (masked_positions (nth i mask [])) in
  step_loop vals idxs target mask range self
  = ({| sizes := sizes self;
        losses := losses self;
        ner_losses := ner_losses self;
        dep_losses := dep_losses self;
        probs := probs self ++ map (sel 0%Q vals) range;
        preds := preds self
                 ++ map (fun i => PList (map PInt (sel 0%Z idxs i))) range;
        golds := golds self
                 ++ map (fun i => PList (map PInt (sel 0%Z target i))) range |},
     Ok tt).
Proof.
  induction range as [|i range IH]; intros self Hall sel.
  - simpl. rewrite !app_nil_r. now destruct self.
  - inversion Hall as [|? ? (H1 & H2 & H3 & H4 & H5 & H6 & H7) Hall']; subst.
    cbn [step_loop].
    rewrite (select_sample_spec 0%Q), (select_sample_spec 0%Z),
      (select_sample_spec 0%Z) by assumption.
    cbn [bind]. rewrite IH by assumption.
    cbn [append_sample sizes losses ner_losses dep_losses probs preds golds map].
    now rewrite <- !app_assoc.
Qed.

Lemma nth_map_default {A B} (f : A -> B) l n d e :
  f d = e -> nth n (map f l) e = f (nth n l d).
Proof. intros <-. apply map_nth. Qed.

Lemma same_shape_row {A B} (t : list (list A)) (u : list (list B)) i :
  map (@List.length _) t = map (@List.length _) u ->
  List.length t = List.length u
  /\ List.length (nth i t []) = List.length (nth i u []).
Proof.
  intros H. split.
  - rewrite <- (length_map (@List.length _) t), H. apply length_map.
  - rewrite <- (map_nth (@List.length A) t []), <- (map_nth (@List.length B) u []).
    now rewrite H.
Qed.

Lemma is_tensor_classes scores :
  size2 scores <> 0 -> is_tensor scores ->
  Forall (Forall (fun row => row <> [])) (tolist scores).
Proof.
  intros Hsize Ht. eapply Forall_impl; [|exact Ht]. intros sample Hs.
  eapply Forall_impl; [|exact Hs]. intros row Hrow ->. simpl in Hrow. lia.
Qed.

(** C3.  Every call of [step] first records the batch, with the number
    of samples of [scores] as its size, even when it raises afterwards.
    On a score tensor with at least one class, and targets and a mask of
    its batch x token shape, it then returns normally and has appended,
    for each sample in order, one entry to the predictions, one to the
    golds and one to the confidences: at the positions where the mask is
    1, in token order, the first index of the largest score, the gold id,
    and the largest score. *)
Theorem step_records_masked_argmax
    (scores : tensor3) (target mask : list (list Z))
    (l n d : Q) (self : EpochStats) :
  let out := step scores target mask l n d self in
  (sizes (fst out) = sizes self ++ [Z.of_nat (List.length (tolist scores))]
   /\ losses (fst out) = losses self ++ [l]
   /\ ner_losses (fst out) = ner_losses self ++ [n]
   /\ dep_losses (fst out) = dep_losses self ++ [d])
  /\ (size2 scores <> 0 ->
      is_tensor scores ->
      map (@List.length _) target = map (@List.length _) (tolist scores) ->
      map (@List.length _) mask = map (@List.length _) (tolist scores) ->
      exists (pred : nat -> nat -> Z) (conf : nat -> nat -> Q),
        (forall i j,
            i < List.length (tolist scores) ->
            j < List.length (nth i (tolist scores) []) ->
            is_argmax (nth j (nth i (tolist scores) []) []) (pred i j) (conf i j))
        /\ snd out = Ok tt
        /\ preds (fst out)
           = preds self
             ++ map (fun i => PList (map (fun j => PInt (pred i j))
                                         (masked_positions (nth i mask []))))
                    (seq 0 (List.length (tolist scores)))
        /\ golds (fst out)
           = golds self
             ++ map (fun i => PList (map (fun j => PInt (nth j (nth i target []) 0%Z))
                                         (masked_positions (nth i mask []))))
                    (seq 0 (List.length (tolist scores)))
        /\ probs (fst out)
           = probs self
             ++ map (fun i => map (fun j => conf i j)
                                  (masked_positions (nth i mask [])))
                    (seq 0 (List.length (tolist scores)))).
Proof.
  intros out. split; [apply step_records_batch|].
  intros Hsize Htensor Htarget Hmask.
  pose proof (is_tensor_classes scores Hsize Htensor) as Hclasses.
  destruct scores as [c rows]. cbn [tolist size2] in *.
  exists (fun i j => snd (max_of (nth j (nth i rows []) []))),
         (fun i j => fst (max_of (nth j (nth i rows []) []))).
  split.
  { intros i j Hi Hj. apply max_of_spec.
    rewrite Forall_forall in Hclasses.
    specialize (Hclasses (nth i rows []) (nth_In _ _ Hi)).
    rewrite Forall_forall in Hclasses. apply Hclasses, nth_In, Hj. }
  subst out. unfold step. rewrite max_dim2_ok by assumption.
  cbn [tolist].
  set (vals := map (map (fun row => fst (max_of row))) rows).
  set (idxs := map (map (fun row => snd (max_of row))) rows).
  rewrite step_loop_spec.
  - cbn [fst snd preds golds probs loss_step].
    split; [reflexivity|]. split; [|split].
    + f_equal. apply map_ext. intros i. f_equal. rewrite map_map.
      apply map_ext. intros j. f_equal. subst idxs.
      rewrite (nth_map_default _ rows i [] []) by reflexivity.
      now apply (nth_map_default (fun row => snd (max_of row)) _ j []).
    + f_equal. apply map_ext. intros i. f_equal. now rewrite map_map.
    + f_equal. apply map_ext. intros i. apply map_ext. intros j. subst vals.
      rewrite (nth_map_default _ rows i [] []) by reflexivity.
      now apply (nth_map_default (fun row => fst (max_of row)) _ j []).
  - apply Forall_forall. intros i Hi. apply in_seq in Hi.
    destruct (same_shape_row mask rows i Hmask) as [Hm Hmi].
    destruct (same_shape_row target rows i Htarget) as [Ht Hti].
    subst vals idxs. rewrite !length_map.
    rewrite !(nth_map_default _ rows i [] []) by reflexivity.
    rewrite !length_map. repeat split; lia.
Qed.

Lemma step_records_masked_argmax_witness :
  let scores := tensor 2 [[[0.1; 0.9]; [0.8; 0.2]; [0.5; 0.5]]]%Q in
  let target := [[1; 0; 1]]%Z in
  let mask := [[1; 1; 0]]%Z in
  let out := step scores target mask 1 2 3 __init__ in
  exists (pred : nat -> nat -> Z) (conf : nat -> nat -> Q),
    (forall i j,
        i < List.length (tolist scores) ->
        j < List.length (nth i (tolist scores) []) ->
        is_argmax (nth j (nth i (tolist scores) []) []) (pred i j) (conf i j))
    /\ snd out = Ok tt
    /\ preds (fst out)
       = map (fun i => PList (map (fun j => PInt (pred i j))
                                  (masked_positions (nth i mask []))))
             (seq 0 (List.length (tolist scores)))
    /\ golds (fst out) = [PList [PInt 1; PInt 0]]
    /\ probs (fst out)
       = map (fun i => map (fun j => conf i j) (masked_positions (nth i mask [])))
             (seq 0 (List.length (tolist scores))).
Proof.
  intros scores target mask out.
  apply (proj2 (step_records_masked_argmax scores target mask 1 2 3 __init__));
    [discriminate| |reflexivity|reflexivity].
  repeat constructor.
Defined.

End Step.

(** ** Mapping ids to labels *)

Section Labels.

Variables (index2label : label_map) (lab : Z -> string).

Lemma map_flat_ids zs :
  (forall z, In z zs -> label_of index2label (PInt z) = Ok (PStr (lab z))) ->
  map_flat index2label (map PInt zs) = Ok (map (fun z => PStr (lab z)) zs).
Proof.
  intros H. unfold map_flat. rewrite mapM_map. now apply mapM_ok.
Qed.

Lemma map_nested_ids zss :
  (forall z, In z (List.concat zss) -> label_of index2label (PInt z) = Ok (PStr (lab z))) ->
  map_nested index2label (map (fun s => PList (map PInt s)) zss)
  = Ok (map (fun s => PList (map (fun z => PStr (lab z)) s)) zss).
Proof.
  intros H. unfold map_nested. rewrite mapM_map. apply mapM_ok.
  intros s Hs. cbn [iterate bind].
  fold (map_flat index2label (map PInt s)). rewrite map_flat_ids; [reflexivity|].
  intros z Hz. apply H, in_concat. now exists s.
Qed.

Lemma map_nested_flat_ids zs :
  zs <> [] -> map_nested index2label (map PInt zs) = Raise TypeError.
Proof. destruct zs; [congruence|reflexivity]. Qed.

(** C9.  [_map_to_labels] accepts both storage shapes.  On nested
    storage every id is replaced by its label at the same
    [sample][token] position.  On flat storage the nested mapping raises
    a [TypeError], which is caught, and the ids are mapped element by
    element. *)
Theorem map_to_labels_both_shapes (self : EpochStats) :
  (forall gss pss : list (list Z),
      golds self = map (fun s => PList (map PInt s)) gss ->
      preds self = map (fun s => PList (map PInt s)) pss ->
      (forall z, In z (List.concat gss ++ List.concat pss) ->
         label_of index2label (PInt z) = Ok (PStr (lab z))) ->
      _map_to_labels self index2label
      = Ok (map (fun s => PList (map (fun z => PStr (lab z)) s)) gss,
            map (fun s => PList (map (fun z => PStr (lab z)) s)) pss))
  /\ (forall gs ps : list Z,
        golds self = map PInt gs ->
        preds self = map PInt ps ->
        (forall z, In z (gs ++ ps) ->
           label_of index2label (PInt z) = Ok (PStr (lab z))) ->
        (gs ++ ps <> [] ->
         map_both map_nested self index2label = Raise TypeError)
        /\ _map_to_labels self index2label
           = Ok (map (fun z => PStr (lab z)) gs, map (fun z => PStr (lab z)) ps)).
Proof.
  split.
  - intros gss pss Hg Hp Hlab. unfold _map_to_labels, map_both.
    rewrite Hg, Hp, !map_nested_ids; [reflexivity| |].
    + intros z Hz. apply Hlab, in_or_app. now right.
    + intros z Hz. apply Hlab, in_or_app. now left.
  - intros gs ps Hg Hp Hlab.
    assert (Hflat : map_both map_flat self index2label
                    = Ok (map (fun z => PStr (lab z)) gs,
                          map (fun z => PStr (lab z)) ps)).
    { unfold map_both. rewrite Hg, Hp, !map_flat_ids; [reflexivity| |].
      - intros z Hz. apply Hlab, in_or_app. now right.
      - intros z Hz. apply Hlab, in_or_app. now left. }
    assert (Hnested : gs ++ ps <> [] ->
                      map_both map_nested self index2label = Raise TypeError).
    { intros Hne. unfold map_both. rewrite Hg, Hp.
      destruct gs as [|g gs]; [|reflexivity].
      destruct ps as [|p ps]; [now simpl in Hne|reflexivity]. }
    split; [exact Hnested|].
    unfold _map_to_labels.
    destruct gs as [|g gs]; [destruct ps as [|p ps]|].
    + unfold map_both. now rewrite Hg, Hp.
    + now rewrite Hnested by discriminate.
    + now rewrite Hnested by discriminate.
Qed.

End Labels.

Lemma map_to_labels_both_shapes_witness :
  let labels := LabelList ["O"; "B-PER"; "I-PER"] in
  let lab := fun z => nth (Z.to_nat z) ["O"; "B-PER"; "I-PER"] EmptyString in
  let flat := {| sizes := []; losses := []; ner_losses := []; dep_losses := [];
                 probs := []; preds := [PInt 0; PInt 1]; golds := [PInt 1; PInt 2] |} in
  let nested := fst (step (tensor 2 [[[0.1; 0.9]; [0.8; 0.2]]]%Q) [[1; 2]]%Z [[1; 1]]%Z
                          1 1 1 __init__) in
  map_both map_nested flat labels = Raise TypeError
  /\ _map_to_labels flat labels
     = Ok ([PStr "B-PER"; PStr "I-PER"], [PStr "O"; PStr "B-PER"])
  /\ _map_to_labels nested labels
     = Ok ([PList [PStr "B-PER"; PStr "I-PER"]], [PList [PStr "B-PER"; PStr "O"]]).
Proof.
  intros labels lab flat nested.
  assert (Hlab : forall z, In z [1; 2; 0; 1]%Z ->
                   label_of labels (PInt z) = Ok (PStr (lab z))).
  { intros z Hz. simpl in Hz.
    repeat (destruct Hz as [<-|Hz]; [reflexivity|]). destruct Hz. }
  destruct (proj2 (map_to_labels_both_shapes labels lab flat)
              [1; 2]%Z [0; 1]%Z eq_refl eq_refl Hlab) as [Hnested Hflat].
  split; [apply Hnested; discriminate|]. split; [exact Hflat|].
  apply (proj1 (map_to_labels_both_shapes labels lab nested)
           [[1; 2]]%Z [[1; 0]]%Z eq_refl eq_refl).
  intros z Hz. apply Hlab. simpl in Hz. simpl. tauto.
Defined.

(** ** Rendering a report *)

Section Rendering.

Lemma insert_by_perm {A} (le : A -> A -> bool) x l :
  Permutation (insert_by le x l) (x :: l).
Proof.
  induction l as [|y l IH]; simpl; [reflexivity|].
  destruct (le x y); [reflexivity|].
  rewrite IH. apply perm_swap.
Qed.

Lemma sorted_perm {A} (le : A -> A -> bool) l : Permutation (sorted le l) l.
Proof.
  induction l as [|x l IH]; simpl; [reflexivity|].
  unfold sorted in IH. now rewrite insert_by_perm, IH.
Qed.

Lemma insert_by_HdRel {A} (le : A -> A -> bool) x y l :
  le y x = true ->
  HdRel (fun a b => le a b = true) y l ->
  HdRel (fun a b => le a b = true) y (insert_by le x l).
Proof.
  intros Hyx Hl. destruct l as [|z l]; simpl.
  - now constructor.
  - destruct (le x z); constructor; [assumption|]. now inversion Hl.
Qed.

Lemma insert_by_Sorted {A} (le : A -> A -> bool) x s :
  (forall a b, le a b = true \/ le b a = true) ->
  Sorted (fun a b => le a b = true) s ->
  Sorted (fun a b => le a b = true) (insert_by le x s).
Proof.
  intros Htotal Hs. induction s as [|y s IHs]; simpl.
  - repeat constructor.
  - destruct (le x y) eqn:E.
    + constructor; [assumption|now constructor].
    + inversion Hs as [|? ? Hs' Hy]; subst.
      constructor; [now apply IHs|].
      apply insert_by_HdRel; [|assumption].
      destruct (Htotal x y); congruence.
Qed.

Lemma sorted_Sorted {A} (le : A -> A -> bool) l :
  (forall a b, le a b = true \/ le b a = true) ->
  Sorted (fun a b => le a b = true) (sorted le l).
Proof.
  intros Htotal. induction l as [|x l IH]; [constructor|].
  unfold sorted in *. cbn [fold_right]. now apply insert_by_Sorted.
Qed.

Lemma StronglySorted_map {A B} (R : A -> A -> Prop) (R' : B -> B -> Prop)
    (f : A -> B) l :
  (forall a b, In a l -> In b l -> R a b -> R' (f a) (f b)) ->
  StronglySorted R l -> StronglySorted R' (map f l).
Proof.
  intros H Hs. induction Hs as [|a l Hl IH Ha]; simpl; constructor.
  - apply IH. intros x y Hx Hy. apply H; now right.
  - apply Forall_map. rewrite Forall_forall in *. intros b Hb.
    apply H; [now left|now right|now apply Ha].
Qed.

Lemma lookup_key {V} (d : list (string * V)) k :
  In k (map fst d) -> exists v, lookup d k = Ok v.
Proof.
  induction d as [|[k' v] d IH]; simpl; [intros []|].
  destruct (String.eqb_spec k' k) as [->|Hne]; [now eexists|].
  intros [H|H]; [contradiction|auto].
Qed.

Lemma contains_lookup {V} (d : list (string * V)) k :
  contains d k = true -> exists v, lookup d k = Ok v.
Proof.
  unfold contains. intros H. apply existsb_exists in H as ([k' v] & Hin & E).
  apply String.eqb_eq in E. simpl in E. subst k'.
  apply lookup_key, in_map_iff. now exists (k, v).
Qed.

Lemma row_of_ok report c r :
  report_getitem report c = Ok r ->
  exists cells, row_of report c = Ok (CStr c :: cells).
Proof.
  intros Hr. unfold row_of.
  match goal with |- context [mapM ?f headers] =>
    destruct (mapM_total f headers) as (cells & ->)
  end.
  - intros h _. rewrite Hr. cbn [bind].
    destruct (contains r h) eqn:E; [|now eexists].
    destruct (contains_lookup r h E) as (v & ->). now eexists.
  - now eexists.
Qed.

Lemma mapM_app {A B} (f : A -> result B) l1 l2 :
  mapM f (l1 ++ l2)
  = (xs <- mapM f l1 ;; ys <- mapM f l2 ;; Ok (xs ++ ys)).
Proof.
  induction l1 as [|a l1 IH]; simpl.
  - now destruct (mapM f l2).
  - destruct (f a); simpl; [|reflexivity]. rewrite IH.
    destruct (mapM f l1); simpl; [|reflexivity].
    now destruct (mapM f l2).
Qed.

Lemma is_aggregate_false c :
  is_aggregate c = false ->
  String.eqb "macro avg" c = false /\ String.eqb "micro avg" c = false
  /\ String.eqb c "macro avg" = false.
Proof.
  unfold is_aggregate. intros H. apply orb_false_iff in H as [H1 H2].
  rewrite (String.eqb_sym "macro avg"), (String.eqb_sym "micro avg"). auto.
Qed.

Lemma existsb_false {A} (f : A -> bool) l :
  (forall x, In x l -> f x = false) -> existsb f l = false.
Proof.
  induction l as [|x l IH]; intros H; simpl; [reflexivity|].
  rewrite (H x) by now left. apply IH. intros y Hy. apply H. now right.
Qed.

Lemma concat_singletons {A B} (g : A -> B) l :
  List.concat (map (fun c => [g c]) l) = map g l.
Proof. induction l as [|x l IH]; simpl; [reflexivity|now rewrite IH]. Qed.

Lemma aggregate_row report c :
  default_factory report = true \/ contains (items report) c = true ->
  exists cells, row_of report c = Ok (CStr c :: cells).
Proof.
  intros H.
  assert (Hr : exists r, report_getitem report c = Ok r).
  { unfold report_getitem. destruct H as [H|H].
    - rewrite H. destruct (lookup (items report) c); now eexists.
    - destruct (contains_lookup _ _ H) as (r & ->). now eexists. }
  destruct Hr as (r & Hr). now apply (row_of_ok report c r).
Qed.

(** C10 (amended).  For a report whose class rows all have a support,
    and that holds the two aggregate rows or is a [defaultdict],
    [printcr] without
    class list and with [sort_by_support] hands [tabulate] the class rows
    by descending support, then a blank row, the "macro avg" row and the
    "micro avg" row, whatever the supports of the two aggregate rows. *)
Theorem printcr_sorted_by_support (report : Report) :
  (forall c r, is_aggregate c = false -> lookup (items report) c = Ok r ->
     exists s, lookup r "support" = Ok s) ->
  (default_factory report = true
   \/ (contains (items report) "macro avg" = true
       /\ contains (items report) "micro avg" = true)) ->
  exists labels rows macro micro,
    printcr report None true
    = Ok (rows ++ [[]; CStr "macro avg" :: macro; CStr "micro avg" :: micro])
    /\ Forall2 (fun c row => row_of report c = Ok row
                             /\ exists cells, row = CStr c :: cells)
               labels rows
    /\ Permutation labels (class_keys report)
    /\ StronglySorted (fun a b => (support_of report b <= support_of report a)%Q)
                      labels.
Proof.
  intros Hsupport Hagg.
  set (le := fun x y : string * Q => Qle_bool (snd y) (snd x)).
  set (keyed := map (fun c => (c, support_of report c)) (class_keys report)).
  set (labels := map fst (sorted le keyed)).
  set (rowv := fun c => match row_of report c with Ok row => row | Raise _ => [] end).
  assert (Hclass : forall c, In c (class_keys report) ->
             is_aggregate c = false /\ exists r, lookup (items report) c = Ok r).
  { intros c Hc. apply filter_In in Hc as [Hin Hna].
    apply negb_true_iff in Hna. split; [assumption|now apply lookup_key]. }
  assert (Hkeyed :
            mapM (fun c : string =>
                    r <- report_getitem report c ;;
                    s <- lookup r "support" ;;
                    Ok (c, s))
                 (class_keys report) = Ok keyed).
  { apply mapM_ok. intros c Hc. destruct (Hclass c Hc) as [Hna (r & Hr)].
    destruct (Hsupport c r Hna Hr) as (s & Hs).
    unfold report_getitem, support_of. rewrite Hr. cbn [bind]. now rewrite Hs. }
  assert (Hperm : Permutation labels (class_keys report)).
  { subst labels. rewrite (sorted_perm le keyed). subst keyed.
    rewrite map_map. cbn [fst]. now rewrite map_id. }
  assert (Hlabels : forall c, In c labels ->
             is_aggregate c = false /\ exists r, lookup (items report) c = Ok r).
  { intros c Hc. apply Hclass. eapply Permutation_in; eauto. }
  assert (Hsorted : StronglySorted
                      (fun a b => (support_of report b <= support_of report a)%Q)
                      labels).
  { subst labels.
    apply (StronglySorted_map (fun a b => le a b = true)).
    - intros p q Hp Hq Hle.
      assert (Hkey : forall x, In x (sorted le keyed) ->
                       snd x = support_of report (fst x)).
      { intros x Hx. apply (Permutation_in _ (sorted_perm le keyed)) in Hx.
        subst keyed. apply in_map_iff in Hx as (c & <- & _). reflexivity. }
      rewrite <- (Hkey p Hp), <- (Hkey q Hq). now apply Qle_bool_iff.
    - apply Sorted_StronglySorted.
      + intros a b c Hab Hbc. unfold le in *.
        apply Qle_bool_iff in Hab, Hbc. apply Qle_bool_iff.
        eapply Qle_trans; eauto.
      + apply sorted_Sorted. intros a b. unfold le.
        destruct (Qlt_le_dec (snd a) (snd b)) as [H|H].
        * right. apply Qle_bool_iff. now apply Qlt_le_weak.
        * left. now apply Qle_bool_iff. }
  destruct (aggregate_row report "macro avg") as (macro & Hmacro); [tauto|].
  destruct (aggregate_row report "micro avg") as (micro & Hmicro); [tauto|].
  exists labels, (map rowv labels), macro, micro.
  split; [|split; [|split]]; try assumption.
  - unfold printcr. fold (class_keys report). rewrite Hkeyed.
    cbn [bind]. fold le. fold labels.
    rewrite (existsb_false _ labels)
      by (intros c Hc; now apply is_aggregate_false, Hlabels).
    rewrite existsb_app, (existsb_false _ labels)
      by (intros c Hc; now apply is_aggregate_false, Hlabels).
    cbn [existsb orb].
    replace (String.eqb "micro avg" "macro avg") with false by reflexivity.
    cbn [orb].
    rewrite !mapM_app.
    rewrite (mapM_ok _ (fun c => [rowv c])).
    + cbn [mapM bind]. rewrite Hmacro, Hmicro. cbn [bind].
      replace (String.eqb "macro avg" "macro avg") with true by reflexivity.
      replace (String.eqb "micro avg" "macro avg") with false by reflexivity.
      cbn [bind app]. rewrite !concat_app, concat_singletons.
      cbn [List.concat app]. now rewrite <- app_assoc.
    + intros c Hc. destruct (Hlabels c Hc) as [Hna (r & Hr)].
      destruct (row_of_ok report c r) as (cells & Hrow).
      { unfold report_getitem. now rewrite Hr. }
      unfold rowv. rewrite Hrow. cbn [bind].
      destruct (is_aggregate_false c Hna) as (_ & _ & ->). reflexivity.
  - clear -Hlabels. induction labels as [|c labels IH]; [constructor|].
    cbn [map]. constructor.
    + destruct (Hlabels c (or_introl eq_refl)) as [_ (r & Hr)].
      destruct (row_of_ok report c r) as (cells & Hrow).
      { unfold report_getitem. now rewrite Hr. }
      subst rowv. cbv beta. rewrite Hrow. split; [reflexivity|now exists cells].
    + apply IH. intros c' Hc'. apply Hlabels. now right.
Qed.

Lemma printcr_sorted_by_support_witness :
  let report :=
    {| items := [("PER", [("precision", 0.5); ("support", 3)]);
                 ("micro avg", [("support", 100)]);
                 ("LOC", [("support", 7)]);
                 ("macro avg", [("support", 50)]);
                 ("ORG", [("support", 3)])]%Q;
       default_factory := false |} in
  exists labels rows macro micro,
    printcr report None true
    = Ok (rows ++ [[]; CStr "macro avg" :: macro; CStr "micro avg" :: micro])
    /\ Forall2 (fun c row => row_of report c = Ok row
                             /\ exists cells, row = CStr c :: cells)
               labels rows
    /\ Permutation labels (class_keys report)
    /\ StronglySorted (fun a b => (support_of report b <= support_of report a)%Q)
                      labels.
Proof.
  intros report. apply (printcr_sorted_by_support report).
  - intros c r Hna Hr. unfold report in Hr. cbn [lookup items] in Hr.
    repeat match type of Hr with
           | (if String.eqb ?k c then _ else _) = _ =>
               destruct (String.eqb_spec k c) as [<-|_];
               [first [now (cbv in Hna) | injection Hr as <-; now eexists]|]
           end.
    discriminate Hr.
  - right. split; reflexivity.
Defined.

(** C10, as stated, fails: the aggregate rows are appended to the list
    of classes, not to the report, so on a plain dict without them
    [printcr] raises a [KeyError] instead of rendering them; and it
    raises as well when a class row has no support to sort by. *)
Lemma printcr_plain_dict_counterexample :
  (let report :=
     {| items := [("PER", [("support", 3)]); ("LOC", [("support", 7)])]%Q;
        default_factory := false |} in
   contains (items report) "macro avg" = false
   /\ printcr report None true = Raise KeyError)
  /\ (let report :=
        {| items := [("PER", [("precision", 0.5)]);
                     ("macro avg", [("support", 1)]);
                     ("micro avg", [("support", 1)])]%Q;
           default_factory := false |} in
      printcr report None true = Raise KeyError).
Proof. repeat split. Qed.

End Rendering.

(** * Further properties *)

(** ** The accumulator over a whole history *)

Section Histories.

Local Open Scope Q_scope.

(** X1.  After any sequence of calls the four per-batch lists have one
    entry per call, also for the [step] calls that raised. *)
Theorem history_batches_aligned (h : list call) :
  List.length (sizes (run h)) = List.length h
  /\ List.length (losses (run h)) = List.length h
  /\ List.length (ner_losses (run h)) = List.length h
  /\ List.length (dep_losses (run h)) = List.length h.
Proof.
  destruct (run_lists h) as (-> & -> & -> & ->).
  now rewrite !length_map.
Qed.

Lemma masked_select_length {A} (t : list A) : forall m r,
  masked_select t m = Ok r ->
  List.length t = List.length m
  /\ List.length r = List.length (filter (fun b : bool => b) m).
Proof.
  induction t as [|x t IH]; intros [|b m] r H; simpl in H; try discriminate.
  - injection H as <-. split; reflexivity.
  - destruct (masked_select t m) as [r'|] eqn:E; simpl in H; [|discriminate].
    injection H as <-. destruct (IH m r' E) as [Hlen Hr].
    split; [simpl; now rewrite Hlen|].
    destruct b; simpl; now rewrite Hr.
Qed.

Lemma masked_select_raise {A} (t : list A) : forall m e,
  masked_select t m = Raise e -> e = IndexError.
Proof.
  induction t as [|x t IH]; intros [|b m] e H; simpl in H; try congruence.
  destruct (masked_select t m) as [r'|e'] eqn:E; simpl in H; [discriminate|].
  injection H as <-. now apply (IH m).
Qed.

Lemma select_sample_ok {A} (t : list (list A)) mask i r :
  select_sample t mask i = Ok r ->
  (i < List.length t)%nat /\ (i < List.length mask)%nat
  /\ List.length (nth i t []) = List.length (nth i mask [])
  /\ List.length r
     = List.length (filter (fun b : bool => b)
                           (map (fun x => (x =? 1)%Z) (nth i mask []))).
Proof.
  unfold select_sample. intros H.
  destruct (getitem t (Z.of_nat i)) as [row|] eqn:Et; simpl in H; [|discriminate].
  destruct (getitem mask (Z.of_nat i)) as [m|] eqn:Em; simpl in H; [|discriminate].
  assert (Hrange : forall B (l : list (list B)) x,
             getitem l (Z.of_nat i) = Ok x -> (i < List.length l)%nat /\ x = nth i l []).
  { intros B l x Hx.
    destruct (Nat.lt_ge_cases i (List.length l)) as [Hlt|Hge].
    - split; [assumption|]. rewrite (getitem_nat [] l i Hlt) in Hx. congruence.
    - rewrite getitem_invalid in Hx; [discriminate|]. unfold valid_index. lia. }
  destruct (Hrange _ _ _ Et) as [Ht ->]. destruct (Hrange _ _ _ Em) as [Hm ->].
  destruct (masked_select_length _ _ _ H) as [Hlen Hr].
  rewrite length_map in Hlen. auto.
Qed.

Lemma select_sample_raise {A} (t : list (list A)) mask i e :
  select_sample t mask i = Raise e -> e = IndexError.
Proof.
  unfold select_sample. intros H.
  destruct (getitem t (Z.of_nat i)) as [row|e1] eqn:Et; simpl in H.
  - destruct (getitem mask (Z.of_nat i)) as [m|e2] eqn:Em; simpl in H.
    + now apply masked_select_raise in H.
    + injection H as <-. now apply getitem_raise in Em.
  - injection H as <-. now apply getitem_raise in Et.
Qed.

(** What the loop of [step] does on any input: it appends the samples
    of a prefix of its range, one aligned entry each, and stops at the
    first sample for which a selection raises. *)
Lemma step_loop_general vals idxs target mask range : forall self entries,
  holds_samples self entries ->
  exists new,
    holds_samples (fst (step_loop vals idxs target mask range self)) (entries ++ new)
    /\ (List.length new <= List.length range)%nat
    /\ (snd (step_loop vals idxs target mask range self) = Ok tt
        /\ List.length new = List.length range
        \/ snd (step_loop vals idxs target mask range self) = Raise IndexError
           /\ (List.length new < List.length range)%nat).
Proof.
  induction range as [|i range IH]; intros self entries Hself.
  - exists []. rewrite app_nil_r. simpl. split; [assumption|]. split; [lia|now left].
  - cbn [step_loop].
    destruct (select_sample vals mask i) as [prob_i|e] eqn:E1; cbn [bind].
    2:{ apply select_sample_raise in E1. subst e. exists []. rewrite app_nil_r.
        simpl. split; [assumption|]. split; [lia|right; split; [reflexivity|lia]]. }
    destruct (select_sample idxs mask i) as [pred_i|e] eqn:E2; cbn [bind].
    2:{ apply select_sample_raise in E2. subst e. exists []. rewrite app_nil_r.
        simpl. split; [assumption|]. split; [lia|right; split; [reflexivity|lia]]. }
    destruct (select_sample target mask i) as [gold_i|e] eqn:E3; cbn [bind].
    2:{ apply select_sample_raise in E3. subst e. exists []. rewrite app_nil_r.
        simpl. split; [assumption|]. split; [lia|right; split; [reflexivity|lia]]. }
    destruct (select_sample_ok _ _ _ _ E1) as (_ & _ & _ & L1).
    destruct (select_sample_ok _ _ _ _ E2) as (_ & _ & _ & L2).
    destruct (select_sample_ok _ _ _ _ E3) as (_ & _ & _ & L3).
    destruct (IH (append_sample prob_i pred_i gold_i self)
                 (entries ++ [(prob_i, pred_i, gold_i)])) as (new & Hnew & Hle & Hout).
    { destruct Hself as (Hp & Hd & Hg & Hall). unfold holds_samples, nested_ids.
      cbn [append_sample probs preds golds]. rewrite !map_app. cbn [map fst snd].
      rewrite Hp, Hd, Hg. repeat split; try reflexivity.
      apply Forall_app. split; [assumption|]. constructor; [|constructor].
      cbn [fst snd]. split; congruence. }
    exists ((prob_i, pred_i, gold_i) :: new).
    rewrite <- app_assoc in Hnew. cbn [app] in Hnew.
    split; [assumption|]. cbn [List.length]. split; [lia|].
    destruct Hout as [[Hok Hlen]|[Hraise Hlen]]; [left|right]; split; auto; lia.
Qed.

Lemma holds_samples_loss_step l n d s self entries :
  holds_samples self entries -> holds_samples (loss_step l n d s self) entries.
Proof. intros H. exact H. Qed.

Lemma max_dim2_raise scores e : max_dim2 scores = Raise e -> e = IndexError.
Proof.
  unfold max_dim2. intros H.
  destruct (size2 scores =? 0)%nat; [congruence|].
  destruct (mapM (mapM row_max) (tolist scores)) as [r|e'] eqn:E; simpl in H;
    [discriminate|].
  injection H as <-. apply mapM_raise in E as (sample & _ & E).
  apply mapM_raise in E as (row & _ & E). destruct row; simpl in E; congruence.
Qed.

Lemma max_dim2_lengths scores vals idxs :
  max_dim2 scores = Ok (vals, idxs) ->
  size2 scores <> 0%nat
  /\ Forall (Forall (fun row => row <> [])) (tolist scores)
  /\ map (@List.length _) vals = map (@List.length _) (tolist scores)
  /\ map (@List.length _) idxs = map (@List.length _) (tolist scores).
Proof.
  unfold max_dim2. intros H.
  destruct (size2 scores =? 0)%nat eqn:Hsize; [discriminate|].
  apply Nat.eqb_neq in Hsize. split; [assumption|].
  destruct (mapM (mapM row_max) (tolist scores)) as [r|] eqn:E; simpl in H;
    [|discriminate].
  injection H as <- <-. apply mapM_Forall2 in E.
  induction E as [|sample rs rows r Hs _ IH]; [repeat split; constructor|].
  destruct IH as (IH1 & IH2 & IH3). cbn [map].
  apply mapM_Forall2 in Hs.
  assert (Hrow : Forall (fun row => row <> []) sample /\ List.length rs = List.length sample).
  { clear -Hs. induction Hs as [|row x sample rs Hx _ [IHa IHb]]; [split; [constructor|reflexivity]|].
    split; [|simpl; now rewrite IHb].
    constructor; [|assumption]. destruct row; [discriminate|discriminate]. }
  destruct Hrow as [Hne Hlen].
  split; [now constructor|]. rewrite !length_map, Hlen, IH2, IH3. now split.
Qed.

(** X2.  After any sequence of calls, failed ones included, the
    predictions, golds and confidences hold the same samples in the same
    order, in the nested shape, and the three sequences of every sample
    are equally long. *)
Theorem history_samples_aligned (h : list call) :
  exists entries, holds_samples (run h) entries.
Proof.
  induction h as [|c h IH] using rev_ind.
  - exists []. repeat split. constructor.
  - destruct IH as (entries & IH). rewrite run_snoc.
    destruct c as [l n d s|scores target mask l n d]; cbn [run_call].
    + now exists entries.
    + unfold step. destruct (max_dim2 scores) as [[vals idxs]|e].
      * destruct (step_loop_general vals idxs target mask
                    (seq 0 (List.length (tolist scores)))
                    (loss_step l n d (Z.of_nat (List.length (tolist scores))) (run h))
                    entries IH) as (new & Hnew & _).
        now exists (entries ++ new).
      * now exists entries.
Qed.

Lemma select_sample_value {A} (dflt : A) (t : list (list A)) mask i r :
  select_sample t mask i = Ok r ->
  r = map (fun j => nth j (nth i t []) dflt) (masked_positions (nth i mask [])).
Proof.
  intros H. destruct (select_sample_ok _ _ _ _ H) as (Ht & Hm & Hlen & _).
  rewrite (select_sample_spec dflt) in H by assumption. congruence.
Qed.

(** The loop of [step] appends the selections of a prefix of its
    range. *)
Lemma step_loop_prefix vals idxs target mask range : forall self entries,
  holds_samples self entries ->
  exists k,
    (k <= List.length range)%nat
    /\ holds_samples (fst (step_loop vals idxs target mask range self))
         (entries
          ++ map (fun i =>
                    let positions := masked_positions (nth i mask []) in
                    (map (fun j => nth j (nth i vals []) 0) positions,
                     map (fun j => nth j (nth i idxs []) 0%Z) positions,
                     map (fun j => nth j (nth i target []) 0%Z) positions))
                 (firstn k range))
    /\ (snd (step_loop vals idxs target mask range self) = Ok tt
        /\ k = List.length range
        \/ snd (step_loop vals idxs target mask range self) = Raise IndexError
           /\ (k < List.length range)%nat).
Proof.
  induction range as [|i range IH]; intros self entries Hself.
  - exists 0%nat. cbn [firstn map]. rewrite app_nil_r. simpl.
    split; [lia|]. split; [assumption|now left].
  - cbn [step_loop].
    destruct (select_sample vals mask i) as [prob_i|e] eqn:E1; cbn [bind].
    2:{ apply select_sample_raise in E1. subst e. exists 0%nat.
        cbn [firstn map]. rewrite app_nil_r. simpl.
        split; [lia|]. split; [assumption|right; split; [reflexivity|lia]]. }
    destruct (select_sample idxs mask i) as [pred_i|e] eqn:E2; cbn [bind].
    2:{ apply select_sample_raise in E2. subst e. exists 0%nat.
        cbn [firstn map]. rewrite app_nil_r. simpl.
        split; [lia|]. split; [assumption|right; split; [reflexivity|lia]]. }
    destruct (select_sample target mask i) as [gold_i|e] eqn:E3; cbn [bind].
    2:{ apply select_sample_raise in E3. subst e. exists 0%nat.
        cbn [firstn map]. rewrite app_nil_r. simpl.
        split; [lia|]. split; [assumption|right; split; [reflexivity|lia]]. }
    destruct (select_sample_ok _ _ _ _ E1) as (_ & _ & _ & L1).
    destruct (select_sample_ok _ _ _ _ E2) as (_ & _ & _ & L2).
    destruct (select_sample_ok _ _ _ _ E3) as (_ & _ & _ & L3).
    destruct (IH (append_sample prob_i pred_i gold_i self)
                 (entries ++ [(prob_i, pred_i, gold_i)])) as (k & Hk & Hnew & Hout).
    { destruct Hself as (Hp & Hd & Hg & Hall). unfold holds_samples, nested_ids.
      cbn [append_sample probs preds golds]. rewrite !map_app. cbn [map fst snd].
      rewrite Hp, Hd, Hg. repeat split; try reflexivity.
      apply Forall_app. split; [assumption|]. constructor; [|constructor].
      cbn [fst snd]. split; congruence. }
    exists (S k). cbn [firstn map List.length].
    rewrite <- app_assoc in Hnew. cbn [app] in Hnew.
    rewrite <- (select_sample_value 0 _ _ _ _ E1),
            <- (select_sample_value 0%Z _ _ _ _ E2),
            <- (select_sample_value 0%Z _ _ _ _ E3).
    split; [lia|]. split; [assumption|].
    destruct Hout as [[Hok Hlen]|[Hraise Hlen]]; [left|right]; split; auto; lia.
Qed.

Lemma firstn_seq_prefix k : forall a n,
  (k <= n)%nat -> firstn k (seq a n) = seq a k.
Proof.
  induction k as [|k IH]; intros a n Hk; [reflexivity|].
  destruct n as [|n]; [lia|]. cbn [seq firstn]. rewrite IH by lia. reflexivity.
Qed.

(** X3.  A call of [step] never changes what is already stored: it
    appends, for the first [k] samples of the batch in order, the
    entries that the mask selects (largest score, first index that holds
    it, gold id).  [k] is the batch size exactly when the call returns
    normally; when it raises, it raises an [IndexError] and has stored
    fewer, none at all when the class dimension is empty. *)
Theorem step_appends_prefix
    (scores : tensor3) (target mask : list (list Z))
    (l n d : Q) (self : EpochStats) (entries : list sample_entry) :
  holds_samples self entries ->
  let out := step scores target mask l n d self in
  exists k,
    holds_samples (fst out)
      (entries ++ map (masked_sample scores target mask) (seq 0 k))
    /\ (snd out = Ok tt /\ k = List.length (tolist scores)
        \/ snd out = Raise IndexError
           /\ ((k < List.length (tolist scores))%nat
               \/ size2 scores = 0%nat /\ k = 0%nat)).
Proof.
  intros Hself out. subst out. unfold step.
  destruct (max_dim2 scores) as [[vals idxs]|e] eqn:E.
  - destruct (max_dim2_lengths _ _ _ E) as (Hsize & Hne & _).
    rewrite (max_dim2_ok scores Hsize Hne) in E. injection E as <- <-.
    destruct (step_loop_prefix
                (map (map (fun row => fst (max_of row))) (tolist scores))
                (map (map (fun row => snd (max_of row))) (tolist scores))
                target mask (seq 0 (List.length (tolist scores)))
                (loss_step l n d (Z.of_nat (List.length (tolist scores))) self)
                entries Hself) as (k & Hk & Hnew & Hout).
    rewrite length_seq in *. exists k.
    rewrite firstn_seq_prefix in Hnew by assumption.
    split.
    + match type of Hnew with
      | holds_samples _ (_ ++ map ?f _) =>
          rewrite (map_ext (masked_sample scores target mask) f); [exact Hnew|]
      end.
      intros i. unfold masked_sample. cbv zeta.
      f_equal. f_equal; apply map_ext; intros j.
      * rewrite (nth_map_default _ (tolist scores) i [] []) by reflexivity.
        symmetry. now apply (nth_map_default (fun row => fst (max_of row)) _ j []).
      * rewrite (nth_map_default _ (tolist scores) i [] []) by reflexivity.
        symmetry. now apply (nth_map_default (fun row => snd (max_of row)) _ j []).
    + destruct Hout as [Hok|[Hr Hlt]]; [now left|right; split; [assumption|now left]].
  - pose proof (max_dim2_raise _ _ E). subst e. exists 0%nat.
    cbn [seq map fst snd]. rewrite app_nil_r.
    split; [assumption|]. right. split; [reflexivity|].
    unfold max_dim2 in E. destruct (size2 scores =? 0)%nat eqn:Hsize.
    + right. apply Nat.eqb_eq in Hsize. now split.
    + left. destruct (tolist scores); [discriminate E|cbn [List.length]; lia].
Qed.

Lemma step_appends_prefix_witness :
  let scores := tensor 2 [[[0.1; 0.9]]; [[0.8; 0.2]]] in
  let target := [[1%Z]; [0%Z]] in
  let mask := [[1%Z]; [1%Z; 1%Z]] in
  let out := step scores target mask 1 2 3 __init__ in
  holds_samples __init__ []
  /\ exists k,
       holds_samples (fst out) ([] ++ map (masked_sample scores target mask) (seq 0 k))
       /\ (snd out = Ok tt /\ k = 2%nat
           \/ snd out = Raise IndexError
              /\ ((k < 2)%nat \/ size2 scores = 0%nat /\ k = 0%nat)).
Proof.
  intros scores target mask out.
  assert (H0 : holds_samples __init__ []) by (repeat split; constructor).
  split; [exact H0|].
  exact (step_appends_prefix scores target mask 1 2 3 __init__ [] H0).
Defined.

Lemma step_loop_ok vals idxs target mask range : forall self,
  snd (step_loop vals idxs target mask range self) = Ok tt ->
  Forall (fun i => (exists r, select_sample vals mask i = Ok r)
                   /\ (exists r, select_sample idxs mask i = Ok r)
                   /\ (exists r, select_sample target mask i = Ok r))
         range.
Proof.
  induction range as [|i range IH]; intros self H; [constructor|].
  cbn [step_loop] in H.
  destruct (select_sample vals mask i) as [prob_i|] eqn:E1; cbn [bind] in H;
    [|discriminate].
  destruct (select_sample idxs mask i) as [pred_i|] eqn:E2; cbn [bind] in H;
    [|discriminate].
  destruct (select_sample target mask i) as [gold_i|] eqn:E3; cbn [bind] in H;
    [|discriminate].
  constructor; [|now apply (IH _ H)].
  repeat split; eexists; first [reflexivity|eassumption].
Qed.

(** X4.  On a score tensor, [step] returns normally exactly when the
    class dimension is not empty and, for each sample of [scores],
    [mask] and [target] have a row with as many tokens as the sample;
    [target] and [mask] may have more rows.  A tensor without classes
    makes it raise even when it has no token. *)
Theorem step_returns_iff
    (scores : tensor3) (target mask : list (list Z))
    (l n d : Q) (self : EpochStats) :
  is_tensor scores ->
  (snd (step scores target mask l n d self) = Ok tt
   <-> size2 scores <> 0%nat
       /\ forall i, (i < List.length (tolist scores))%nat ->
            (i < List.length mask)%nat /\ (i < List.length target)%nat
            /\ List.length (nth i mask []) = List.length (nth i (tolist scores) [])
            /\ List.length (nth i target []) = List.length (nth i (tolist scores) [])).
Proof.
  intros Htensor. unfold step. split.
  - destruct (max_dim2 scores) as [[vals idxs]|e] eqn:E; [|discriminate].
    intros H. destruct (max_dim2_lengths _ _ _ E) as (Hsize & Hne & Hvals & _).
    split; [assumption|]. intros i Hi.
    apply step_loop_ok in H. rewrite Forall_forall in H.
    destruct (H i) as ((r1 & H1) & _ & (r3 & H3)); [apply in_seq; lia|].
    destruct (select_sample_ok _ _ _ _ H1) as (_ & Hm & L1 & _).
    destruct (select_sample_ok _ _ _ _ H3) as (Ht & _ & L3 & _).
    destruct (same_shape_row vals (tolist scores) i Hvals) as [_ Hrow].
    repeat split; try assumption; congruence.
  - intros [Hsize Hshape].
    rewrite max_dim2_ok by (assumption || now apply is_tensor_classes).
    rewrite step_loop_spec; [reflexivity|].
    apply Forall_forall. intros i Hi. apply in_seq in Hi.
    destruct (Hshape i) as (Hm & Ht & Lm & Lt); [lia|].
    rewrite !length_map.
    rewrite !(nth_map_default _ (tolist scores) i [] []) by reflexivity.
    rewrite !length_map. repeat split; lia.
Qed.

Lemma step_returns_iff_witness :
  is_tensor (tensor 0 [[]])
  /\ snd (step (tensor 0 [[]]) [[]] [[]] 1 2 3 __init__) <> Ok tt
  /\ snd (step (tensor 2 [[]]) [[]] [[]] 1 2 3 __init__) = Ok tt.
Proof.
  assert (H0 : is_tensor (tensor 0 [[]])) by (repeat constructor).
  assert (H2 : is_tensor (tensor 2 [[]])) by (repeat constructor).
  split; [exact H0|]. split.
  - intros H.
    apply (proj1 (step_returns_iff (tensor 0 [[]]) [[]] [[]] 1 2 3 __init__ H0)) in H.
    destruct H as [H _]. now apply H.
  - apply (proj2 (step_returns_iff (tensor 2 [[]]) [[]] [[]] 1 2 3 __init__ H2)).
    split; [discriminate|]. intros i Hi. simpl in Hi.
    destruct i as [|i]; [simpl; repeat split; lia|lia].
Defined.

Lemma repeat_by_size_no_weight ls : forall ss,
  Forall (fun s => (s <= 0)%Z) ss -> repeat_by_size ls ss = [].
Proof.
  unfold repeat_by_size. induction ls as [|l ls IH]; intros [|s ss] H; try reflexivity.
  inversion H as [|? ? Hs Hss]; subst. cbn [combine flat_map fst snd].
  rewrite IH by assumption. replace (Z.to_nat s) with 0%nat by lia. reflexivity.
Qed.

(** X6.  When no recorded batch has a positive size (a [step] on an
    empty batch records size 0), [loss] does not raise: it returns NaN as
    the mean, next to the minimum and maximum of the recorded losses. *)
Theorem loss_mean_nan_without_weight (h : list call) (kind : string) :
  h <> [] ->
  Forall (fun c => (call_size c <= 0)%Z) h ->
  exists lo hi, loss (run h) kind = Ok (NaN, lo, hi).
Proof.
  intros Hne Hsizes. unfold loss.
  destruct (run_lists h) as (Hs & Hl & Hn & Hd).
  rewrite repeat_by_size_no_weight by (rewrite Hs; now apply Forall_map).
  assert (Hsel : forall f : call -> Q,
             exists lo hi, np_min (map f h) = Ok lo /\ np_max (map f h) = Ok hi).
  { intros f.
    assert (Hf : map f h <> []) by (intros E; apply map_eq_nil in E; contradiction).
    destruct (np_min_spec _ Hf) as (lo & -> & _).
    destruct (np_max_spec _ Hf) as (hi & -> & _). now exists lo, hi. }
  rewrite Hl, Hn, Hd.
  destruct (String.eqb kind "ner"); [|destruct (String.eqb kind "dep")];
    match goal with |- context [np_min (map ?f h)] =>
      destruct (Hsel f) as (lo & hi & -> & ->) end;
    now exists lo, hi.
Qed.

Lemma loss_mean_nan_without_weight_witness :
  let h := [Step (tensor 2 []) [] [] 1 2 3; LossStep 2 3 4 0] in
  h <> [] /\ Forall (fun c => (call_size c <= 0)%Z) h
  /\ exists lo hi, loss (run h) "ner" = Ok (NaN, lo, hi).
Proof.
  intros h.
  assert (Hne : h <> []) by discriminate.
  assert (Hs : Forall (fun c => (call_size c <= 0)%Z) h)
    by (repeat constructor; discriminate).
  split; [exact Hne|]. split; [exact Hs|].
  exact (loss_mean_nan_without_weight h "ner" Hne Hs).
Defined.

End Histories.

(** ** Label mapping: unknown ids, wrapped ids, mixed shapes *)

Section LabelErrors.

Lemma label_of_int_raise m z e : label_of m (PInt z) = Raise e -> e = label_error m.
Proof.
  destruct m as [l|d]; cbn [label_of label_error].
  - destruct (getitem l z) eqn:G; cbn [bind]; [discriminate|].
    intros H. injection H as <-. now apply getitem_raise in G.
  - assert (Hz : forall e', zlookup d z = Raise e' -> e' = KeyError).
    { induction d as [|[k v] d IH]; simpl; [congruence|].
      destruct (k =? z)%Z; [discriminate|assumption]. }
    destruct (zlookup d z) eqn:G; cbn [bind]; [discriminate|].
    intros H. injection H as <-. now apply Hz.
Qed.

Lemma mapM_first_raise {A B} (f : A -> result B) l e :
  (forall a e', In a l -> f a = Raise e' -> e' = e) ->
  (exists a e', In a l /\ f a = Raise e') ->
  mapM f l = Raise e.
Proof.
  intros Honly (a & e' & Ha & Hf).
  destruct (mapM f l) as [bs|e''] eqn:E.
  - apply mapM_Forall2 in E. exfalso. clear Honly.
    induction E as [|x y l bs Hy _ IH]; [destruct Ha|].
    destruct Ha as [->|Ha]; [congruence|auto].
  - apply mapM_raise in E as (x & Hx & Hfx). f_equal. eapply Honly; eauto.
Qed.

Lemma mapM_raise_only {A B} (f : A -> result B) l e e' :
  (forall a e', In a l -> f a = Raise e' -> e' = e) ->
  mapM f l = Raise e' -> e' = e.
Proof.
  intros Honly H. apply mapM_raise in H as (a & Ha & Hf). eauto.
Qed.

Lemma map_flat_ints_raise m zs e :
  map_flat m (map PInt zs) = Raise e -> e = label_error m.
Proof.
  unfold map_flat. rewrite mapM_map. apply mapM_raise_only.
  intros z e' _. apply label_of_int_raise.
Qed.

Lemma map_flat_ints_unknown m zs z e :
  In z zs -> label_of m (PInt z) = Raise e ->
  map_flat m (map PInt zs) = Raise (label_error m).
Proof.
  intros Hz He. unfold map_flat. rewrite mapM_map. apply mapM_first_raise.
  - intros z' e' _. apply label_of_int_raise.
  - now exists z, e.
Qed.

Lemma map_nested_ints_raise m zss e :
  map_nested m (nested_ids zss) = Raise e -> e = label_error m.
Proof.
  unfold map_nested, nested_ids. rewrite mapM_map. apply mapM_raise_only.
  intros s e' _. cbn [iterate bind].
  fold (map_flat m (map PInt s)).
  destruct (map_flat m (map PInt s)) eqn:E; cbn [bind]; [discriminate|].
  intros H. injection H as <-. now apply map_flat_ints_raise in E.
Qed.

Lemma map_nested_ints_unknown m zss z e :
  In z (List.concat zss) -> label_of m (PInt z) = Raise e ->
  map_nested m (nested_ids zss) = Raise (label_error m).
Proof.
  intros Hz He. apply in_concat in Hz as (s & Hs & Hz).
  unfold map_nested, nested_ids. rewrite mapM_map. apply mapM_first_raise.
  - intros s' e' _. cbn [iterate bind]. fold (map_flat m (map PInt s')).
    destruct (map_flat m (map PInt s')) eqn:E; cbn [bind]; [discriminate|].
    intros H. injection H as <-. now apply map_flat_ints_raise in E.
  - exists s, (label_error m). split; [assumption|]. cbn [iterate bind].
    fold (map_flat m (map PInt s)).
    now rewrite (map_flat_ints_unknown m s z e).
Qed.

Lemma label_error_not_TypeError m : label_error m <> TypeError.
Proof. destruct m; discriminate. Qed.

(** X7.  An id without label is not covered by the [except TypeError]
    of [_map_to_labels]: in either storage shape the call raises the
    [IndexError] of a label list, or the [KeyError] of a label dict. *)
Theorem map_to_labels_unknown_id (self : EpochStats) (index2label : label_map) (z : Z) :
  (exists gss pss,
      golds self = nested_ids gss /\ preds self = nested_ids pss
      /\ In z (List.concat gss ++ List.concat pss))
  \/ (exists gs ps,
         golds self = map PInt gs /\ preds self = map PInt ps /\ In z (gs ++ ps)) ->
  (exists e, label_of index2label (PInt z) = Raise e) ->
  _map_to_labels self index2label = Raise (label_error index2label).
Proof.
  intros Hshape (e & He).
  assert (Hm : forall f gs ps,
             (forall zs e', f index2label zs = Raise e' ->
                            zs = gs \/ zs = ps -> e' = label_error index2label) ->
             (f index2label gs = Raise (label_error index2label)
              \/ f index2label ps = Raise (label_error index2label)) ->
             golds self = gs -> preds self = ps ->
             map_both f self index2label = Raise (label_error index2label)).
  { intros f gs ps Honly Hsome Hg Hp. unfold map_both. rewrite Hg, Hp.
    destruct (f index2label gs) as [g|eg] eqn:Eg; cbn [bind].
    - destruct Hsome as [Hs|Hs]; [discriminate|]. now rewrite Hs.
    - f_equal. eapply Honly; eauto. }
  destruct Hshape as [(gss & pss & Hg & Hp & Hz)|(gs & ps & Hg & Hp & Hz)].
  - unfold _map_to_labels.
    rewrite (Hm map_nested (nested_ids gss) (nested_ids pss)); auto.
    + pose proof (label_error_not_TypeError index2label).
      destruct (label_error index2label); congruence.
    + intros zs e' Hr [->| ->]; now apply map_nested_ints_raise in Hr.
    + apply in_app_or in Hz as [Hz|Hz]; [left|right];
        eapply map_nested_ints_unknown; eauto.
  - assert (Hne : gs ++ ps <> []) by (intros E; rewrite E in Hz; destruct Hz).
    unfold _map_to_labels.
    replace (map_both map_nested self index2label)
      with (Raise TypeError : result (list pyval * list pyval)).
    + apply (Hm map_flat (map PInt gs) (map PInt ps)); auto.
      * intros zs e' Hr [->| ->]; now apply map_flat_ints_raise in Hr.
      * apply in_app_or in Hz as [Hz|Hz]; [left|right];
          eapply map_flat_ints_unknown; eauto.
    + symmetry. unfold map_both. rewrite Hg, Hp.
      destruct gs as [|g gs]; [|reflexivity].
      destruct ps as [|q ps]; [now simpl in Hne|reflexivity].
Qed.

Lemma map_to_labels_unknown_id_witness :
  let self := fst (step (tensor 3 [[[0.1; 0.2; 0.7]]]%Q) [[1%Z]] [[1%Z]] 1 1 1 __init__) in
  _map_to_labels self (LabelList ["O"; "B-PER"]) = Raise IndexError
  /\ _map_to_labels self (LabelDict [(0%Z, "O"); (1%Z, "B-PER")]) = Raise KeyError.
Proof.
  intros self. split.
  - apply (map_to_labels_unknown_id self (LabelList ["O"; "B-PER"]) 2%Z).
    + left. exists [[1%Z]], [[2%Z]]. repeat split. simpl. auto.
    + now exists IndexError.
  - apply (map_to_labels_unknown_id self (LabelDict [(0%Z, "O"); (1%Z, "B-PER")]) 2%Z).
    + left. exists [[1%Z]], [[2%Z]]. repeat split. simpl. auto.
    + now exists KeyError.
Defined.

Lemma getitem_wraps {A} (d : A) (l : list A) (i : Z) :
  valid_index (List.length l) i ->
  getitem l i = Ok (nth (Z.to_nat (i mod Z.of_nat (List.length l))) l d).
Proof.
  unfold valid_index, getitem. intros Hv.
  set (n := Z.of_nat (List.length l)) in *.
  assert (Hmod : (i mod n = if i <? 0 then i + n else i)%Z).
  { destruct (Z.ltb_spec i 0).
    - rewrite <- (Z.mod_small (i + n) n) by lia.
      rewrite <- (Z.mod_add i 1 n) by lia. f_equal. lia.
    - apply Z.mod_small. lia. }
  rewrite Hmod.
  set (k := if (i <? 0)%Z then (i + n)%Z else i) in *.
  assert (Hk : (0 <= k < n)%Z) by (subst k; destruct (Z.ltb_spec i 0); lia).
  replace ((0 <=? k)%Z && (k <? n)%Z) with true
    by (symmetry; apply andb_true_iff; split; [apply Z.leb_le|apply Z.ltb_lt]; lia).
  rewrite (nth_error_nth' l d) by lia. reflexivity.
Qed.

(** X8.  With a list of labels, a negative id is not an error as long
    as it is not below minus the number of labels: every id [z] in
    nested storage is mapped to the label at position [z] modulo the
    number of labels, so [-1] silently becomes the last label. *)
Theorem map_to_labels_wraps_negative_ids
    (self : EpochStats) (labels : list string) (gss pss : list (list Z)) :
  golds self = nested_ids gss ->
  preds self = nested_ids pss ->
  (forall z, In z (List.concat gss ++ List.concat pss) ->
     valid_index (List.length labels) z) ->
  let lab := fun z => nth (Z.to_nat (z mod Z.of_nat (List.length labels)))
                          labels EmptyString in
  _map_to_labels self (LabelList labels)
  = Ok (map (fun s => PList (map (fun z => PStr (lab z)) s)) gss,
        map (fun s => PList (map (fun z => PStr (lab z)) s)) pss).
Proof.
  intros Hg Hp Hvalid lab. unfold _map_to_labels, map_both. rewrite Hg, Hp.
  unfold nested_ids.
  rewrite !(map_nested_ids (LabelList labels) lab); [reflexivity| |].
  - intros z Hz. cbn [label_of].
    rewrite (getitem_wraps EmptyString) by (apply Hvalid, in_or_app; now right).
    reflexivity.
  - intros z Hz. cbn [label_of].
    rewrite (getitem_wraps EmptyString) by (apply Hvalid, in_or_app; now left).
    reflexivity.
Qed.

Lemma map_to_labels_wraps_negative_ids_witness :
  let self := {| sizes := []; losses := []; ner_losses := []; dep_losses := [];
                 probs := []; preds := nested_ids [[0; (-1)]]%Z;
                 golds := nested_ids [[(-3); 2]]%Z |} in
  _map_to_labels self (LabelList ["O"; "B-PER"; "I-PER"])
  = Ok ([PList [PStr "O"; PStr "I-PER"]], [PList [PStr "O"; PStr "I-PER"]]).
Proof.
  intros self.
  apply (map_to_labels_wraps_negative_ids self ["O"; "B-PER"; "I-PER"]
           [[(-3); 2]]%Z [[0; (-1)]]%Z eq_refl eq_refl).
  intros z Hz. unfold valid_index. simpl in Hz.
  repeat (destruct Hz as [<-|Hz]; [simpl; lia|]). destruct Hz.
Defined.

Lemma label_of_list_raises m l : label_of m (PList l) = Raise TypeError.
Proof. now destruct m. Qed.

(** X9.  The two collections must have the same shape: with nested
    golds and flat predictions, or flat golds and nested predictions
    (neither empty, every gold id with a label), [_map_to_labels] raises
    a [TypeError], the one of its [except] branch. *)
Theorem map_to_labels_mixed_shapes
    (self : EpochStats) (index2label : label_map) (lab : Z -> string) :
  (forall gss ps,
      golds self = nested_ids gss -> preds self = map PInt ps ->
      gss <> [] -> ps <> [] ->
      (forall z, In z (List.concat gss) ->
         label_of index2label (PInt z) = Ok (PStr (lab z))) ->
      _map_to_labels self index2label = Raise TypeError)
  /\ (forall gs pss,
        golds self = map PInt gs -> preds self = nested_ids pss ->
        gs <> [] -> pss <> [] ->
        (forall z, In z gs -> label_of index2label (PInt z) = Ok (PStr (lab z))) ->
        _map_to_labels self index2label = Raise TypeError).
Proof.
  split.
  - intros gss ps Hg Hp Hgne Hpne Hlab. unfold _map_to_labels, map_both.
    rewrite Hg, Hp. unfold nested_ids.
    rewrite (map_nested_ids index2label lab) by assumption. cbn [bind].
    rewrite map_nested_flat_ids by assumption.
    destruct gss as [|s gss]; [congruence|]. cbn [map map_flat mapM].
    now rewrite label_of_list_raises.
  - intros gs pss Hg Hp Hgne Hpne Hlab. unfold _map_to_labels, map_both.
    rewrite Hg, Hp. rewrite map_nested_flat_ids by assumption. cbn [bind].
    rewrite (map_flat_ids index2label lab) by assumption. cbn [bind].
    destruct pss as [|s pss]; [congruence|]. cbn [nested_ids map map_flat mapM].
    now rewrite label_of_list_raises.
Qed.

Lemma map_to_labels_mixed_shapes_witness :
  let labels := LabelList ["O"; "B-PER"] in
  let lab := fun z => nth (Z.to_nat z) ["O"; "B-PER"] EmptyString in
  let self := {| sizes := []; losses := []; ner_losses := []; dep_losses := [];
                 probs := []; preds := map PInt [0; 1]%Z;
                 golds := nested_ids [[1; 0]]%Z |} in
  _map_to_labels self labels = Raise TypeError.
Proof.
  intros labels lab self.
  apply (proj1 (map_to_labels_mixed_shapes self labels lab)
           [[1; 0]]%Z [0; 1]%Z eq_refl eq_refl); try discriminate.
  intros z Hz. simpl in Hz.
  repeat (destruct Hz as [<-|Hz]; [reflexivity|]). destruct Hz.
Defined.

(** ** flatten *)

Lemma mapM_concat {A B} (f : A -> result B) (ls : list (list A)) bss :
  mapM (mapM f) ls = Ok bss -> mapM f (List.concat ls) = Ok (List.concat bss).
Proof.
  revert bss. induction ls as [|l ls IH]; intros bss H; simpl in H.
  - injection H as <-. reflexivity.
  - destruct (mapM f l) as [bs|] eqn:E; cbn [bind] in H; [|discriminate].
    destruct (mapM (mapM f) ls) as [bss'|] eqn:E'; cbn [bind] in H; [|discriminate].
    injection H as <-. cbn [List.concat]. rewrite mapM_app, E, (IH bss' eq_refl).
    reflexivity.
Qed.

(** X10.  Flattening commutes with the label mapping: when the nested
    mapping of a collection succeeds, the collection and the result can
    both be flattened, and the flat mapping of the flattened collection
    is the flattened result. *)
Theorem flatten_map_nested (index2label : label_map) (xs ys : list pyval) :
  map_nested index2label xs = Ok ys ->
  exists fx fy,
    flatten xs = Ok fx /\ flatten ys = Ok fy
    /\ map_flat index2label fx = Ok fy.
Proof.
  unfold map_nested, flatten, map_flat. intros H.
  apply mapM_Forall2 in H.
  assert (Hall : exists jss lss,
             mapM iterate xs = Ok jss /\ mapM iterate ys = Ok lss
             /\ mapM (mapM (label_of index2label)) jss = Ok lss).
  { induction H as [|x y xs ys Hxy _ (jss & lss & H1 & H2 & H3)].
    - now exists [], [].
    - destruct (iterate x) as [js|] eqn:Ex; cbn [bind] in Hxy; [|discriminate].
      destruct (mapM (label_of index2label) js) as [ls|] eqn:El; cbn [bind] in Hxy;
        [|discriminate].
      injection Hxy as <-. exists (js :: jss), (ls :: lss).
      cbn [mapM iterate]. now rewrite Ex, H1, H2, El, H3. }
  destruct Hall as (jss & lss & -> & -> & H3). cbn [bind].
  exists (List.concat jss), (List.concat lss).
  repeat split. now apply mapM_concat.
Qed.

Lemma flatten_map_nested_witness :
  let labels := LabelList ["O"; "B-PER"] in
  let xs := nested_ids [[1; 0]; []; [0]]%Z in
  let ys := [PList [PStr "B-PER"; PStr "O"]; PList []; PList [PStr "O"]] in
  exists fx fy,
    flatten xs = Ok fx /\ flatten ys = Ok fy /\ map_flat labels fx = Ok fy.
Proof.
  intros labels xs ys. exact (flatten_map_nested labels xs ys eq_refl).
Defined.

(** X11.  [flatten] raises a [TypeError] exactly when one of the
    elements is an int, as every element of the legacy flat storage is;
    otherwise it returns a list as long as the elements together. *)
Theorem flatten_raises_iff (xs : list pyval) :
  (flatten xs = Raise TypeError <-> exists z, In (PInt z) xs)
  /\ ((forall z, ~ In (PInt z) xs) ->
      exists elems fx,
        mapM iterate xs = Ok elems /\ flatten xs = Ok fx
        /\ List.length fx = list_sum (map (@List.length _) elems)).
Proof.
  assert (Hit : forall x, (exists l, iterate x = Ok l) \/ exists z, x = PInt z).
  { intros [z|str|l]; [right; now exists z|left; now eexists|left; now eexists]. }
  assert (Hok : (forall z, ~ In (PInt z) xs) -> exists elems, mapM iterate xs = Ok elems).
  { intros Hno. apply mapM_total. intros x Hx.
    destruct (Hit x) as [H|(z & ->)]; [assumption|]. now apply Hno in Hx. }
  split; [split|].
  - unfold flatten. intros H.
    destruct (mapM iterate xs) as [elems|e] eqn:E; cbn [bind] in H; [discriminate|].
    apply mapM_raise in E as (x & Hx & Hr).
    destruct (Hit x) as [(l & Hl)|(z & ->)]; [congruence|]. now exists z.
  - intros (z & Hz). unfold flatten.
    rewrite (mapM_first_raise iterate xs TypeError); [reflexivity| |].
    + intros x e _ Hx. destruct x; simpl in Hx; congruence.
    + now exists (PInt z), TypeError.
  - intros Hno. destruct (Hok Hno) as (elems & E).
    exists elems, (List.concat elems). unfold flatten. rewrite E. cbn [bind].
    repeat split. clear. induction elems as [|l elems IH]; [reflexivity|].
    cbn [List.concat map list_sum]. now rewrite length_app, IH.
Qed.

End LabelErrors.

(** ** printcr: the other paths *)

Section RenderingPaths.

Lemma lookup_raise {V} (d : list (string * V)) k e : lookup d k = Raise e -> e = KeyError.
Proof.
  induction d as [|[k' v] d IH]; simpl; [congruence|].
  destruct (String.eqb k' k); [discriminate|assumption].
Qed.

Lemma lookup_missing {V} (d : list (string * V)) k :
  contains d k = false -> lookup d k = Raise KeyError.
Proof.
  intros H. destruct (lookup d k) as [v|e] eqn:E.
  - exfalso. unfold contains in H.
    assert (Hin : exists kv, In kv d /\ String.eqb (fst kv) k = true).
    { clear H. induction d as [|[k' v'] d IH]; simpl in E; [discriminate|].
      destruct (String.eqb k' k) eqn:Ek.
      - exists (k', v'). split; [now left|assumption].
      - destruct (IH E) as (kv & Hkv & Hk). exists kv. split; [now right|assumption]. }
    destruct Hin as (kv & Hkv & Hk).
    assert (existsb (fun kv => String.eqb (fst kv) k) d = true)
      by (apply existsb_exists; now exists kv).
    congruence.
  - f_equal. now apply lookup_raise in E.
Qed.

Lemma row_of_raise report c e :
  report_getitem report c = Raise e -> row_of report c = Raise e.
Proof. intros H. unfold row_of, headers. cbn [mapM]. now rewrite H. Qed.

Lemma row_of_outcome report c :
  (exists cells, row_of report c = Ok (CStr c :: cells))
  \/ row_of report c = Raise KeyError /\ default_factory report = false
     /\ contains (items report) c = false.
Proof.
  destruct (report_getitem report c) as [r|e] eqn:E.
  - left. now apply (row_of_ok report c r).
  - right. unfold report_getitem in E.
    destruct (lookup (items report) c) as [r|e'] eqn:El; [discriminate|].
    destruct (default_factory report) eqn:Ed; [discriminate|].
    injection E as <-. pose proof (lookup_raise _ _ _ El). subst e'.
    split; [apply row_of_raise; unfold report_getitem; now rewrite El, Ed|].
    split; [reflexivity|].
    destruct (contains (items report) c) eqn:Ec; [|reflexivity].
    destruct (contains_lookup _ _ Ec) as (v & Hv). congruence.
Qed.

Lemma mapM_class_rows report labels :
  (forall c, In c labels -> is_aggregate c = false) ->
  mapM (fun c : string =>
          row <- row_of report c ;;
          Ok (if String.eqb c "macro avg" then [[]; row] else [row]))
       labels
  = (rows <- mapM (row_of report) labels ;; Ok (map (fun r => [r]) rows)).
Proof.
  induction labels as [|c labels IH]; intros Hna; [reflexivity|].
  cbn [mapM]. destruct (is_aggregate_false c) as (_ & _ & ->); [apply Hna; now left|].
  rewrite IH by (intros c' Hc'; apply Hna; now right).
  destruct (row_of report c); cbn [bind]; [|reflexivity].
  destruct (mapM (row_of report) labels); reflexivity.
Qed.

(** The rows that a call with explicit classes hands to [tabulate]. *)
Lemma printcr_class_rows
    (report : Report) (labels : list string) (sort_by_support : bool) :
  (forall c, In c labels -> is_aggregate c = false) ->
  printcr report (Some labels) sort_by_support
  = (rows <- mapM (row_of report) labels ;;
     macro <- row_of report "macro avg" ;;
     micro <- row_of report "micro avg" ;;
     Ok (rows ++ [[]; macro; micro])).
Proof.
  intros Hna. unfold printcr. cbn [bind].
  rewrite (existsb_false _ labels)
    by (intros c Hc; now apply is_aggregate_false, Hna).
  rewrite existsb_app, (existsb_false _ labels)
    by (intros c Hc; now apply is_aggregate_false, Hna).
  cbn [existsb orb].
  replace (String.eqb "micro avg" "macro avg") with false by reflexivity.
  cbn [orb]. rewrite !mapM_app, mapM_class_rows by assumption.
  destruct (mapM (row_of report) labels) as [rows|]; cbn [bind]; [|reflexivity].
  cbn [mapM].
  replace (String.eqb "macro avg" "macro avg") with true by reflexivity.
  replace (String.eqb "micro avg" "macro avg") with false by reflexivity.
  destruct (row_of report "macro avg") as [macro|]; cbn [bind]; [|reflexivity].
  destruct (row_of report "micro avg") as [micro|]; cbn [bind]; [|reflexivity].
  rewrite !concat_app. cbn [List.concat app].
  rewrite (concat_singletons (fun r : list cell => r) rows), map_id.
  rewrite <- ?app_assoc. reflexivity.
Qed.

(** X12.  With an explicit list of classes, none of them an aggregate
    name, [printcr] hands [tabulate] the rows of these classes in the
    given order, then a blank row, the "macro avg" row and the
    "micro avg" row; it raises what the first failing row raises, and
    [sort_by_support] plays no part. *)
Theorem printcr_explicit_classes
    (report : Report) (labels : list string) (sort_by_support : bool) :
  (forall c, In c labels -> is_aggregate c = false) ->
  printcr report (Some labels) sort_by_support
  = (rows <- mapM (row_of report) labels ;;
     macro <- row_of report "macro avg" ;;
     micro <- row_of report "micro avg" ;;
     Ok (rows ++ [[]; macro; micro])).
Proof. apply printcr_class_rows. Qed.

Lemma printcr_explicit_classes_witness :
  let report :=
    {| items := [("PER", [("recall", 0.5); ("support", 3)]);
                 ("macro avg", [("support", 5)])]%Q;
       default_factory := true |} in
  printcr report (Some ["LOC"; "PER"]) true
  = Ok [[CStr "LOC"]; [CStr "PER"; CNum (0.5 * 100); CNum 3]; [];
        [CStr "macro avg"; CNum 5]; [CStr "micro avg"]]%Q.
Proof.
  intros report.
  rewrite (printcr_explicit_classes report ["LOC"; "PER"] true).
  - reflexivity.
  - intros c [<-|[<-|[]]]; reflexivity.
Defined.

Lemma class_keys_spec report c :
  In c (class_keys report) ->
  is_aggregate c = false /\ exists r, lookup (items report) c = Ok r.
Proof.
  intros Hc. apply filter_In in Hc as [Hin Hna].
  apply negb_true_iff in Hna. split; [assumption|now apply lookup_key].
Qed.

Lemma class_rows_ok report labels :
  (forall c, In c labels -> exists r, lookup (items report) c = Ok r) ->
  exists rows,
    mapM (row_of report) labels = Ok rows
    /\ Forall2 (fun c row => row_of report c = Ok row
                             /\ exists cells, row = CStr c :: cells)
               labels rows.
Proof.
  intros Hin.
  destruct (mapM_total (row_of report) labels) as (rows & Hrows).
  { intros c Hc. destruct (Hin c Hc) as (r & Hr).
    destruct (row_of_ok report c r) as (cells & ->); [|now eexists].
    unfold report_getitem. now rewrite Hr. }
  exists rows. split; [assumption|].
  apply mapM_Forall2 in Hrows.
  induction Hrows as [|c row labels rows Hrow _ IH]; constructor.
  - split; [assumption|]. destruct (Hin c (or_introl eq_refl)) as (r & Hr).
    destruct (row_of_ok report c r) as (cells & Hc).
    { unfold report_getitem. now rewrite Hr. }
    exists cells. congruence.
  - apply IH. intros c' Hc'. apply Hin. now right.
Qed.

Lemma printcr_alphabetical_unfold report :
  printcr report None false
  = printcr report (Some (sorted String.leb (class_keys report))) false.
Proof. reflexivity. Qed.

(** X13.  The default call (no class list, no sorting by support), on
    a report that holds both aggregate rows or is a [defaultdict], never
    raises, whatever metrics the rows hold: it renders the classes in
    alphabetical order, then a blank row, "macro avg" and "micro avg". *)
Theorem printcr_alphabetical (report : Report) :
  (default_factory report = true
   \/ (contains (items report) "macro avg" = true
       /\ contains (items report) "micro avg" = true)) ->
  exists labels rows macro micro,
    printcr report None false
    = Ok (rows ++ [[]; CStr "macro avg" :: macro; CStr "micro avg" :: micro])
    /\ Forall2 (fun c row => row_of report c = Ok row
                             /\ exists cells, row = CStr c :: cells)
               labels rows
    /\ Permutation labels (class_keys report)
    /\ Sorted (fun a b => String.leb a b = true) labels.
Proof.
  intros Hagg.
  set (labels := sorted String.leb (class_keys report)).
  assert (Hperm : Permutation labels (class_keys report)) by apply sorted_perm.
  assert (Hlabels : forall c, In c labels ->
             is_aggregate c = false /\ exists r, lookup (items report) c = Ok r).
  { intros c Hc. apply class_keys_spec. eapply Permutation_in; eauto. }
  destruct (class_rows_ok report labels) as (rows & Hrows & Hall).
  { intros c Hc. now apply Hlabels. }
  destruct (aggregate_row report "macro avg") as (macro & Hmacro); [tauto|].
  destruct (aggregate_row report "micro avg") as (micro & Hmicro); [tauto|].
  exists labels, rows, macro, micro.
  split; [|split; [assumption|split; [assumption|]]].
  - rewrite printcr_alphabetical_unfold. fold labels.
    rewrite printcr_class_rows by (intros c Hc; now apply Hlabels).
    now rewrite Hrows, Hmacro, Hmicro.
  - apply sorted_Sorted, String.leb_total.
Qed.

Lemma printcr_alphabetical_witness :
  let report :=
    {| items := [("PER", [("precision", 0.5)]); ("LOC", [("support", 7)])]%Q;
       default_factory := true |} in
  exists labels rows macro micro,
    printcr report None false
    = Ok (rows ++ [[]; CStr "macro avg" :: macro; CStr "micro avg" :: micro])
    /\ Forall2 (fun c row => row_of report c = Ok row
                             /\ exists cells, row = CStr c :: cells)
               labels rows
    /\ Permutation labels (class_keys report)
    /\ Sorted (fun a b => String.leb a b = true) labels.
Proof.
  intros report. apply (printcr_alphabetical report). now left.
Defined.

Lemma printcr_by_support_unfold report :
  printcr report None true
  = (keyed <- mapM (fun c : string =>
                      r <- report_getitem report c ;;
                      s <- lookup r "support" ;;
                      Ok (c, s))
                   (class_keys report) ;;
     printcr report
       (Some (map fst (sorted (fun x y : string * Q => Qle_bool (snd y) (snd x)) keyed)))
       true).
Proof.
  unfold printcr. fold (class_keys report).
  now destruct (mapM _ (class_keys report)).
Qed.

Lemma keyed_classes report keyed :
  mapM (fun c : string =>
          r <- report_getitem report c ;;
          s <- lookup r "support" ;;
          Ok (c, s))
       (class_keys report) = Ok keyed ->
  map fst keyed = class_keys report.
Proof.
  intros H. apply mapM_Forall2 in H.
  induction H as [|c y cs ys Hy _ IH]; [reflexivity|].
  cbn [map]. rewrite IH. f_equal.
  destruct (report_getitem report c); cbn [bind] in Hy; [|discriminate].
  destruct (lookup _ "support"); cbn [bind] in Hy; [|discriminate].
  now injection Hy as <-.
Qed.

Lemma keyed_raise report e :
  mapM (fun c : string =>
          r <- report_getitem report c ;;
          s <- lookup r "support" ;;
          Ok (c, s))
       (class_keys report) = Raise e ->
  e = KeyError.
Proof.
  apply mapM_raise_only. intros c e' Hc.
  destruct (class_keys_spec report c Hc) as [_ (r & Hr)].
  unfold report_getitem. rewrite Hr. cbn [bind].
  destruct (lookup r "support") eqn:E; cbn [bind]; [discriminate|].
  intros H. injection H as <-. now apply lookup_raise in E.
Qed.

(** X14.  On a plain dict that lacks "macro avg" or "micro avg",
    [printcr] without class list raises a [KeyError], with either value
    of [sort_by_support]: the aggregate rows are appended to the class
    list, not to the report. *)
Theorem printcr_missing_aggregate (report : Report) (sort_by_support : bool) :
  default_factory report = false ->
  contains (items report) "macro avg" = false
  \/ contains (items report) "micro avg" = false ->
  printcr report None sort_by_support = Raise KeyError.
Proof.
  intros Hplain Hmissing.
  assert (Htable : forall labels,
             Permutation labels (class_keys report) ->
             printcr report (Some labels) sort_by_support = Raise KeyError).
  { intros labels Hperm.
    assert (Hlabels : forall c, In c labels ->
               is_aggregate c = false /\ exists r, lookup (items report) c = Ok r).
    { intros c Hc. apply class_keys_spec. eapply Permutation_in; eauto. }
    rewrite printcr_class_rows by (intros c Hc; now apply Hlabels).
    destruct (class_rows_ok report labels) as (rows & -> & _).
    { intros c Hc. now apply Hlabels. }
    cbn [bind].
    assert (Hrow : forall c, contains (items report) c = false ->
                     row_of report c = Raise KeyError).
    { intros c Hc. apply row_of_raise. unfold report_getitem.
      now rewrite (lookup_missing _ _ Hc), Hplain. }
    destruct Hmissing as [Hm|Hm].
    - now rewrite (Hrow _ Hm).
    - destruct (row_of_outcome report "macro avg") as [(cells & ->)|(-> & _)];
        [cbn [bind]; now rewrite (Hrow _ Hm)|reflexivity]. }
  destruct sort_by_support.
  - rewrite printcr_by_support_unfold.
    match goal with |- context [mapM ?f (class_keys report)] =>
      destruct (mapM f (class_keys report)) as [keyed|e] eqn:E end; cbn [bind].
    + apply Htable. rewrite (sorted_perm _ keyed). now rewrite (keyed_classes _ _ E).
    + f_equal. now apply keyed_raise in E.
  - rewrite printcr_alphabetical_unfold. apply Htable, sorted_perm.
Qed.

Lemma printcr_missing_aggregate_witness :
  let report :=
    {| items := [("PER", [("support", 3)]); ("macro avg", [("support", 3)])]%Q;
       default_factory := false |} in
  printcr report None true = Raise KeyError.
Proof.
  intros report. apply (printcr_missing_aggregate report true); [reflexivity|].
  now right.
Defined.

(** X15.  Sorting by support needs a support for every class: when a
    class row of the report has none, [printcr] without class list and
    with [sort_by_support] raises a [KeyError], also on a
    [defaultdict]. *)
Theorem printcr_missing_support (report : Report) (c : string) (r : list (string * Q)) :
  In c (class_keys report) ->
  lookup (items report) c = Ok r ->
  contains r "support" = false ->
  printcr report None true = Raise KeyError.
Proof.
  intros Hc Hr Hs. rewrite printcr_by_support_unfold.
  match goal with |- context [mapM ?f (class_keys report)] =>
    destruct (mapM f (class_keys report)) as [keyed|e] eqn:E end; cbn [bind].
  - exfalso. apply mapM_Forall2 in E.
    induction E as [|c0 y cs ys Hy _ IH]; [destruct Hc|].
    destruct Hc as [->|Hc]; [|auto].
    unfold report_getitem in Hy. rewrite Hr in Hy. cbn [bind] in Hy.
    now rewrite (lookup_missing _ _ Hs) in Hy.
  - f_equal. now apply keyed_raise in E.
Qed.

Lemma printcr_missing_support_witness :
  let report :=
    {| items := [("PER", [("precision", 0.5)]); ("LOC", [("support", 7)])]%Q;
       default_factory := true |} in
  printcr report None true = Raise KeyError.
Proof.
  intros report.
  apply (printcr_missing_support report "PER" [("precision", 0.5%Q)]);
    [now left|reflexivity|reflexivity].
Defined.

End RenderingPaths.

(** ** What read_conll returns *)

Section ReadResult.

Lemma getitem_ok_valid {A} (l : list A) i a :
  getitem l i = Ok a -> valid_index (List.length l) i.
Proof.
  intros H. unfold valid_index.
  destruct (Z_le_dec (- Z.of_nat (List.length l)) i) as [H1|H1];
    [destruct (Z_lt_dec i (Z.of_nat (List.length l))) as [H2|H2]|].
  - lia.
  - rewrite getitem_invalid in H; [discriminate|unfold valid_index; lia].
  - rewrite getitem_invalid in H; [discriminate|unfold valid_index; lia].
Qed.

(** Whenever [read_conll] returns, the delimiter is one character, the
    lines parse, and every returned column is the column of the blocks at
    its position, which every non-empty row covers. *)
Lemma read_conll_ok_columns text columns delimiter ds :
  read_conll text columns delimiter = Ok ds ->
  exists d rows,
    delimiter = String d EmptyString
    /\ csv_reader d (lines (universal_newlines text)) = Ok rows
    /\ Forall2 (fun c y => fst y = fst c
                           /\ covers rows (snd c)
                           /\ column_at (blocks rows) (snd c) (snd y))
               columns ds.
Proof.
  unfold read_conll. destruct delimiter as [|d [|? ?]]; try discriminate.
  destruct (csv_reader d (lines (universal_newlines text))) as [rows|] eqn:Erows;
    cbn [bind]; [|discriminate].
  intros H. exists d, rows. split; [reflexivity|]. split; [exact Erows|].
  apply mapM_Forall2 in H.
  induction H as [|c y cs ys Hy _ IH]; constructor; [|assumption].
  destruct (getitem (zip_star (read_blocks rows)) (snd c)) as [col|] eqn:G;
    cbn [bind] in Hy; [|discriminate].
  injection Hy as <-. cbn [fst snd].
  assert (Hcov : covers rows (snd c)).
  { apply table_width. rewrite <- length_zip_star. eapply getitem_ok_valid, G. }
  destruct (column_of rows (snd c) Hcov) as (col' & G' & Hat).
  split; [reflexivity|]. split; [assumption|]. congruence.
Qed.

(** X16.  Whatever the file, the columns and the delimiter, a dataset
    that [read_conll] returns has the requested column names in their
    order, the same token count in every column at every sample index,
    and no empty sample. *)
Theorem read_conll_returns_wellformed
    (text : string) (columns : list (string * Z)) (delimiter : string)
    (ds : Dataset) :
  read_conll text columns delimiter = Ok ds ->
  map fst ds = map fst columns
  /\ (forall c c', In c ds -> In c' ds ->
        map (@List.length _) (snd c) = map (@List.length _) (snd c'))
  /\ Forall (fun c => Forall (fun sample => sample <> []) (snd c)) ds.
Proof.
  intros H. destruct (read_conll_ok_columns _ _ _ _ H) as (d & rows & _ & _ & Hall).
  assert (Hcol : Forall (fun y => map (@List.length _) (snd y)
                                  = map (@List.length _) (blocks rows)
                                  /\ Forall (fun sample => sample <> []) (snd y)) ds).
  { clear -Hall. induction Hall as [|c y cs ys (_ & _ & Hy) _ IH]; constructor; auto.
    split; [eapply column_at_lengths, Hy|].
    destruct Hy as (j & _ & ->). apply Forall_map, Forall_forall. intros b Hb.
    destruct (blocks_rows rows b Hb) as [Hne _].
    destruct b; [congruence|discriminate]. }
  rewrite Forall_forall in Hcol. split; [|split].
  - clear -Hall. induction Hall as [|c y cs ys (Hy & _) _ IH]; [reflexivity|].
    simpl. now rewrite Hy, IH.
  - intros c c' Hc Hc'.
    destruct (Hcol c Hc) as [-> _]. now destruct (Hcol c' Hc') as [-> _].
  - apply Forall_forall. intros c Hc. now apply Hcol.
Qed.

Lemma read_conll_returns_wellformed_witness :
  map fst demo_data = ["tok"; "tag"]
  /\ (forall c c', In c demo_data -> In c' demo_data ->
        map (@List.length _) (snd c) = map (@List.length _) (snd c'))
  /\ Forall (fun c => Forall (fun sample => sample <> []) (snd c)) demo_data.
Proof.
  exact (read_conll_returns_wellformed demo_text [("tok", 0%Z); ("tag", 1%Z)] TAB
           demo_data eq_refl).
Defined.

Lemma lines_chars s : forall l c,
  In l (lines s) -> mem_char c l = true -> mem_char c s = true /\ c <> LF.
Proof.
  induction s as [|c0 s IH]; intros l c Hl Hc; simpl in *; [destruct Hl|].
  destruct (Ascii.eqb c0 LF) eqn:E.
  - destruct Hl as [<-|Hl]; [discriminate|].
    destruct (IH l c Hl Hc) as [H1 H2]. rewrite H1. now rewrite orb_true_r.
  - assert (Hhead : forall f, mem_char c (String c0 f) = true ->
               (mem_char c f = true -> mem_char c s = true /\ c <> LF) ->
               Ascii.eqb c0 c || mem_char c s = true /\ c <> LF).
    { intros f Hf Hrest. simpl in Hf. apply orb_true_iff in Hf as [Hf|Hf].
      - rewrite Hf. split; [reflexivity|].
        apply Ascii.eqb_eq in Hf. subst c0. now apply Ascii.eqb_neq.
      - destruct (Hrest Hf) as [H1 H2]. rewrite H1. now rewrite orb_true_r. }
    destruct (lines s) as [|l0 ls] eqn:Es.
    + destruct Hl as [<-|[]]. apply (Hhead EmptyString Hc). discriminate.
    + destruct Hl as [<-|Hl].
      * apply (Hhead l0 Hc). intros Hf. apply (IH l0 c); [now left|assumption].
      * destruct (IH l c (or_intror Hl) Hc) as [H1 H2].
        rewrite H1. now rewrite orb_true_r.
Qed.

Lemma universal_newlines_no_CR_aux s :
  mem_char CR (universal_newlines s) = false
  /\ forall c, mem_char CR (universal_newlines (String c s)) = false.
Proof.
  induction s as [|c0 s [IH1 IH2]].
  - split; [reflexivity|]. intros c. simpl.
    destruct (Ascii.eqb c CR) eqn:E; [reflexivity|]. simpl. now rewrite E.
  - split; [apply IH2|]. intros c.
    change (universal_newlines (String c (String c0 s)))
      with (if Ascii.eqb c CR
            then if Ascii.eqb c0 LF then String LF (universal_newlines s)
                 else String LF (universal_newlines (String c0 s))
            else String c (universal_newlines (String c0 s))).
    destruct (Ascii.eqb c CR) eqn:E.
    + destruct (Ascii.eqb c0 LF); cbn [mem_char]; rewrite ?IH1, ?IH2; reflexivity.
    + cbn [mem_char]. now rewrite E, IH2.
Qed.

Lemma universal_newlines_no_CR s : mem_char CR (universal_newlines s) = false.
Proof. apply universal_newlines_no_CR_aux. Qed.

(** X17.  No token that [read_conll] returns holds the delimiter, a
    line feed or a carriage return. *)
Theorem read_conll_tokens_plain
    (text : string) (columns : list (string * Z)) (d : ascii) (ds : Dataset) :
  read_conll text columns (String d EmptyString) = Ok ds ->
  forall c sample t,
    In c ds -> In sample (snd c) -> In t sample ->
    mem_char d t = false /\ mem_char LF t = false /\ mem_char CR t = false.
Proof.
  intros H c sample t Hc Hs Ht.
  destruct (read_conll_ok_columns _ _ _ _ H) as (d' & rows & Hd & Hrows & Hall).
  injection Hd as <-.
  assert (Hfield : forall r f x,
             In r rows -> In f r -> mem_char x f = true ->
             x <> d /\ x <> LF /\ x <> CR).
  { intros r f x Hr Hf Hx. unfold csv_reader in Hrows.
    apply mapM_Forall2 in Hrows.
    assert (Hline : exists line, In line (lines (universal_newlines text))
                                 /\ csv_row d line = Ok r).
    { clear -Hrows Hr. induction Hrows as [|l y ls ys Hy _ IH]; [destruct Hr|].
      destruct Hr as [->|Hr].
      - exists l. split; [now left|assumption].
      - destruct (IH Hr) as (line & Hin & Hl). exists line. split; [now right|assumption]. }
    destruct Hline as (line & Hline & Hrow).
    destruct (csv_row_fields d line r Hrow) as (Hr' & _).
    destruct line as [|c0 line']; [subst r; destruct Hf|]. subst r.
    destruct (split_on_chars d _ f x Hf Hx) as [Hin Hnd].
    destruct (lines_chars _ _ x Hline Hin) as [Hin' Hnl].
    repeat split; try assumption.
    intros ->. now rewrite universal_newlines_no_CR in Hin'. }
  assert (Hcol : exists y j, In y (blocks rows) /\ sample = map (fun r => nth j r EmptyString) y).
  { clear -Hall Hc Hs. induction Hall as [|c0 y cs ys (_ & _ & (j & _ & Hy)) _ IH];
      [destruct Hc|].
    destruct Hc as [->|Hc]; [|auto].
    rewrite Hy in Hs. apply in_map_iff in Hs as (b & <- & Hb). now exists b, j. }
  destruct Hcol as (b & j & Hb & ->).
  apply in_map_iff in Ht as (r & <- & Hr).
  destruct (blocks_rows rows b Hb) as [_ Hrows'].
  destruct (Hrows' r Hr) as [Hin _].
  assert (Hno : forall x, x = d \/ x = LF \/ x = CR ->
                  mem_char x (nth j r EmptyString) = false).
  { intros x Hx. destruct (mem_char x (nth j r EmptyString)) eqn:E; [|reflexivity].
    destruct (nth_in_or_default j r EmptyString) as [Hf|Hf].
    - destruct (Hfield r _ x Hin Hf E) as (H1 & H2 & H3).
      destruct Hx as [->|[->| ->]]; congruence.
    - rewrite Hf in E. discriminate. }
  repeat split; apply Hno; auto.
Qed.

Lemma read_conll_tokens_plain_witness :
  read_conll demo_text [("tok", 0%Z); ("tag", 1%Z)] TAB = Ok demo_data
  /\ mem_char "009" "B" = false /\ mem_char LF "B" = false
  /\ mem_char CR "B" = false.
Proof.
  split; [reflexivity|].
  apply (read_conll_tokens_plain demo_text [("tok", 0%Z); ("tag", 1%Z)] "009"
           demo_data eq_refl ("tag", [["O"; "B"]; ["O"]]) ["O"; "B"] "B").
  - right. now left.
  - now left.
  - right. now left.
Defined.

End ReadResult.

(** ** Concatenating corpus files *)

Section Concatenation.

Local Open Scope string_scope.

Lemma universal_newlines_app_aux s :
  (forall t, universal_newlines (s ++ String LF t)
             = universal_newlines (s ++ NL) ++ universal_newlines t)
  /\ (forall c t, universal_newlines (String c s ++ String LF t)
                  = universal_newlines (String c s ++ NL) ++ universal_newlines t).
Proof.
  induction s as [|c0 s [IH1 IH2]].
  - split; [reflexivity|]. intros c t. cbn [append universal_newlines].
    destruct (Ascii.eqb c CR); reflexivity.
  - split; [apply IH2|]. intros c t.
    change (universal_newlines (String c (String c0 s) ++ String LF t))
      with (if Ascii.eqb c CR
            then if Ascii.eqb c0 LF
                 then String LF (universal_newlines (s ++ String LF t))
                 else String LF (universal_newlines (String c0 s ++ String LF t))
            else String c (universal_newlines (String c0 s ++ String LF t))).
    change (universal_newlines (String c (String c0 s) ++ NL))
      with (if Ascii.eqb c CR
            then if Ascii.eqb c0 LF
                 then String LF (universal_newlines (s ++ NL))
                 else String LF (universal_newlines (String c0 s ++ NL))
            else String c (universal_newlines (String c0 s ++ NL))).
    rewrite IH1, IH2.
    destruct (Ascii.eqb c CR); [destruct (Ascii.eqb c0 LF)|]; reflexivity.
Qed.

(** Decoding a text that continues after a line feed: the two parts
    decode on their own. *)
Lemma universal_newlines_app s t :
  universal_newlines ((s ++ NL) ++ t)
  = universal_newlines (s ++ NL) ++ universal_newlines t.
Proof.
  rewrite append_assoc. apply universal_newlines_app_aux.
Qed.

Lemma universal_newlines_ends_aux s :
  (exists s', universal_newlines (s ++ NL) = s' ++ NL)
  /\ (forall c, exists s', universal_newlines (String c s ++ NL) = s' ++ NL).
Proof.
  induction s as [|c0 s [(s1 & IH1) IH2]].
  - split; [now exists EmptyString|]. intros c. cbn [append universal_newlines].
    destruct (Ascii.eqb c CR); [now exists EmptyString|].
    now exists (String c EmptyString).
  - split; [apply IH2|]. intros c. destruct (IH2 c0) as (s2 & E2).
    change (universal_newlines (String c (String c0 s) ++ NL))
      with (if Ascii.eqb c CR
            then if Ascii.eqb c0 LF
                 then String LF (universal_newlines (s ++ NL))
                 else String LF (universal_newlines (String c0 s ++ NL))
            else String c (universal_newlines (String c0 s ++ NL))).
    rewrite IH1, E2.
    destruct (Ascii.eqb c CR); [destruct (Ascii.eqb c0 LF)|].
    + now exists (String LF s1).
    + now exists (String LF s2).
    + now exists (String c s2).
Qed.

Lemma lines_terminated_nonempty s : lines (s ++ NL) <> [].
Proof.
  destruct s as [|c s]; cbn [append lines]; [discriminate|].
  destruct (Ascii.eqb c LF); [discriminate|].
  destruct (lines (s ++ NL)); discriminate.
Qed.

(** The lines of a text that continues after a line feed. *)
Lemma lines_app s t : lines ((s ++ NL) ++ t) = (lines (s ++ NL) ++ lines t)%list.
Proof.
  induction s as [|c s IH]; [reflexivity|].
  cbn [append lines]. rewrite IH.
  destruct (Ascii.eqb c LF); [reflexivity|].
  pose proof (lines_terminated_nonempty s) as Hne.
  destruct (lines (s ++ NL)); [congruence|reflexivity].
Qed.

Lemma blocks_cons_row x rows :
  is_empty_line x = false ->
  blocks (x :: rows)
  = match rows with
    | [] => [[x]]
    | y :: _ =>
        if is_empty_line y then [x] :: blocks rows
        else match blocks rows with
             | b :: bs => (x :: b) :: bs
             | [] => [[x]]
             end
    end.
Proof.
  intros Hx. destruct rows as [|y rows'].
  - unfold blocks. simpl. now rewrite Hx.
  - destruct (is_empty_line y) eqn:Ey.
    + change (x :: y :: rows') with ([x] ++ y :: rows')%list.
      apply blocks_run; [discriminate|now repeat constructor|exact Ey].
    + unfold blocks.
      destruct (groupby_head is_empty_line y rows') as (g & gs & E).
      change (groupby is_empty_line (x :: y :: rows'))
        with (match groupby is_empty_line (y :: rows') with
              | (k, g) :: gs =>
                  if Bool.eqb (is_empty_line x) k then (k, x :: g) :: gs
                  else (is_empty_line x, [x]) :: (k, g) :: gs
              | [] => [(is_empty_line x, [x])]
              end).
      rewrite E, Hx, Ey. reflexivity.
Qed.

(** The blocks on the two sides of an empty row. *)
Lemma blocks_app_empty e r : forall rest,
  is_empty_line e = true ->
  blocks (r ++ e :: rest) = (blocks r ++ blocks rest)%list.
Proof.
  intros rest He. induction r as [|x r IH].
  - now apply blocks_empty_row.
  - destruct (is_empty_line x) eqn:Ex.
    + cbn [app]. now rewrite !(blocks_empty_row x) by assumption.
    + change ((x :: r) ++ e :: rest)%list with (x :: (r ++ e :: rest))%list.
      rewrite !(blocks_cons_row x) by assumption.
      destruct r as [|y r'].
      * cbn [app]. rewrite He. now rewrite blocks_empty_row.
      * cbn [app] in *. rewrite IH.
        destruct (is_empty_line y) eqn:Ey; [reflexivity|].
        rewrite (blocks_cons_row y r' Ey).
        destruct r' as [|z r'']; [reflexivity|].
        destruct (is_empty_line z); [reflexivity|].
        destruct (blocks (z :: r'')); reflexivity.
Qed.

Lemma mapM_app_ok {A B} (f : A -> result B) l1 l2 ys :
  mapM f (l1 ++ l2) = Ok ys ->
  exists y1 y2, mapM f l1 = Ok y1 /\ mapM f l2 = Ok y2 /\ ys = (y1 ++ y2)%list.
Proof.
  rewrite mapM_app.
  destruct (mapM f l1) as [y1|]; cbn [bind]; [|discriminate].
  destruct (mapM f l2) as [y2|]; cbn [bind]; [|discriminate].
  intros H. injection H as <-. now exists y1, y2.
Qed.

(** The rows of a file that ends with a blank line, followed by another
    file. *)
Lemma rows_of_concatenation d t1 t2 rows1 rows2 :
  csv_reader d (lines (universal_newlines ((t1 ++ NL) ++ NL))) = Ok rows1 ->
  csv_reader d (lines (universal_newlines t2)) = Ok rows2 ->
  csv_reader d (lines (universal_newlines (((t1 ++ NL) ++ NL) ++ t2)))
  = Ok (rows1 ++ rows2)%list
  /\ blocks (rows1 ++ rows2) = (blocks rows1 ++ blocks rows2)%list.
Proof.
  intros H1 H2.
  destruct (universal_newlines_ends_aux t1) as [(s1 & E1) _].
  assert (Eu : universal_newlines ((t1 ++ NL) ++ NL) = (s1 ++ NL) ++ NL).
  { rewrite universal_newlines_app, E1. reflexivity. }
  rewrite universal_newlines_app, Eu, !lines_app.
  rewrite Eu, lines_app in H1. unfold csv_reader in *.
  apply mapM_app_ok in H1 as (R1 & R2 & HR1 & HR2 & ->).
  assert (R2 = [[]]) as -> by (simpl in HR2; congruence).
  split.
  - rewrite !mapM_app, HR1, H2. reflexivity.
  - rewrite <- app_assoc. cbn [app].
    rewrite !blocks_app_empty by reflexivity. now rewrite app_nil_r.
Qed.

Lemma covers_app rows1 rows2 i :
  covers rows1 i -> covers rows2 i -> covers (rows1 ++ rows2) i.
Proof.
  intros [(r & Hr & He) H1] [_ H2]. split.
  - exists r. split; [apply in_or_app; now left|assumption].
  - intros r' Hr' He'. apply in_app_or in Hr' as [Hr'|Hr']; auto.
Qed.

(** X18.  Corpus files can be concatenated: when a file that ends with
    a blank line and a second file are both read with the same columns,
    none at a negative position, reading the first file followed by the
    second returns, column by column, the samples of the first followed
    by the samples of the second. *)
Theorem read_conll_concatenation
    (t1 t2 : string) (columns : list (string * Z)) (delimiter : string)
    (ds1 ds2 : Dataset) :
  read_conll ((t1 ++ NL) ++ NL) columns delimiter = Ok ds1 ->
  read_conll t2 columns delimiter = Ok ds2 ->
  (forall c, In c columns -> (0 <= snd c)%Z) ->
  read_conll (((t1 ++ NL) ++ NL) ++ t2) columns delimiter
  = Ok (zip_with (fun a b : string * list (list string) =>
                    (fst a, (snd a ++ snd b)%list))
                 ds1 ds2).
Proof.
  intros H1 H2 Hpos.
  destruct (read_conll_ok_columns _ _ _ _ H1) as (d & rows1 & -> & Hr1 & Hall1).
  destruct (read_conll_ok_columns _ _ _ _ H2) as (d' & rows2 & Hd & Hr2 & Hall2).
  injection Hd as <-.
  destruct (rows_of_concatenation d t1 t2 rows1 rows2 Hr1 Hr2) as [Hrows Hblocks].
  destruct (read_conll_covered _ columns d _ Hrows) as (ds & -> & Hall).
  { intros c Hc. apply covers_app.
    - clear -Hall1 Hc. induction Hall1 as [|c0 y cs ys (_ & Hy & _) _ IH]; [destruct Hc|].
      destruct Hc as [->|Hc]; auto.
    - clear -Hall2 Hc. induction Hall2 as [|c0 y cs ys (_ & Hy & _) _ IH]; [destruct Hc|].
      destruct Hc as [->|Hc]; auto. }
  f_equal. rewrite Hblocks in Hall. clear -Hall Hall1 Hall2 Hpos.
  revert ds2 ds Hall2 Hall.
  induction Hall1 as [|c y1 cs ys1 (Hn1 & _ & (j1 & Hj1 & Hc1)) _ IH];
    intros ds2 ds Hall2 Hall.
  - inversion Hall2; subst. now inversion Hall.
  - inversion Hall2 as [|? y2 ? ys2 (Hn2 & _ & (j2 & Hj2 & Hc2)) Hall2']; subst.
    inversion Hall as [|? y ? ys (Hn & (j & Hj & Hc)) Hall']; subst.
    cbn [zip_with]. f_equal.
    + assert (H0 : (0 <= snd c)%Z) by (apply Hpos; now left).
      rewrite (Hj1 H0) in Hc1. rewrite (Hj2 H0) in Hc2. rewrite (Hj H0) in Hc.
      destruct y as [k col]. cbn [fst snd] in *. subst k.
      rewrite Hc, Hc1, Hc2, map_app, Hn1. reflexivity.
    + apply IH; auto. intros c' Hc'. apply Hpos. now right.
Qed.

Lemma read_conll_concatenation_witness :
  let t1 := "a" ++ TAB ++ "O" in
  let t2 := "b" ++ TAB ++ "B" ++ NL ++ "c" ++ TAB ++ "O" in
  read_conll (((t1 ++ NL) ++ NL) ++ t2) [("tok", 0%Z); ("tag", 1%Z)] TAB
  = Ok [("tok", [["a"]; ["b"; "c"]]); ("tag", [["O"]; ["B"; "O"]])].
Proof.
  intros t1 t2.
  apply (read_conll_concatenation t1 t2 [("tok", 0%Z); ("tag", 1%Z)] TAB
           [("tok", [["a"]]); ("tag", [["O"]])]
           [("tok", [["b"; "c"]]); ("tag", [["B"; "O"]])] eq_refl eq_refl).
  intros c [<-|[<-|[]]]; simpl; lia.
Defined.

End Concatenation.

(** ** The shape that write_conll follows *)

Section Writing.

Lemma getitem_nat_ok {A} (d : A) (l : list A) (i : nat) a :
  getitem l (Z.of_nat i) = Ok a -> i < List.length l /\ a = nth i l d.
Proof.
  intros H. destruct (Nat.lt_ge_cases i (List.length l)) as [Hi|Hi].
  - rewrite (getitem_nat d) in H by assumption. injection H as <-. now split.
  - exfalso. apply getitem_ok_valid in H. unfold valid_index in H. lia.
Qed.

Lemma mapM_ok_each {A B} (f : A -> result B) l ys x :
  mapM f l = Ok ys -> In x l -> exists y, f x = Ok y.
Proof.
  revert ys. induction l as [|a l IH]; intros ys H Hx; [destruct Hx|].
  cbn [mapM] in H. destruct (f a) as [b|] eqn:Ea; cbn [bind] in H; [|discriminate].
  destruct (mapM f l) as [bs|]; cbn [bind] in H; [|discriminate].
  destruct Hx as [->|Hx]; [now exists b|]. now apply (IH bs).
Qed.

Lemma nth_map_seq {B} (f : nat -> B) n i d :
  i < n -> nth i (map f (seq 0 n)) d = f i.
Proof.
  intros Hi. rewrite (nth_indep _ d (f 0)) by now rewrite length_map, length_seq.
  rewrite map_nth, seq_nth by assumption. reflexivity.
Qed.

Lemma first_shape_nth c rest i :
  nth i (first_shape (c :: rest)) 0 = List.length (nth i (snd c) []).
Proof.
  cbn [first_shape].
  change 0 with (List.length (@nil string)).
  now rewrite (map_nth (@List.length string) (snd c) []).
Qed.

Variable data : Dataset.
Variable delimiter : string.
Hypothesis keys_unique : NoDup (map fst data).

Lemma write_conll_samples c rest :
  data = c :: rest ->
  conll_text data None delimiter
  = (samples <- mapM (write_sample data delimiter (snd c)) (seq 0 (List.length (snd c))) ;;
     Ok (String.concat EmptyString samples)).
Proof.
  intros E. unfold conll_text, write_rows.
  replace (getitem (map fst data) 0%Z) with (Ok (fst c) : result string)
    by (rewrite E; reflexivity).
  cbn [bind]. rewrite lookup_NoDup by (assumption || (rewrite E; now left)).
  reflexivity.
Qed.

(** When every column has the positions of the first one, the text is
    the one laid out along the first column. *)
Lemma write_conll_written :
  data <> [] ->
  Forall (fun c => covers_shape (first_shape data) (snd c)) data ->
  conll_text data None delimiter = Ok (written delimiter data).
Proof.
  intros Hne Hcov.
  assert (Edata : exists c rest, data = c :: rest).
  { clear -Hne. destruct data as [|c rest]; [congruence|]. now exists c, rest. }
  destruct Edata as (c & rest & E).
  rewrite (write_conll_samples c rest E).
  rewrite Forall_forall in Hcov.
  assert (Hshape : first_shape data = map (@List.length string) (snd c))
    by (rewrite E; reflexivity).
  rewrite (mapM_ok _
             (fun i => (String.concat EmptyString
                          (map (fun j => (String.concat delimiter (token_row data i j) ++ NL)%string)
                               (seq 0 (nth i (first_shape data) 0)))
                        ++ NL)%string)).
  - cbn [bind]. unfold written. f_equal. f_equal. f_equal.
    now rewrite Hshape, length_map.
  - intros i Hi. apply in_seq in Hi. unfold write_sample.
    rewrite (getitem_nat []) by lia. cbn [bind].
    assert (Hm : nth i (first_shape data) 0 = List.length (nth i (snd c) []))
      by (rewrite E; apply first_shape_nth).
    rewrite <- Hm.
    rewrite (mapM_ok _
               (fun j => (String.concat delimiter (token_row data i j) ++ NL)%string));
      [reflexivity|].
    intros j Hj. apply in_seq in Hj. rewrite mapM_map.
    rewrite (mapM_ok _ (fun c : string * list (list string) =>
                          nth j (nth i (snd c) []) EmptyString));
      [reflexivity|].
    intros c' Hc'. rewrite lookup_NoDup by assumption. cbn [bind].
    destruct (Hcov c' Hc' i j) as [Hi' Hj'];
      [rewrite Hshape, length_map; lia|lia|].
    rewrite (getitem_nat []) by assumption. cbn [bind].
    now apply getitem_nat.
Qed.

(** A call that returns has found every position of the first column
    in every column. *)
Lemma write_conll_ok_covers text :
  data <> [] ->
  conll_text data None delimiter = Ok text ->
  Forall (fun c => covers_shape (first_shape data) (snd c)) data.
Proof.
  intros Hne H.
  assert (Edata : exists c rest, data = c :: rest).
  { clear -Hne. destruct data as [|c rest]; [congruence|]. now exists c, rest. }
  destruct Edata as (c & rest & E).
  assert (Hshape : first_shape data = map (@List.length string) (snd c))
    by (rewrite E; reflexivity).
  rewrite (write_conll_samples c rest E) in H.
  destruct (mapM (write_sample data delimiter (snd c)) (seq 0 (List.length (snd c))))
    as [samples|] eqn:Es; [|discriminate].
  apply Forall_forall. intros c' Hc' i j Hi Hj.
  rewrite Hshape, length_map in Hi.
  destruct (mapM_ok_each _ _ _ i Es) as (y & Hy); [apply in_seq; lia|].
  unfold write_sample in Hy. rewrite (getitem_nat []) in Hy by assumption.
  cbn [bind] in Hy.
  assert (Hm : nth i (first_shape data) 0 = List.length (nth i (snd c) []))
    by (rewrite E; apply first_shape_nth).
  rewrite <- Hm in Hy.
  match type of Hy with
  | bind ?m _ = _ => destruct m as [rows|] eqn:Er; [|discriminate]
  end.
  destruct (mapM_ok_each _ _ _ j Er) as (y' & Hy'); [apply in_seq; lia|].
  match type of Hy' with
  | bind ?m _ = _ => destruct m as [row|] eqn:Ew; [|discriminate]
  end.
  destruct (mapM_ok_each _ _ _ (fst c') Ew) as (t & Ht); [now apply in_map|].
  rewrite lookup_NoDup in Ht by assumption. cbn [bind] in Ht.
  destruct (getitem (snd c') (Z.of_nat i)) as [smp|] eqn:Eg; [|discriminate].
  apply (getitem_nat_ok []) in Eg as [Hi' ->]. cbn [bind] in Ht.
  apply (getitem_nat_ok EmptyString) in Ht as [Hj' _]. now split.
Qed.

(** With the dict's own keys no lookup fails: what is raised comes from
    an index. *)
Lemma write_conll_raises_index e :
  conll_text data None delimiter = Raise e -> e = IndexError.
Proof.
  intros H.
  assert (Edata : data = [] \/ exists c rest, data = c :: rest).
  { clear. destruct data as [|c rest]; [now left|right; now exists c, rest]. }
  destruct Edata as [E|(c & rest & E)].
  { rewrite E in H. unfold conll_text in H. simpl in H. congruence. }
  rewrite (write_conll_samples c rest E) in H.
  destruct (mapM (write_sample data delimiter (snd c)) (seq 0 (List.length (snd c))))
    as [samples|e0] eqn:Es; [discriminate|].
  injection H as <-. revert Es. apply mapM_raise_only.
  intros i e1 _. unfold write_sample.
  destruct (getitem (snd c) (Z.of_nat i)) as [sample|e2] eqn:Eg; cbn [bind].
  - match goal with
    | |- bind ?m _ = _ -> _ => destruct m as [rows|e3] eqn:Er; [discriminate|]
    end.
    cbn [bind]. intros H. injection H as <-. revert Er. apply mapM_raise_only.
    intros j e4 _.
    match goal with
    | |- bind ?m _ = _ -> _ => destruct m as [row|e5] eqn:Ew; [discriminate|]
    end.
    cbn [bind]. intros H. injection H as <-. revert Ew. apply mapM_raise_only.
    intros k e6 Hk. apply in_map_iff in Hk as (c' & <- & Hc').
    rewrite lookup_NoDup by assumption. cbn [bind].
    destruct (getitem (snd c') (Z.of_nat i)) as [smp|e7] eqn:Eg'; cbn [bind].
    + apply getitem_raise.
    + intros H. injection H as <-. now apply getitem_raise in Eg'.
  - intros H. injection H as <-. now apply getitem_raise in Eg.
Qed.

(** X19.  [write_conll] follows the shape of the first column.  For a
    non-empty [data] written with its own keys, the call returns exactly
    when the file system lets the file be written ([os.makedirs] of the
    directory part and [open] succeed) and every column has every sample
    and token position that the first column has.  What [os.makedirs]
    raises is raised whatever the data: a [FileNotFoundError] for a
    file name without directory part.  Otherwise the call raises what
    [open] raises or an [IndexError]: a column that is too short is
    never padded. *)
Theorem write_conll_returns_iff (fs : file_system) (filename : string) :
  data <> [] ->
  ((exists text, write_conll fs filename data None delimiter = Ok text)
   <-> writable fs filename
       /\ Forall (fun c => covers_shape (first_shape data) (snd c)) data)
  /\ (forall e, makedirs fs (dirname fs filename) = Raise e ->
                write_conll fs filename data None delimiter = Raise e)
  /\ (forall e, write_conll fs filename data None delimiter = Raise e ->
                makedirs fs (dirname fs filename) = Raise e
                \/ open_w fs filename = Raise e
                \/ e = IndexError).
Proof.
  intros Hne. rewrite write_conll_prelude.
  assert (Hkey : exists k, getitem (map fst data) 0%Z = Ok k).
  { clear -Hne. destruct data as [|c rest]; [congruence|]. now exists (fst c). }
  destruct Hkey as (k & ->). unfold writable.
  destruct (makedirs fs (dirname fs filename)) as [[]|e1]; cbn [bind].
  - destruct (open_w fs filename) as [[]|e2]; cbn [bind].
    + split; [split|split].
      * intros (text & H). split; [now split|].
        now apply (write_conll_ok_covers text).
      * intros [_ Hcov]. exists (written delimiter data).
        now apply write_conll_written.
      * discriminate.
      * intros e H. right. right. now apply write_conll_raises_index.
    + split; [split|split].
      * intros (text & H). discriminate H.
      * intros [[_ H] _]. discriminate H.
      * discriminate.
      * intros e H. injection H as <-. right. now left.
  - split; [split|split].
    + intros (text & H). discriminate H.
    + intros [[H _] _]. discriminate H.
    + intros e H. injection H as <-. reflexivity.
    + intros e H. injection H as <-. now left.
Qed.

End Writing.

Lemma write_conll_returns_iff_witness :
  let data := [("tok", [["a"; "b"]]); ("tag", [["O"]])] in
  write_conll posix "corpus/out.conll" data None TAB = Raise IndexError
  /\ write_conll posix "out.conll" data None TAB = Raise FileNotFoundError.
Proof.
  intros data.
  assert (Hk : NoDup (map fst data)).
  { repeat constructor; simpl; intuition discriminate. }
  assert (Hne : data <> []) by discriminate.
  split.
  - destruct (write_conll_returns_iff data TAB Hk posix "corpus/out.conll" Hne)
      as (_ & _ & Hexn).
    destruct (write_conll posix "corpus/out.conll" data None TAB) as [text|e] eqn:E;
      [discriminate E|].
    destruct (Hexn e eq_refl) as [H | [H | ->]];
      [discriminate H|discriminate H|reflexivity].
  - destruct (write_conll_returns_iff data TAB Hk posix "out.conll" Hne)
      as (_ & Hmake & _).
    now apply Hmake.
Defined.

(** ** Samples and tokens beyond the first column *)

Section Surplus.

Lemma length_cut_to shape col : List.length (cut_to shape col) = List.length shape.
Proof. unfold cut_to. now rewrite length_map, length_seq. Qed.

Lemma nth_cut_to shape col i :
  i < List.length shape ->
  nth i (cut_to shape col) [] = firstn (nth i shape 0) (nth i col []).
Proof. intros Hi. unfold cut_to. now rewrite nth_map_seq. Qed.

Lemma map_fst_cut data : map fst (cut data) = map fst data.
Proof. unfold cut. rewrite map_map. reflexivity. Qed.

Lemma first_shape_cut data : first_shape (cut data) = first_shape data.
Proof.
  destruct data as [|c rest]; [reflexivity|].
  change (first_shape (cut (c :: rest)))
    with (map (@List.length string) (cut_to (first_shape (c :: rest)) (snd c))).
  unfold cut_to. rewrite map_map.
  etransitivity; [|apply (map_nth_seq 0)].
  apply map_ext. intros i.
  rewrite length_firstn, first_shape_nth. apply Nat.min_id.
Qed.

Lemma covers_shape_cut shape col :
  covers_shape shape (cut_to shape col) <-> covers_shape shape col.
Proof.
  split; intros H i j Hi Hj; destruct (H i j Hi Hj) as [Hi' Hj'].
  - rewrite nth_cut_to, length_firstn in Hj' by assumption.
    assert (Hlen : j < List.length (nth i col [])) by lia.
    split; [|assumption].
    destruct (Nat.lt_ge_cases i (List.length col)) as [Hlt|Hge]; [assumption|].
    rewrite (nth_overflow col) in Hlen by assumption. simpl in Hlen. lia.
  - split; [now rewrite length_cut_to|].
    rewrite nth_cut_to, length_firstn by assumption. lia.
Qed.

Lemma covers_cut data :
  Forall (fun c => covers_shape (first_shape (cut data)) (snd c)) (cut data)
  <-> Forall (fun c => covers_shape (first_shape data) (snd c)) data.
Proof.
  rewrite first_shape_cut. unfold cut. rewrite Forall_map. cbn [snd].
  rewrite !Forall_forall. split; intros H c Hc; apply covers_shape_cut, H, Hc.
Qed.

Lemma token_row_cut data i j :
  i < List.length (first_shape data) -> j < nth i (first_shape data) 0 ->
  token_row (cut data) i j = token_row data i j.
Proof.
  intros Hi Hj. unfold token_row, cut. rewrite map_map. apply map_ext.
  intros c. cbn [snd]. rewrite nth_cut_to, nth_firstn by assumption.
  apply Nat.ltb_lt in Hj. now rewrite Hj.
Qed.

Lemma written_cut delimiter data : written delimiter (cut data) = written delimiter data.
Proof.
  unfold written. rewrite first_shape_cut. f_equal. apply map_ext_in.
  intros i Hi. apply in_seq in Hi. f_equal. f_equal. apply map_ext_in.
  intros j Hj. apply in_seq in Hj. rewrite token_row_cut by lia. reflexivity.
Qed.

(** Cutting the columns changes neither the text nor the exception. *)
Lemma conll_text_cut (data : Dataset) (delimiter : string) :
  NoDup (map fst data) ->
  conll_text data None delimiter = conll_text (cut data) None delimiter.
Proof.
  intros Hk. destruct data as [|c rest] eqn:E; [reflexivity|]. rewrite <- E in *.
  assert (Hne : data <> []) by (rewrite E; discriminate).
  assert (Hk' : NoDup (map fst (cut data))) by now rewrite map_fst_cut.
  assert (Hne' : cut data <> []) by (rewrite E; discriminate).
  destruct (conll_text data None delimiter) as [text|e] eqn:Ew.
  - pose proof (write_conll_ok_covers data delimiter Hk text Hne Ew) as Hcov.
    rewrite (write_conll_written data delimiter Hk Hne Hcov) in Ew.
    rewrite (write_conll_written (cut data) delimiter Hk' Hne')
      by now apply covers_cut.
    rewrite written_cut. now rewrite <- Ew.
  - rewrite (write_conll_raises_index data delimiter Hk e Ew).
    destruct (conll_text (cut data) None delimiter) as [text'|e'] eqn:Ew'.
    + pose proof (write_conll_ok_covers (cut data) delimiter Hk' text' Hne' Ew') as Hcov.
      apply (proj1 (covers_cut data)) in Hcov.
      rewrite (write_conll_written data delimiter Hk Hne Hcov) in Ew. discriminate Ew.
    + now rewrite (write_conll_raises_index (cut data) delimiter Hk' e' Ew').
Qed.

(** X20.  [write_conll] never looks beyond the first column: written
    with its own keys, a dict gives the same text, or the same
    exception, as the dict whose columns are cut to the samples and
    tokens of the first column.  Whatever the other columns hold beyond
    them is dropped without notice. *)
Theorem write_conll_ignores_surplus (fs : file_system) (filename : string)
    (data : Dataset) (delimiter : string) :
  NoDup (map fst data) ->
  write_conll fs filename data None delimiter
  = write_conll fs filename (cut data) None delimiter.
Proof.
  intros Hk. rewrite !write_conll_prelude, map_fst_cut.
  now rewrite (conll_text_cut data delimiter Hk).
Qed.

Lemma write_conll_ignores_surplus_witness :
  write_conll posix "corpus/out.conll"
    [("tok", [["a"; "b"]]); ("tag", [["O"; "B"; "X"]; ["Z"]])] None TAB
  = write_conll posix "corpus/out.conll"
      [("tok", [["a"; "b"]]); ("tag", [["O"; "B"]])] None TAB.
Proof.
  apply (write_conll_ignores_surplus posix "corpus/out.conll"
           [("tok", [["a"; "b"]]); ("tag", [["O"; "B"; "X"]; ["Z"]])] TAB).
  repeat constructor; simpl; intuition discriminate.
Defined.

End Surplus.

(** ** Corpora of several files *)

Section CorpusFiles.

Lemma lookup_assign_same {V} (d : list (string * V)) k v :
  lookup (assign d k v) k = Ok v.
Proof.
  induction d as [|[k' v'] r IH]; cbn [assign lookup].
  - now rewrite String.eqb_refl.
  - destruct (String.eqb k' k) eqn:E; cbn [lookup]; now rewrite E.
Qed.

Lemma lookup_assign_other {V} (d : list (string * V)) k v k' :
  k <> k' -> lookup (assign d k v) k' = lookup d k'.
Proof.
  intros Hk. induction d as [|[k0 v0] r IH]; cbn [assign lookup].
  - destruct (String.eqb k k') eqn:E; [|reflexivity].
    apply String.eqb_eq in E. congruence.
  - destruct (String.eqb k0 k) eqn:E; cbn [lookup].
    + apply String.eqb_eq in E. subst k0.
      destruct (String.eqb k k') eqn:E'; [|reflexivity].
      apply String.eqb_eq in E'. congruence.
    + now rewrite IH.
Qed.

Variable splitext : string -> string * string.
Variable join : string -> string -> string.
Variable fs : string -> option string.
Variables (corpus_dir : string) (columns : list (string * Z)) (delimiter : string).

Lemma read_conll_files_returns filenames : forall acc,
  (exists corpus,
     read_conll_files splitext join fs acc corpus_dir filenames columns delimiter
     = Returns corpus)
  <-> (forall f, In f filenames -> readable join fs corpus_dir columns delimiter f).
Proof.
  induction filenames as [|f0 rest IH]; intros acc; cbn [read_conll_files].
  - split; [intros _ f []|intros _; now exists acc].
  - split.
    + intros (corpus & H) f Hf.
      destruct (fs (join corpus_dir f0)) as [text|] eqn:Efs; [|discriminate].
      destruct (read_conll text columns delimiter) as [ds|] eqn:Er; [|discriminate].
      destruct Hf as [<-|Hf].
      * exists text, ds. now split.
      * apply (proj1 (IH (assign acc (fst (splitext f0)) ds)));
          [now exists corpus|assumption].
    + intros Hall. destruct (Hall f0 (or_introl eq_refl)) as (text & ds & -> & ->).
      apply IH. intros f Hf. apply Hall. now right.
Qed.

Lemma read_conll_files_fails pre f post : forall acc,
  (forall g, In g pre -> readable join fs corpus_dir columns delimiter g) ->
  (fs (join corpus_dir f) = None ->
   read_conll_files splitext join fs acc corpus_dir (pre ++ f :: post) columns delimiter
   = NotFound (join corpus_dir f))
  /\ (forall text e,
        fs (join corpus_dir f) = Some text ->
        read_conll text columns delimiter = Raise e ->
        read_conll_files splitext join fs acc corpus_dir (pre ++ f :: post) columns delimiter
        = Raises e).
Proof.
  induction pre as [|g pre IH]; intros acc Hpre; cbn [app read_conll_files].
  - split.
    + now intros ->.
    + intros text e -> ->. reflexivity.
  - destruct (Hpre g (or_introl eq_refl)) as (text & ds & -> & ->).
    apply IH. intros g' Hg'. apply Hpre. now right.
Qed.

Lemma read_conll_files_lookup filenames : forall acc corpus k,
  read_conll_files splitext join fs acc corpus_dir filenames columns delimiter
  = Returns corpus ->
  ((forall f, In f filenames -> fst (splitext f) <> k) ->
   lookup corpus k = lookup acc k)
  /\ (forall pre f post,
        filenames = pre ++ f :: post ->
        fst (splitext f) = k ->
        (forall g, In g post -> fst (splitext g) <> k) ->
        exists text,
          fs (join corpus_dir f) = Some text
          /\ lookup corpus k = read_conll text columns delimiter).
Proof.
  induction filenames as [|f0 rest IH]; intros acc corpus k H;
    cbn [read_conll_files] in H.
  - injection H as <-. split; [reflexivity|].
    intros pre f post E. now destruct pre.
  - destruct (fs (join corpus_dir f0)) as [text|] eqn:Efs; [|discriminate].
    destruct (read_conll text columns delimiter) as [ds|] eqn:Er; [|discriminate].
    destruct (IH _ _ k H) as [IH1 IH2]. split.
    + intros Hno. rewrite IH1 by (intros f Hf; apply Hno; now right).
      apply lookup_assign_other, Hno. now left.
    + intros pre f post E Hk Hpost. destruct pre as [|g pre]; cbn [app] in E.
      * injection E as <- <-. exists text. split; [assumption|].
        rewrite IH1 by assumption. rewrite Hk, Er. apply lookup_assign_same.
      * injection E as <- ->. now apply (IH2 pre f post).
Qed.

(** X21.  [read_conll_corpus] returns exactly when every listed file
    exists and is read by [read_conll]; otherwise the call ends with the
    failure of the first file that is missing or cannot be read, and no
    corpus is returned for the files before it. *)
Theorem read_conll_corpus_first_failure (filenames : list string) :
  ((exists corpus,
      read_conll_corpus splitext join fs corpus_dir filenames columns delimiter
      = Returns corpus)
   <-> (forall f, In f filenames -> readable join fs corpus_dir columns delimiter f))
  /\ (forall pre f post,
        filenames = pre ++ f :: post ->
        (forall g, In g pre -> readable join fs corpus_dir columns delimiter g) ->
        (fs (join corpus_dir f) = None ->
         read_conll_corpus splitext join fs corpus_dir filenames columns delimiter
         = NotFound (join corpus_dir f))
        /\ (forall text e,
              fs (join corpus_dir f) = Some text ->
              read_conll text columns delimiter = Raise e ->
              read_conll_corpus splitext join fs corpus_dir filenames columns delimiter
              = Raises e)).
Proof.
  split.
  - apply read_conll_files_returns.
  - intros pre f post -> Hpre. now apply read_conll_files_fails.
Qed.

(** X22.  The corpus is keyed by file stems, and a later file silently
    replaces an earlier one with the same stem.  When
    [read_conll_corpus] returns, the entry under the stem of a file is
    the dataset read from the last listed file with that stem, and a
    key that is the stem of no listed file is absent. *)
Theorem read_conll_corpus_last_wins (filenames : list string)
    (corpus : list (string * Dataset)) :
  read_conll_corpus splitext join fs corpus_dir filenames columns delimiter
  = Returns corpus ->
  (forall pre f post,
     filenames = pre ++ f :: post ->
     (forall g, In g post -> fst (splitext g) <> fst (splitext f)) ->
     exists text,
       fs (join corpus_dir f) = Some text
       /\ lookup corpus (fst (splitext f)) = read_conll text columns delimiter)
  /\ (forall k,
        (forall f, In f filenames -> fst (splitext f) <> k) ->
        lookup corpus k = Raise KeyError).
Proof.
  intros H. split.
  - intros pre f post E Hpost.
    destruct (read_conll_files_lookup _ _ _ (fst (splitext f)) H) as [_ H2].
    now apply (H2 pre f post).
  - intros k Hk.
    destruct (read_conll_files_lookup _ _ _ k H) as [H1 _].
    now rewrite H1.
Qed.

End CorpusFiles.

Lemma read_conll_corpus_first_failure_witness :
  read_conll_corpus posix_splitext posix_join demo_fs "corpus"
    ["train.txt"; "test.txt"; "dev.txt"] [("tok", 0%Z)] TAB
  = NotFound "corpus/test.txt".
Proof.
  destruct (read_conll_corpus_first_failure posix_splitext posix_join demo_fs
              "corpus" [("tok", 0%Z)] TAB ["train.txt"; "test.txt"; "dev.txt"])
    as [_ H].
  destruct (H ["train.txt"] "test.txt" ["dev.txt"] eq_refl) as [Hnone _].
  - intros g [<-|[]]. exists demo_text, [("tok", [["a"; "b"]; ["c"]])].
    split; reflexivity.
  - apply Hnone. reflexivity.
Defined.

Lemma read_conll_corpus_last_wins_witness :
  exists corpus,
    read_conll_corpus posix_splitext posix_join demo_fs "corpus"
      ["train.txt"; "dev.txt"; "train.conll"] [("tok", 0%Z)] TAB
    = Returns corpus
    /\ lookup corpus "train" = Ok [("tok", [["x"]])]
    /\ lookup corpus "test" = Raise KeyError.
Proof.
  eexists. split; [reflexivity|].
  destruct (read_conll_corpus_last_wins posix_splitext posix_join demo_fs
              "corpus" [("tok", 0%Z)] TAB
              ["train.txt"; "dev.txt"; "train.conll"] _ eq_refl) as [H1 H2].
  split.
  - destruct (H1 ["train.txt"; "dev.txt"] "train.conll" [] eq_refl) as (text & Ht & Hl).
    + intros g [].
    + vm_compute in Ht. injection Ht as <-. exact Hl.
  - apply H2. intros f [<-|[<-|[<-|[]]]]; vm_compute; discriminate.
Defined.

(** ** Nested arguments *)

Section NestedArguments.

(** Induction on a value with the values inside it. *)
Lemma jvalue_induction (P : jvalue -> Prop) :
  P JNull ->
  (forall b, P (JBool b)) ->
  (forall z, P (JInt z)) ->
  (forall q, P (JFloat q)) ->
  (forall s, P (JStr s)) ->
  (forall l, Forall P l -> P (JList l)) ->
  (forall a items, Forall (fun kv => P (snd kv)) items -> P (JDict a items)) ->
  forall v, P v.
Proof.
  intros Hnull Hbool Hint Hfloat Hstr Hlist Hdict.
  fix IH 1. intros [ |b|z|q|s|l|a items].
  - exact Hnull.
  - apply Hbool.
  - apply Hint.
  - apply Hfloat.
  - apply Hstr.
  - apply Hlist.
    exact ((fix go (l : list jvalue) : Forall P l :=
              match l with
              | [] => Forall_nil P
              | x :: r => Forall_cons x (IH x) (go r)
              end) l).
  - apply Hdict.
    exact ((fix go (items : list (string * jvalue))
              : Forall (fun kv => P (snd kv)) items :=
              match items with
              | [] => Forall_nil _
              | (k, x) :: r =>
                  Forall_cons (P := fun kv => P (snd kv)) (k, x) (IH x) (go r)
              end) items).
Qed.

Lemma lookup_map_values {V W} (f : V -> W) (d : list (string * V)) k :
  lookup (map (fun kv : string * V => let (key, v) := kv in (key, f v)) d) k
  = (v <- lookup d k ;; Ok (f v)).
Proof.
  induction d as [|[k' v'] r IH]; cbn [map lookup]; [reflexivity|].
  destruct (String.eqb k' k); [reflexivity|exact IH].
Qed.

Lemma subscript_key_from_nested_dict data k :
  subscript (from_nested_dict data) (Key k)
  = (v <- subscript data (Key k) ;; Ok (from_nested_dict v)).
Proof.
  destruct data; try reflexivity.
  cbn [from_nested_dict subscript]. apply lookup_map_values.
Qed.

Lemma subscript_index_from_nested_dict data i :
  subscript (from_nested_dict data) (Index i) = subscript data (Index i).
Proof. destruct data; reflexivity. Qed.

(** X23.  Subscripting with keys commutes with [from_nested_dict]: a
    chain of keys [data[k1][k2]...] leads in the converted value to the
    conversion of what it leads to in [data], and raises what it raises
    there. *)
Theorem from_nested_dict_key_path (data : jvalue) (keys : list string) :
  get_path (from_nested_dict data) (map Key keys)
  = (v <- get_path data (map Key keys) ;; Ok (from_nested_dict v)).
Proof.
  revert data. induction keys as [|k keys IH]; intros data; [reflexivity|].
  cbn [map get_path]. rewrite subscript_key_from_nested_dict.
  destruct (subscript data (Key k)) as [v|e]; cbn [bind]; [apply IH|reflexivity].
Qed.

(** X24.  [from_nested_dict] stops at lists: whatever is reached through
    a list position, after any chain of keys, is the value of [data]
    itself, so a dict inside a list stays a plain dict. *)
Theorem from_nested_dict_stops_at_lists
    (data : jvalue) (keys : list string) (i : Z) (rest : list jstep) :
  get_path (from_nested_dict data) (map Key keys ++ Index i :: rest)
  = get_path data (map Key keys ++ Index i :: rest).
Proof.
  revert data. induction keys as [|k keys IH]; intros data; cbn [map app get_path].
  - now rewrite subscript_index_from_nested_dict.
  - rewrite subscript_key_from_nested_dict.
    destruct (subscript data (Key k)) as [v|e]; cbn [bind]; [apply IH|reflexivity].
Qed.

(** X25.  [from_nested_dict] changes types only.  The result holds the
    same keys and values as [data] (it compares equal to it), every dict
    reached through dict values is an [Arguments], and converting again
    changes nothing. *)
Theorem from_nested_dict_same_data (data : jvalue) :
  plain (from_nested_dict data) = plain data
  /\ attribute_tree (from_nested_dict data) = true
  /\ from_nested_dict (from_nested_dict data) = from_nested_dict data.
Proof.
  induction data as [ |b|z|q|s|l _|a items IH] using jvalue_induction;
    try (repeat split; reflexivity).
  cbn [from_nested_dict plain attribute_tree andb].
  rewrite !map_map.
  assert (H : forall kv, In kv items ->
            plain (from_nested_dict (snd kv)) = plain (snd kv)
            /\ attribute_tree (from_nested_dict (snd kv)) = true
            /\ from_nested_dict (from_nested_dict (snd kv)) = from_nested_dict (snd kv))
    by now apply Forall_forall.
  repeat split.
  - f_equal. apply map_ext_in. intros [k x] Hkv.
    destruct (H _ Hkv) as (E & _). cbn [snd] in E. now rewrite E.
  - apply forallb_forall. intros kv Hkv.
    apply in_map_iff in Hkv as ([k x] & <- & Hkv).
    destruct (H _ Hkv) as (_ & E & _). exact E.
  - f_equal. apply map_ext_in. intros [k x] Hkv.
    destruct (H _ Hkv) as (_ & _ & E). cbn [snd] in E. now rewrite E.
Qed.

End NestedArguments.

(** ** Comments in a config file *)

Section Comments.

Local Open Scope string_scope.

Lemma re_sub_comment_skip c r :
  re_sub_comment true (String c r)
  = if Ascii.eqb c LF then String c (re_sub_comment false r)
    else re_sub_comment true r.
Proof. reflexivity. Qed.

Lemma re_sub_comment_scan c c' r :
  re_sub_comment false (String c (String c' r))
  = if Ascii.eqb c "/" && Ascii.eqb c' "/" then re_sub_comment true r
    else String c (re_sub_comment false (String c' r)).
Proof. reflexivity. Qed.

Lemma has_comment_cons c c' r :
  has_comment (String c (String c' r))
  = (Ascii.eqb c "/" && Ascii.eqb c' "/") || has_comment (String c' r).
Proof. reflexivity. Qed.

(** What is kept starts with a slash only where the text does. *)
Lemma re_sub_comment_head c r :
  Ascii.eqb c "/" = false ->
  exists t, re_sub_comment false (String c r) = String c t.
Proof.
  intros Hc. destruct r as [|c' r]; [now exists EmptyString|].
  rewrite re_sub_comment_scan, Hc. cbn [andb]. eauto.
Qed.

Lemma has_comment_after c t :
  Ascii.eqb c "/" = false -> has_comment (String c t) = has_comment t.
Proof.
  intros Hc. destruct t as [|c' t]; [reflexivity|].
  rewrite has_comment_cons, Hc. reflexivity.
Qed.

Lemma re_sub_comment_clean_aux s :
  (forall b, has_comment (re_sub_comment b s) = false)
  /\ (forall c b, has_comment (re_sub_comment b (String c s)) = false).
Proof.
  induction s as [|c0 s [IH1 IH2]].
  - split; [now intros []|]. intros c [|]; cbn [re_sub_comment]; [|reflexivity].
    now destruct (Ascii.eqb c LF).
  - split; [apply IH2|]. intros c [|].
    + rewrite re_sub_comment_skip. destruct (Ascii.eqb c LF) eqn:Ec; [|apply IH2].
      apply Ascii.eqb_eq in Ec. subst c.
      rewrite has_comment_after by reflexivity. apply IH2.
    + rewrite re_sub_comment_scan.
      destruct (Ascii.eqb c "/") eqn:Ec; cbn [andb].
      * destruct (Ascii.eqb c0 "/") eqn:Ec0; [apply IH1|].
        destruct (re_sub_comment_head c0 s Ec0) as (t & Et).
        pose proof (IH2 c0 false) as H. rewrite Et in *.
        rewrite has_comment_cons, Ec0, andb_false_r. exact H.
      * rewrite has_comment_after by assumption. apply IH2.
Qed.

(** No two slashes in a row are left. *)
Lemma re_sub_comment_clean b s : has_comment (re_sub_comment b s) = false.
Proof. apply re_sub_comment_clean_aux. Qed.

Lemma re_sub_comment_count_aux s :
  (forall b, count_char LF (re_sub_comment b s) = count_char LF s)
  /\ (forall c b, count_char LF (re_sub_comment b (String c s))
                  = count_char LF (String c s)).
Proof.
  induction s as [|c0 s [IH1 IH2]].
  - split; [now intros []|]. intros c [|]; cbn [re_sub_comment]; [|reflexivity].
    destruct (Ascii.eqb c LF) eqn:Ec; cbn [count_char]; now rewrite Ec.
  - split; [apply IH2|]. intros c [|].
    + rewrite re_sub_comment_skip. cbn [count_char] in *.
      destruct (Ascii.eqb c LF) eqn:Ec; cbn [count_char].
      * rewrite Ec. f_equal. apply (IH2 c0 false).
      * apply (IH2 c0 true).
    + rewrite re_sub_comment_scan.
      destruct (Ascii.eqb c "/" && Ascii.eqb c0 "/") eqn:Ecc.
      * apply andb_true_iff in Ecc as [Ec Ec0].
        apply Ascii.eqb_eq in Ec, Ec0. subst c c0.
        cbn [count_char]. change (Ascii.eqb "/" LF) with false. cbn [Nat.add].
        apply IH1.
      * cbn [count_char] in *. f_equal. apply (IH2 c0 false).
Qed.

(** Every line feed is kept. *)
Lemma re_sub_comment_count b s :
  count_char LF (re_sub_comment b s) = count_char LF s.
Proof. apply re_sub_comment_count_aux. Qed.

(** A text without two slashes in a row is left as it is. *)
Lemma re_sub_comment_id s : has_comment s = false -> re_sub_comment false s = s.
Proof.
  induction s as [|c s IH]; [reflexivity|]. destruct s as [|c' s]; [reflexivity|].
  rewrite has_comment_cons, re_sub_comment_scan. intros H.
  apply orb_false_iff in H as [-> H]. now rewrite IH.
Qed.

Lemma re_sub_comment_skips rest :
  mem_char LF rest = false ->
  re_sub_comment true rest = EmptyString
  /\ forall tail, re_sub_comment true (rest ++ String LF tail)
                  = String LF (re_sub_comment false tail).
Proof.
  induction rest as [|c rest IH]; intros H.
  - split; [reflexivity|]. intros tail. cbn [append].
    rewrite re_sub_comment_skip. now rewrite Ascii.eqb_refl.
  - cbn [mem_char] in H. apply orb_false_iff in H as [Hc H].
    destruct (IH H) as [IH1 IH2]. split.
    + rewrite re_sub_comment_skip. now rewrite Hc.
    + intros tail. cbn [append]. rewrite re_sub_comment_skip. now rewrite Hc.
Qed.

(** A line is cut at its first two slashes. *)
Lemma re_sub_comment_cuts pre rest :
  has_comment (pre ++ "/") = false ->
  mem_char LF rest = false ->
  re_sub_comment false (pre ++ "//" ++ rest) = pre
  /\ forall tail, re_sub_comment false (pre ++ "//" ++ rest ++ String LF tail)
                  = pre ++ String LF (re_sub_comment false tail).
Proof.
  intros Hpre Hrest. destruct (re_sub_comment_skips rest Hrest) as [Hs1 Hs2].
  induction pre as [|c pre IH].
  - cbn [append]. split; [|intros tail]; rewrite re_sub_comment_scan;
      cbn [Ascii.eqb andb]; [exact Hs1|apply Hs2].
  - destruct pre as [|c' pre].
    + cbn [append] in *. rewrite has_comment_cons in Hpre.
      apply orb_false_iff in Hpre as [Hc _]. rewrite andb_true_r in Hc.
      destruct (IH eq_refl) as [IH1 IH2]. cbn [append] in IH1, IH2.
      split; [|intros tail]; rewrite (re_sub_comment_scan c), Hc; cbn [andb].
      * now rewrite IH1.
      * now rewrite IH2.
    + cbn [append] in *. rewrite has_comment_cons in Hpre.
      apply orb_false_iff in Hpre as [Hc Hpre].
      destruct (IH Hpre) as [IH1 IH2].
      split; [|intros tail]; rewrite (re_sub_comment_scan c), Hc.
      * now rewrite IH1.
      * now rewrite IH2.
Qed.

Lemma file_lines_unfold c r :
  file_lines (String c r)
  = if Ascii.eqb c LF then String c EmptyString :: file_lines r
    else match file_lines r with
         | l :: ls => String c l :: ls
         | [] => [String c EmptyString]
         end.
Proof. reflexivity. Qed.

Lemma file_lines_cons c s :
  exists l ls,
    file_lines (String c s) = String c l :: ls
    /\ ((Ascii.eqb c LF = true /\ l = EmptyString /\ ls = file_lines s)
        \/ (Ascii.eqb c LF = false
            /\ (file_lines s = l :: ls
                \/ (s = EmptyString /\ l = EmptyString /\ ls = [])))).
Proof.
  rewrite file_lines_unfold. destruct (Ascii.eqb c LF) eqn:Ec.
  - exists EmptyString, (file_lines s). split; [reflexivity|]. left. now repeat split.
  - destruct (file_lines s) as [|l ls] eqn:El.
    + exists EmptyString, []. split; [reflexivity|]. right. split; [reflexivity|].
      right. repeat split. destruct s as [|c' s]; [reflexivity|].
      rewrite file_lines_unfold in El.
      destruct (Ascii.eqb c' LF); [discriminate|].
      destruct (file_lines s); discriminate.
    + exists l, ls. split; [reflexivity|]. right. split; [reflexivity|now left].
Qed.

Lemma re_sub_comment_lines_aux s :
  (forall b, re_sub_comment b s
             = match file_lines s with
               | [] => EmptyString
               | l :: ls => re_sub_comment b l
                            ++ String.concat EmptyString (map (re_sub_comment false) ls)
               end)
  /\ (forall c b, re_sub_comment b (String c s)
                  = match file_lines (String c s) with
                    | [] => EmptyString
                    | l :: ls => re_sub_comment b l
                                 ++ String.concat EmptyString (map (re_sub_comment false) ls)
                    end).
Proof.
  induction s as [|c0 s [IH1 IH2]].
  - split; [now intros []|]. intros c b. rewrite file_lines_unfold. cbn [file_lines].
    destruct (Ascii.eqb c LF); cbn [map String.concat]; now rewrite append_nil_r.
  - split; [apply IH2|]. intros c b.
    destruct (file_lines_cons c0 s) as (l0 & ls0 & E0 & Hl0).
    pose proof (IH2 c0 true) as Ht. pose proof (IH2 c0 false) as Hf.
    rewrite E0 in Ht, Hf. rewrite (file_lines_unfold c), E0.
    destruct b.
    + rewrite (re_sub_comment_skip c (String c0 s)).
      destruct (Ascii.eqb c LF) eqn:Ec.
      * rewrite (re_sub_comment_skip c EmptyString), Ec.
        change (re_sub_comment false EmptyString) with EmptyString.
        cbn [append map]. now rewrite concat_nil_cons, Hf.
      * rewrite (re_sub_comment_skip c (String c0 l0)), Ec. exact Ht.
    + rewrite (re_sub_comment_scan c c0 s).
      destruct (Ascii.eqb c "/" && Ascii.eqb c0 "/") eqn:Ecc.
      * apply andb_true_iff in Ecc as [Ec Ec0].
        apply Ascii.eqb_eq in Ec, Ec0. subst c c0.
        change (Ascii.eqb "/" LF) with false. cbv iota.
        rewrite re_sub_comment_scan. cbn [Ascii.eqb andb].
        destruct Hl0 as [(Hc & _)|(_ & [El|(-> & -> & ->)])].
        -- discriminate Hc.
        -- rewrite (IH1 true), El. reflexivity.
        -- reflexivity.
      * destruct (Ascii.eqb c LF) eqn:Ec.
        -- change (re_sub_comment false (String c EmptyString))
             with (String c EmptyString).
           cbn [append map]. now rewrite concat_nil_cons, Hf.
        -- rewrite (re_sub_comment_scan c c0 l0), Ecc. cbn [append]. now rewrite Hf.
Qed.

(** Substituting line by line and joining is substituting in the whole
    text. *)
Lemma strip_comments_whole text :
  strip_comments text = re_sub_comment false (universal_newlines text).
Proof.
  unfold strip_comments.
  rewrite (proj1 (re_sub_comment_lines_aux (universal_newlines text)) false).
  destruct (file_lines (universal_newlines text)) as [|l ls]; [reflexivity|].
  cbn [map]. apply concat_nil_cons.
Qed.

Lemma has_comment_tail c s : has_comment (String c s) = false -> has_comment s = false.
Proof.
  destruct s as [|c' s]; [reflexivity|]. rewrite has_comment_cons.
  intros H. now apply orb_false_iff in H.
Qed.

Lemma universal_newlines_head c s :
  exists t, universal_newlines (String c s)
            = String (if Ascii.eqb c CR then LF else c) t.
Proof.
  cbn [universal_newlines]. destruct (Ascii.eqb c CR); [|eauto].
  destruct s as [|c' s]; [eauto|]. destruct (Ascii.eqb c' LF); eauto.
Qed.

Lemma universal_newlines_clean_aux s :
  (has_comment s = false -> has_comment (universal_newlines s) = false)
  /\ (forall c, has_comment (String c s) = false ->
                has_comment (universal_newlines (String c s)) = false).
Proof.
  induction s as [|c0 s [IH1 IH2]].
  - split; [reflexivity|]. intros c _. cbn [universal_newlines].
    now destruct (Ascii.eqb c CR).
  - split; [apply IH2|]. intros c H. rewrite has_comment_cons in H.
    apply orb_false_iff in H as [Hcc H].
    change (universal_newlines (String c (String c0 s)))
      with (if Ascii.eqb c CR
            then if Ascii.eqb c0 LF
                 then String LF (universal_newlines s)
                 else String LF (universal_newlines (String c0 s))
            else String c (universal_newlines (String c0 s))).
    destruct (Ascii.eqb c CR) eqn:Ec.
    + destruct (Ascii.eqb c0 LF).
      * rewrite has_comment_after by reflexivity. apply IH1.
        now apply has_comment_tail in H.
      * rewrite has_comment_after by reflexivity. now apply IH2.
    + destruct (universal_newlines_head c0 s) as (t & Et).
      pose proof (IH2 c0 H) as H'. rewrite Et in *.
      rewrite has_comment_cons, H', orb_false_r.
      destruct (Ascii.eqb c0 CR) eqn:Ec0.
      * change (Ascii.eqb LF "/") with false. apply andb_false_r.
      * exact Hcc.
Qed.

(** X26.  A config line is cut at its first two slashes, wherever they
    stand: what precedes them is kept and the rest of the line, up to
    its line feed, is dropped; no account is taken of string quotes, so
    a value such as a URL is cut as well. *)
Theorem strip_comments_cuts_line (pre rest tail : string) :
  has_comment (pre ++ "/") = false ->
  mem_char CR pre = false ->
  mem_char CR rest = false ->
  mem_char LF rest = false ->
  strip_comments (pre ++ "//" ++ rest) = pre
  /\ strip_comments (((pre ++ "//" ++ rest) ++ NL) ++ tail)
     = pre ++ NL ++ strip_comments tail.
Proof.
  intros Hpre Hcr Hcr' Hlf.
  assert (Hs : mem_char CR (pre ++ "//" ++ rest) = false).
  { rewrite !mem_char_app, Hcr, Hcr'. reflexivity. }
  destruct (re_sub_comment_cuts pre rest Hpre Hlf) as [H1 H2].
  rewrite !strip_comments_whole. split.
  - now rewrite universal_newlines_id.
  - rewrite universal_newlines_app, (universal_newlines_id (_ ++ NL))
      by (rewrite mem_char_app, Hs; reflexivity).
    rewrite !append_assoc. apply H2.
Qed.

(** X27.  What is left of a config file holds no two slashes in a row
    and as many line feeds as the file read in text mode; a file
    without two slashes in a row is passed on as read. *)
Theorem strip_comments_result (text : string) :
  has_comment (strip_comments text) = false
  /\ count_char LF (strip_comments text) = count_char LF (universal_newlines text)
  /\ (has_comment text = false -> strip_comments text = universal_newlines text).
Proof.
  rewrite strip_comments_whole. repeat split.
  - apply re_sub_comment_clean.
  - apply re_sub_comment_count.
  - intros H. apply re_sub_comment_id.
    now apply (proj1 (universal_newlines_clean_aux text)).
Qed.

End Comments.

Lemma strip_comments_cuts_line_witness :
  strip_comments demo_config_line
  = String.concat EmptyString ["{"; QUOTE; "url"; QUOTE; ": "; QUOTE; "http:"]%string.
Proof.
  exact (proj1 (strip_comments_cuts_line
                  (String.concat EmptyString
                     ["{"; QUOTE; "url"; QUOTE; ": "; QUOTE; "http:"]%string)
                  (String.concat EmptyString ["x.org"; QUOTE; "}"]%string)
                  EmptyString eq_refl eq_refl eq_refl eq_refl)).
Defined.

(** ** Parsing a printed report *)

Section ReportParsing.

Variable float : string -> result Q.

Lemma parsed_rows_nonempty cr row : In row (parsed_rows cr) -> row <> [].
Proof.
  unfold parsed_rows. intros H. apply filter_In in H as [_ H].
  now destruct row.
Qed.

Lemma measures_loop_returns row class_label measures : forall j D,
  (exists D', measures_loop float row class_label j measures D = Ok D')
  <-> (forall i, i < List.length measures -> cell_parses float row (j + i)).
Proof.
  induction measures as [|m rest IH]; intros j D; cbn [measures_loop List.length].
  - split; [intros _ i Hi; lia|intros _; now exists D].
  - replace (j + 1) with (S j) by lia. split.
    + intros (D' & H) i Hi.
      destruct (getitem row (Z.of_nat (S j))) as [cell|] eqn:Eg; [|discriminate].
      apply (getitem_nat_ok EmptyString) in Eg as [Hlen ->]. cbn [bind] in H.
      destruct (float (strip (nth (S j) row EmptyString))) as [v|] eqn:Ef;
        [|discriminate].
      cbn [bind] in H. destruct i as [|i].
      * rewrite Nat.add_0_r. split; [assumption|now exists v].
      * replace (j + S i) with (S j + i) by lia.
        apply (proj1 (IH (S j) (set_measure D class_label (strip m) v)));
          [now exists D'|lia].
    + intros Hall. destruct (Hall 0) as [Hlen (v & Hv)]; [lia|].
      rewrite Nat.add_0_r in Hlen, Hv.
      rewrite (getitem_nat EmptyString) by assumption. cbn [bind].
      rewrite Hv. cbn [bind]. apply IH. intros i Hi.
      replace (S j + i) with (j + S i) by lia. apply Hall. lia.
Qed.

Lemma measures_loop_raise row class_label measures e : forall j D,
  measures_loop float row class_label j measures D = Raise e ->
  e = IndexError \/ exists s, float s = Raise e.
Proof.
  induction measures as [|m rest IH]; intros j D; cbn [measures_loop];
    [discriminate|].
  destruct (getitem row (Z.of_nat (j + 1))) as [cell|e'] eqn:Eg; cbn [bind].
  - destruct (float (strip cell)) as [v|e'] eqn:Ef; cbn [bind]; [apply IH|].
    intros H. injection H as <-. right. now exists (strip cell).
  - intros H. injection H as <-. left. now apply getitem_raise in Eg.
Qed.

Lemma rows_loop_returns rows measures : forall D,
  (exists D', rows_loop float rows measures D = Ok D')
  <-> (forall row, In row rows ->
         row <> []
         /\ forall j, j < List.length measures -> cell_parses float row j).
Proof.
  induction rows as [|row rest IH]; intros D; cbn [rows_loop].
  - split; [intros _ row []|intros _; now exists D].
  - split.
    + intros (D' & H) row' Hrow'.
      destruct (getitem row 0%Z) as [class_label|] eqn:Eg; [|discriminate].
      cbn [bind] in H.
      destruct (measures_loop float row class_label 0 measures D) as [D1|] eqn:Em;
        [|discriminate].
      cbn [bind] in H. destruct Hrow' as [<-|Hrow'].
      * split; [intros ->; discriminate Eg|].
        apply (proj1 (measures_loop_returns row class_label measures 0 D)).
        now exists D1.
      * apply (proj1 (IH D1)); [now exists D'|assumption].
    + intros Hall. destruct (Hall row (or_introl eq_refl)) as [Hne Hcells].
      destruct row as [|class_label cells]; [congruence|].
      change (getitem (class_label :: cells) 0%Z) with (Ok class_label : result string).
      cbn [bind].
      destruct (proj2 (measures_loop_returns (class_label :: cells) class_label
                         measures 0 D) Hcells) as (D1 & ->).
      cbn [bind]. apply IH. intros row' Hrow'. apply Hall. now right.
Qed.

Lemma rows_loop_raise rows measures e : forall D,
  rows_loop float rows measures D = Raise e ->
  e = IndexError \/ exists s, float s = Raise e.
Proof.
  induction rows as [|row rest IH]; intros D; cbn [rows_loop]; [discriminate|].
  destruct (getitem row 0%Z) as [class_label|e'] eqn:Eg; cbn [bind].
  - destruct (measures_loop float row class_label 0 measures D) as [D1|e'] eqn:Em;
      cbn [bind]; [apply IH|].
    intros H. injection H as <-. now apply measures_loop_raise in Em.
  - intros H. injection H as <-. left. now apply getitem_raise in Eg.
Qed.

(** X28.  [report2dict] takes the first row that holds a cell as the
    header.  It returns exactly when there is such a row and every later
    row holds, after its label, a cell that [float] takes for every
    header cell; otherwise it raises [IndexError] (nothing but blank
    rows, or a row that is too short) or what [float] raised. *)
Theorem report2dict_returns_iff (cr : string) :
  ((exists report, report2dict float cr = Ok report)
   <-> exists measures rows,
         parsed_rows cr = measures :: rows
         /\ forall row j, In row rows -> j < List.length measures ->
                          cell_parses float row j)
  /\ (parsed_rows cr = [] -> report2dict float cr = Raise IndexError)
  /\ (forall e, report2dict float cr = Raise e ->
                e = IndexError \/ exists s, float s = Raise e).
Proof.
  unfold report2dict. destruct (parsed_rows cr) as [|measures rows] eqn:Et.
  - split; [split|split].
    + intros (report & H). discriminate H.
    + intros (measures & rows & H & _). discriminate H.
    + reflexivity.
    + intros e H. injection H as <-. now left.
  - change (getitem (measures :: rows) 0%Z) with (Ok measures : result (list string)).
    cbn [bind tl].
    assert (Hne : forall row, In row rows -> row <> []).
    { intros row Hrow. apply (parsed_rows_nonempty cr). rewrite Et. now right. }
    split; [split|split].
    + intros (report & H).
      destruct (rows_loop float rows measures []) as [D|] eqn:El; [|discriminate].
      exists measures, rows. split; [reflexivity|]. intros row j Hrow Hj.
      destruct (proj1 (rows_loop_returns rows measures [])
                  (ex_intro _ D El) row Hrow) as [_ Hc].
      now apply Hc.
    + intros (measures' & rows' & E & Hcells). injection E as <- <-.
      destruct (proj2 (rows_loop_returns rows measures [])) as (D & ->).
      * intros row Hrow. split; [now apply Hne|]. intros j Hj. now apply Hcells.
      * cbn [bind]. now eexists.
    + discriminate.
    + intros e H.
      destruct (rows_loop float rows measures []) as [D|e'] eqn:El; [discriminate|].
      injection H as <-. now apply rows_loop_raise in El.
Qed.

Lemma assign_absent {V} (d : list (string * V)) k v :
  contains d k = false -> assign d k v = d ++ [(k, v)].
Proof.
  unfold contains. induction d as [|[k' v'] r IH]; cbn [existsb assign app fst];
    [reflexivity|].
  intros H. apply orb_false_iff in H as [-> H]. now rewrite IH.
Qed.

Lemma assign_last {V} (d : list (string * V)) k v v' :
  contains d k = false -> assign (d ++ [(k, v)]) k v' = d ++ [(k, v')].
Proof.
  unfold contains. induction d as [|[k0 v0] r IH]; cbn [existsb assign app fst].
  - now rewrite String.eqb_refl.
  - intros H. apply orb_false_iff in H as [-> H]. now rewrite IH.
Qed.

Lemma lookup_last {V} (d : list (string * V)) k v :
  contains d k = false -> lookup (d ++ [(k, v)]) k = Ok v.
Proof.
  unfold contains. induction d as [|[k0 v0] r IH]; cbn [existsb lookup app fst].
  - now rewrite String.eqb_refl.
  - intros H. apply orb_false_iff in H as [-> H]. now apply IH.
Qed.

Lemma contains_snoc {V} (d : list (string * V)) k v k' :
  contains (d ++ [(k, v)]) k' = contains d k' || String.eqb k k'.
Proof.
  unfold contains. rewrite existsb_app. cbn [existsb fst]. now rewrite orb_false_r.
Qed.

(** The measures of a row whose label has an entry already, when no
    measure of the row is in the entry. *)
Lemma measures_loop_fills row class_label D0 measures : forall vs j entry,
  contains D0 class_label = false ->
  NoDup (map strip measures) ->
  (forall m, In m measures -> contains entry (strip m) = false) ->
  List.length vs = List.length measures ->
  (forall i, i < List.length measures ->
     S (j + i) < List.length row
     /\ float (strip (nth (S (j + i)) row EmptyString)) = Ok (nth i vs 0%Q)) ->
  measures_loop float row class_label j measures (D0 ++ [(class_label, entry)])
  = Ok (D0 ++ [(class_label, entry ++ combine (map strip measures) vs)]).
Proof.
  induction measures as [|m rest IH]; intros vs j entry Hfresh Hnd Hkeys Hlen Hcells.
  - cbn [measures_loop map combine]. now rewrite app_nil_r.
  - destruct vs as [|v vs]; [discriminate|]. cbn [measures_loop map combine].
    destruct (Hcells 0) as [Hrow Hv]; [simpl; lia|].
    rewrite Nat.add_0_r in Hrow, Hv. cbn [nth] in Hv.
    replace (j + 1) with (S j) by lia.
    rewrite (getitem_nat EmptyString) by assumption. cbn [bind].
    rewrite Hv. cbn [bind]. unfold set_measure.
    rewrite lookup_last by assumption.
    rewrite (assign_absent entry) by (apply Hkeys; now left).
    rewrite assign_last by assumption.
    inversion Hnd as [|? ? Hnotin Hnd']; subst.
    rewrite (IH vs (S j) (entry ++ [(strip m, v)])); try assumption.
    + now rewrite <- app_assoc.
    + intros m' Hm'. rewrite contains_snoc, Hkeys by now right.
      cbn [orb]. destruct (String.eqb (strip m) (strip m')) eqn:E; [|reflexivity].
      apply String.eqb_eq in E. exfalso. apply Hnotin. rewrite E. now apply in_map.
    + simpl in Hlen. lia.
    + intros i Hi. destruct (Hcells (S i)) as [Hrow' Hv']; [simpl; lia|].
      cbn [nth] in Hv'. replace (S j + i) with (j + S i) by lia. now split.
Qed.

(** The measures of a row with a new label. *)
Lemma measures_loop_new_row row class_label D0 measures vs :
  contains D0 class_label = false ->
  measures <> [] ->
  NoDup (map strip measures) ->
  List.length vs = List.length measures ->
  (forall i, i < List.length measures ->
     S i < List.length row
     /\ float (strip (nth (S i) row EmptyString)) = Ok (nth i vs 0%Q)) ->
  measures_loop float row class_label 0 measures D0
  = Ok (D0 ++ [(class_label, combine (map strip measures) vs)]).
Proof.
  intros Hfresh Hne Hnd Hlen Hcells.
  destruct measures as [|m rest]; [congruence|].
  destruct vs as [|v vs]; [discriminate|]. cbn [measures_loop map combine].
  destruct (Hcells 0) as [Hrow Hv]; [simpl; lia|]. cbn [nth] in Hv.
  change (0 + 1) with 1.
  rewrite (getitem_nat EmptyString row 1) by assumption. cbn [bind].
  rewrite Hv. cbn [bind]. unfold set_measure.
  rewrite (lookup_missing D0) by assumption. cbn [assign].
  rewrite assign_absent by assumption.
  inversion Hnd as [|? ? Hnotin Hnd']; subst.
  rewrite (measures_loop_fills row class_label D0 rest vs 1 [(strip m, v)]);
    try assumption.
  - reflexivity.
  - intros m' Hm'. unfold contains. cbn [existsb fst]. rewrite orb_false_r.
    destruct (String.eqb (strip m) (strip m')) eqn:E; [|reflexivity].
    apply String.eqb_eq in E. exfalso. apply Hnotin. rewrite E. now apply in_map.
  - simpl in Hlen. lia.
  - intros i Hi. destruct (Hcells (S i)) as [Hrow' Hv']; [simpl; lia|].
    cbn [nth] in Hv'. now split.
Qed.

Lemma rows_loop_table measures rows : forall vals D0,
  measures <> [] ->
  NoDup (map strip measures) ->
  NoDup (map (hd EmptyString) rows) ->
  (forall row, In row rows ->
     row <> [] /\ contains D0 (hd EmptyString row) = false) ->
  Forall2 (fun row vs =>
             List.length vs = List.length measures
             /\ forall j, j < List.length measures ->
                  S j < List.length row
                  /\ float (strip (nth (S j) row EmptyString)) = Ok (nth j vs 0%Q))
          rows vals ->
  rows_loop float rows measures D0
  = Ok (D0 ++ zip_with (fun row vs =>
                          (hd EmptyString row, combine (map strip measures) vs))
                       rows vals).
Proof.
  induction rows as [|row rest IH]; intros vals D0 Hne Hnd Hlabels Hfresh Hvals.
  - inversion Hvals; subst. cbn [rows_loop zip_with]. now rewrite app_nil_r.
  - inversion Hvals as [|? vs ? vals' [Hlen Hcells] Hvals']; subst.
    destruct (Hfresh row (or_introl eq_refl)) as [Hrow Hnew].
    destruct row as [|class_label cells]; [congruence|]. cbn [hd] in *.
    cbn [rows_loop zip_with hd].
    change (getitem (class_label :: cells) 0%Z) with (Ok class_label : result string).
    cbn [bind].
    rewrite (measures_loop_new_row _ class_label D0 measures vs) by assumption.
    cbn [bind]. cbn [map] in Hlabels.
    inversion Hlabels as [|? ? Hnotin Hlabels']; subst.
    rewrite (IH vals'); try assumption.
    + now rewrite <- app_assoc.
    + intros row' Hrow'. destruct (Hfresh row' (or_intror Hrow')) as [Hr Hc].
      split; [assumption|]. rewrite contains_snoc, Hc. cbn [orb].
      destruct (String.eqb class_label (hd EmptyString row')) eqn:E; [|reflexivity].
      apply String.eqb_eq in E. exfalso. apply Hnotin. rewrite E. now apply in_map.
Qed.

(** X29.  The dict that [report2dict] builds from a table with distinct
    labels and distinct header cells: one entry per row after the
    header, in the order of the rows, that maps every stripped header
    cell, in the order of the header, to the [float] of the cell below
    it; the first cell of a row is its label. *)
Theorem report2dict_table (cr : string) (measures : list string)
    (rows : list (list string)) (vals : list (list Q)) :
  parsed_rows cr = measures :: rows ->
  NoDup (map strip measures) ->
  NoDup (map (hd EmptyString) rows) ->
  Forall2 (fun row vs =>
             List.length vs = List.length measures
             /\ forall j, j < List.length measures ->
                  S j < List.length row
                  /\ float (strip (nth (S j) row EmptyString)) = Ok (nth j vs 0%Q))
          rows vals ->
  report2dict float cr
  = Ok {| items := zip_with (fun row vs =>
                               (hd EmptyString row, combine (map strip measures) vs))
                            rows vals;
          default_factory := true |}.
Proof.
  intros Et Hnd Hlabels Hvals. unfold report2dict. rewrite Et.
  change (getitem (measures :: rows) 0%Z) with (Ok measures : result (list string)).
  cbn [bind tl].
  rewrite (rows_loop_table measures rows vals []); try assumption.
  - reflexivity.
  - apply (parsed_rows_nonempty cr). rewrite Et. now left.
  - intros row Hrow. split; [|reflexivity].
    apply (parsed_rows_nonempty cr). rewrite Et. now right.
Qed.

End ReportParsing.

Lemma report2dict_returns_iff_witness :
  report2dict demo_float ("a  b" ++ NL ++ "x  2")%string = Raise IndexError.
Proof.
  destruct (report2dict_returns_iff demo_float ("a  b" ++ NL ++ "x  2")%string)
    as (Hiff & _ & Hexn).
  destruct (report2dict demo_float ("a  b" ++ NL ++ "x  2")%string) as [report|e] eqn:E.
  - destruct (proj1 Hiff (ex_intro _ report eq_refl))
      as (measures & rows & Et & Hcells).
    vm_compute in Et. injection Et as <- <-.
    destruct (Hcells ["x"; "2"]%string 1) as [Hlen _];
      [now left|simpl; lia|simpl in Hlen; lia].
  - destruct (Hexn e eq_refl) as [->|(s & Hs)]; [reflexivity|].
    vm_compute in E. injection E as <-. reflexivity.
Defined.

Lemma report2dict_table_witness :
  report2dict demo_float demo_report
  = Ok {| items :=
            [("PER", [("precision", 1 # 2); ("recall", 1%Q);
                      ("f1-score", 67 # 100); ("support", 2%Q)]);
             ("micro avg", [("precision", 1 # 2); ("recall", 1%Q);
                            ("f1-score", 67 # 100); ("support", 2%Q)])]%string;
          default_factory := true |}.
Proof.
  apply (report2dict_table demo_float demo_report
           ["precision"; "recall"; "f1-score"; "support"]%string
           [["PER"; "0.50"; "1.00"; "0.67"; "2"];
            ["micro avg"; "0.50"; "1.00"; "0.67"; "2"]]%string
           [[1 # 2; 1%Q; 67 # 100; 2%Q]; [1 # 2; 1%Q; 67 # 100; 2%Q]]).
  - reflexivity.
  - repeat constructor; simpl; intuition discriminate.
  - repeat constructor; simpl; intuition discriminate.
  - apply Forall2_cons; [split; [reflexivity|]|
      apply Forall2_cons; [split; [reflexivity|]|apply Forall2_nil]];
      intros j Hj; simpl in Hj;
      (do 4 (destruct j as [|j]; [simpl; split; [lia|reflexivity]|])); lia.
Defined.
